(** * Dolphin video presentation layer: on-screen messages and display geometry

    A shallow embedding of [Source/Core/VideoCommon/OnScreenDisplay.cpp]
    (the OSD message queue) and of the layout arithmetic and the frame
    presentation of [Source/Core/VideoCommon/Present.cpp], together with
    the properties the specification states about them and further
    properties read off the code.

    Conventions.
    - C++ integers are [Z] with the wrap-around of their width written out;
      the properties of signed sums and differences are stated under
      bounds that keep them exact.
    - [float] is IEEE-754 binary32 and [double] binary64, both with
      round-to-nearest-even; the model below computes the correctly rounded
      result of each operation from its exact value.
    - A C++ expression whose behaviour is undefined (integer division by
      zero, overflow of the [int] arithmetic of
      [AdjustRectanglesToFitBounds], a floating value converted to an [int]
      it does not fit) makes the embedded function return [None].
    - The calls a function makes on its collaborators (graphics backend,
      UI, host) are returned as a list of commands, in the order made. *)

From Stdlib Require Import ZArith List Bool Lia String.
From Stdlib Require Import Floats.SpecFloat.
Import ListNotations.

Local Open Scope Z_scope.

(* ================================================================= *)
(** ** Machine integers *)

Module CInt.

(** Two's complement reduction to [w] bits. *)
Definition wrap_signed (w z : Z) : Z :=
  (z + 2 ^ (w - 1)) mod 2 ^ w - 2 ^ (w - 1).

Definition wrap_unsigned (w z : Z) : Z := z mod 2 ^ w.

Definition INT_MIN : Z := - 2 ^ 31.
Definition INT_MAX : Z := 2 ^ 31 - 1.

Definition is_int (z : Z) : Prop := INT_MIN <= z <= INT_MAX.
Definition is_u32 (z : Z) : Prop := 0 <= z < 2 ^ 32.
Definition is_u64 (z : Z) : Prop := 0 <= z < 2 ^ 64.

Definition to_int (z : Z) : Z := wrap_signed 32 z.
Definition to_s64 (z : Z) : Z := wrap_signed 64 z.
Definition to_u64 (z : Z) : Z := wrap_unsigned 64 z.

(** [int] arithmetic. *)
Definition add (a b : Z) : Z := to_int (a + b).
Definition sub (a b : Z) : Z := to_int (a - b).

(** [a / b] on [int]: truncating; undefined for a zero divisor and for
    [INT_MIN / -1]. *)
Definition div (a b : Z) : option Z :=
  if b =? 0 then None
  else if (a =? INT_MIN) && (b =? -1) then None
  else Some (Z.quot a b).

(** [a / 4] and [a % 4]: the divisor is a non-zero literal. *)
Definition div4 (a : Z) : Z := Z.quot a 4.
Definition rem4 (a : Z) : Z := Z.rem a 4.

(** [s64] negation. *)
Definition neg64 (a : Z) : Z := to_s64 (- a).

(** Signed [int] arithmetic where overflow is undefined: no result when
    the exact value is not an [int]. *)
Definition checked (z : Z) : option Z :=
  if (INT_MIN <=? z) && (z <=? INT_MAX) then Some z else None.

Definition checked_add (a b : Z) : option Z := checked (a + b).
Definition checked_sub (a b : Z) : option Z := checked (a - b).
Definition checked_mul (a b : Z) : option Z := checked (a * b).
Definition checked_neg (a : Z) : option Z := checked (- a).

(** Sequencing of computations that may be undefined. *)
Definition bind {A B : Type} (o : option A) (f : A -> option B) : option B :=
  match o with
  | Some a => f a
  | None => None
  end.

End CInt.

(* ================================================================= *)
(** ** IEEE-754 binary floating point *)

Module IEEE.

(** A floating-point datum.  [Fin n] is the finite number [n * 2^-scale]
    of its format ([Fin 0] is [+0.0]); [NZero] is [-0.0]. *)
Inductive ieee : Type :=
| NaN
| Inf (neg : bool)
| NZero
| Fin (n : Z).

Record format : Type := Format {
  prec : Z;    (* significand bits *)
  emax : Z     (* every finite number is below 2^emax *)
}.

Definition binary32 : format := {| prec := 24; emax := 128 |}.
Definition binary64 : format := {| prec := 53; emax := 1024 |}.

(** The least positive number of the format is [2^-scale]. *)
Definition scale (f : format) : Z := emax f + prec f - 3.

(** The largest finite number, in units of [2^-scale]. *)
Definition top (f : format) : Z :=
  (2 ^ prec f - 1) * 2 ^ (emax f - prec f + scale f).

(** Nearest integer to [a / b] for [0 <= a], [0 < b]; ties to even. *)
Definition rne (a b : Z) : Z :=
  let q := a / b in
  match 2 * (a mod b) ?= b with
  | Lt => q
  | Gt => q + 1
  | Eq => if Z.even q then q else q + 1
  end.

(** The positive rational [a / b], in units of [2^-scale], rounded to
    [prec] significant bits (to a multiple of the unit when subnormal). *)
Definition round_mag (f : format) (a b : Z) : Z :=
  let j := Z.max 0 (Z.log2 (a / b) - (prec f - 1)) in
  rne a (b * 2 ^ j) * 2 ^ j.

Definition zero (neg : bool) : ieee := if neg then NZero else Fin 0.

Definition pack (f : format) (neg : bool) (mag : Z) : ieee :=
  if mag =? 0 then zero neg
  else if top f <? mag then Inf neg
  else Fin (if neg then - mag else mag).

(** The rational [a / b] ([0 < b]), in units of [2^-scale], rounded. *)
Definition round_ratio (f : format) (a b : Z) : ieee :=
  pack f (a <? 0) (round_mag f (Z.abs a) b).

Definition sign (x : ieee) : bool :=
  match x with
  | NaN => false
  | Inf s => s
  | NZero => true
  | Fin n => n <? 0
  end.

(** Numerator of a finite datum, in units. *)
Definition num (x : ieee) : Z :=
  match x with Fin n => n | _ => 0 end.

Definition is_zero (x : ieee) : bool :=
  match x with NZero => true | Fin n => n =? 0 | _ => false end.

(** Conversion of an integer. *)
Definition of_Z (f : format) (z : Z) : ieee :=
  round_ratio f (z * 2 ^ scale f) 1.

(** Correctly rounded quotient of two integers ([0 < b]). *)
Definition of_ratio (f : format) (a b : Z) : ieee :=
  round_ratio f (a * 2 ^ scale f) b.

Definition div (f : format) (x y : ieee) : ieee :=
  match x, y with
  | NaN, _ | _, NaN => NaN
  | Inf _, Inf _ => NaN
  | Inf s, _ => Inf (xorb s (sign y))
  | _, Inf s => zero (xorb (sign x) s)
  | _, _ =>
      let s := xorb (sign x) (sign y) in
      if is_zero y then (if is_zero x then NaN else Inf s)
      else if is_zero x then zero s
      else round_ratio f (num x * 2 ^ scale f * Z.sgn (num y)) (Z.abs (num y))
  end.

Definition mul (f : format) (x y : ieee) : ieee :=
  match x, y with
  | NaN, _ | _, NaN => NaN
  | Inf s, _ => if is_zero y then NaN else Inf (xorb s (sign y))
  | _, Inf s => if is_zero x then NaN else Inf (xorb (sign x) s)
  | _, _ =>
      if is_zero x || is_zero y then zero (xorb (sign x) (sign y))
      else round_ratio f (num x * num y) (2 ^ scale f)
  end.

Definition sub (f : format) (x y : ieee) : ieee :=
  match x, y with
  | NaN, _ | _, NaN => NaN
  | Inf s, Inf t => if Bool.eqb s t then NaN else Inf s
  | Inf s, _ => Inf s
  | _, Inf t => Inf (negb t)
  | _, _ =>
      let d := num x - num y in
      if d =? 0
      then zero (sign x && is_zero x && negb (sign y))
      else round_ratio f d 1
  end.

(** [x < y]; false when either side is a NaN. *)
Definition ltb (x y : ieee) : bool :=
  match x, y with
  | NaN, _ | _, NaN => false
  | Inf s, Inf t => s && negb t
  | Inf s, _ => s
  | _, Inf t => negb t
  | _, _ => num x <? num y
  end.

(** [x <= y]; false when either side is a NaN. *)
Definition leb (x y : ieee) : bool :=
  match x, y with
  | NaN, _ | _, NaN => false
  | Inf s, Inf t => s || negb t
  | Inf s, _ => s
  | _, Inf t => negb t
  | _, _ => num x <=? num y
  end.

(** [x >= y]. *)
Definition geb (x y : ieee) : bool := leb y x.

(** [std::min(a, b)] is [(b < a) ? b : a]. *)
Definition min (a b : ieee) : ieee := if ltb b a then b else a.

(** [std::max(a, b)] is [(a < b) ? b : a]. *)
Definition max (a b : ieee) : ieee := if ltb a b then b else a.

(** [std::clamp(v, lo, hi)] is [(v < lo) ? lo : (hi < v) ? hi : v]. *)
Definition clamp (v lo hi : ieee) : ieee :=
  if ltb v lo then lo else if ltb hi v then hi else v.

(** [std::ceil]. *)
Definition ceil (f : format) (x : ieee) : ieee :=
  match x with
  | Fin n =>
      let k := - ((- n) / 2 ^ scale f) in
      if k =? 0 then zero (n <? 0) else Fin (k * 2 ^ scale f)
  | _ => x
  end.

(** [std::round]: nearest integer, halfway cases away from zero. *)
Definition round (f : format) (x : ieee) : ieee :=
  match x with
  | Fin n =>
      let k := (2 * Z.abs n + 2 ^ scale f) / (2 * 2 ^ scale f) in
      if k =? 0 then zero (n <? 0) else Fin (Z.sgn n * k * 2 ^ scale f)
  | _ => x
  end.

(** [static_cast<int>(x)]: truncation toward zero; undefined when the
    truncated value is not an [int]. *)
Definition to_int (f : format) (x : ieee) : option Z :=
  match x with
  | Fin n =>
      let k := Z.quot n (2 ^ scale f) in
      if (CInt.INT_MIN <=? k) && (k <=? CInt.INT_MAX) then Some k else None
  | NZero => Some 0
  | _ => None
  end.

(** Conversion between formats (exact from binary32 to binary64). *)
Definition convert (f g : format) (x : ieee) : ieee :=
  match x with
  | Fin n =>
      if n =? 0 then Fin 0
      else round_ratio g (n * 2 ^ scale g) (2 ^ scale f)
  | _ => x
  end.

(** A positive number of the format, in units of [2^-scale]: at most
    [prec] significant bits. *)
Definition anchor (f : format) (v : Z) : Prop :=
  exists m i, v = m * 2 ^ i /\ 0 < m < 2 ^ prec f /\ 0 <= i.

(** [v] units of [2^-scale] is a number of the format, zero included. *)
Definition representable (f : format) (v : Z) : Prop :=
  v = 0 \/ (anchor f (Z.abs v) /\ Z.abs v <= top f).

(** [x] is finite, a zero of either sign included, and its value is [v]
    units. *)
Definition denotes (x : ieee) (v : Z) : Prop :=
  x = Fin v \/ (x = NZero /\ v = 0).

(** Embedding into the Standard Library's specification of IEEE-754
    data, used to cross-check the operations above on sample inputs. *)
Definition to_spec (f : format) (x : ieee) : spec_float :=
  match x with
  | NaN => S754_nan
  | Inf s => S754_infinity s
  | NZero => S754_zero true
  | Fin n => binary_normalize (prec f) (emax f) n (- scale f) false
  end.

End IEEE.

(* ================================================================= *)
(** ** The on-screen message queue (OnScreenDisplay.cpp) *)

Module OSD.

Import IEEE.

Definition float : format := binary32.

(** [MESSAGE_FADE_TIME = 1000.f]: ms to fade messages at the end of their
    life. *)
Definition MESSAGE_FADE_TIME : ieee := of_Z float 1000.

(** [MESSAGE_DROP_TIME = 5000.f]: ms to drop messages that have yet to
    ever render. *)
Definition MESSAGE_DROP_TIME : ieee := of_Z float 5000.

(** Modelled from the spec: the [MessageType] enumeration is declared in
    OnScreenDisplay.h, which is not among the sources.  The spec describes
    a category as "Typeless or a specific slot id"; the order below (slots
    by id, [Typeless] last) is the key order of the multimap. *)
Inductive MessageType : Type :=
| Slot (id : nat)
| Typeless.

Definition MessageType_eqb (a b : MessageType) : bool :=
  match a, b with
  | Slot i, Slot j => Nat.eqb i j
  | Typeless, Typeless => true
  | _, _ => false
  end.

Definition MessageType_ltb (a b : MessageType) : bool :=
  match a, b with
  | Slot i, Slot j => Nat.ltb i j
  | Slot _, Typeless => true
  | Typeless, _ => false
  end.

(** [struct Message].  Modelled from the spec: [Common::Timer] is declared
    in Common/Timer.h, which is not among the sources; the spec calls it a
    monotonic per-message stopwatch, "creation timestamp" compared against
    a clock read at render time.  [timer] holds the clock reading (ms, a
    [u64]) at which the constructor called [timer.Start()]. *)
Record Message : Type := mkMessage {
  text : string;
  timer : Z;
  duration : Z;        (* u32 *)
  ever_drawn : bool;
  color : Z            (* u32 *)
}.

(** [Message(text_, duration_, color_)], constructed at clock reading
    [now]. *)
Definition newMessage (now : Z) (text_ : string) (duration_ color_ : Z)
  : Message :=
  {| text := text_; timer := now; duration := duration_;
     ever_drawn := false; color := color_ |}.

(** [timer.ElapsedMs()] at clock reading [now]: an unsigned 64-bit count. *)
Definition ElapsedMs (now : Z) (msg : Message) : Z :=
  CInt.to_u64 (now - timer msg).

(** [s64 TimeRemaining() const { return duration - timer.ElapsedMs(); }]:
    the subtraction is carried out on [u64] and converted to [s64]. *)
Definition TimeRemaining (now : Z) (msg : Message) : Z :=
  CInt.to_s64 (CInt.to_u64 (duration msg - ElapsedMs now msg)).

(** [std::multimap<MessageType, Message> s_messages]: entries in key
    order, entries of one key in insertion order. *)
Definition Messages : Type := list (MessageType * Message).

(** [s_messages.erase(type)]: every entry of that key. *)
Definition erase (type : MessageType) (s : Messages) : Messages :=
  filter (fun kv => negb (MessageType_eqb (fst kv) type)) s.

(** [s_messages.emplace(type, msg)]: after the last entry whose key is not
    greater. *)
Fixpoint emplace (type : MessageType) (msg : Message) (s : Messages)
  : Messages :=
  match s with
  | [] => [(type, msg)]
  | kv :: rest =>
      if MessageType_ltb type (fst kv) then (type, msg) :: s
      else kv :: emplace type msg rest
  end.

Definition AddTypedMessage (now : Z) (type : MessageType) (message : string)
    (ms argb : Z) (s : Messages) : Messages :=
  emplace type (newMessage now message ms argb) (erase type s).

Definition AddMessage (now : Z) (message : string) (ms argb : Z)
    (s : Messages) : Messages :=
  emplace Typeless (newMessage now message ms argb) s.

Definition ClearMessages (s : Messages) : Messages := [].

(** What one call of [DrawMessage] hands to the UI library: the window
    [osd_<index>] with the message text in its colour, under the pushed
    style alpha.  The window position, which depends on the heights the UI
    library measures, is not part of this record. *)
Record DrawCall : Type := mkDrawCall {
  dc_index : Z;
  dc_text : string;
  dc_color : Z;
  dc_alpha : ieee
}.

(** [fade_time] of [DrawMessage]. *)
Definition fade_time (msg : Message) : ieee :=
  max (min MESSAGE_FADE_TIME (of_Z float (duration msg))) (of_Z float 1).

(** [alpha] of [DrawMessage]; [time_left] is its [int] parameter. *)
Definition alpha (msg : Message) (time_left : Z) : ieee :=
  clamp (div float (of_Z float time_left) (fade_time msg))
        (of_Z float 0) (of_Z float 1).

(** [DrawMessage(index, msg, position, time_left)]: the message with
    [ever_drawn] set, and the window drawn.  The pushed alpha is
    [msg.ever_drawn ? alpha : 1.0]. *)
Definition DrawMessage (index : Z) (msg : Message) (time_left : Z)
  : Message * DrawCall :=
  ({| text := text msg; timer := timer msg; duration := duration msg;
      ever_drawn := true; color := color msg |},
   {| dc_index := index; dc_text := text msg; dc_color := color msg;
      dc_alpha := if ever_drawn msg then alpha msg time_left
                  else of_Z float 1 |}).

(** The removal test of [DrawMessages]:
    [time_left <= 0 && (msg.ever_drawn || -time_left >= MESSAGE_DROP_TIME)],
    where [-time_left] is an [s64] converted to [float]. *)
Definition expired (now : Z) (msg : Message) : bool :=
  let time_left := TimeRemaining now msg in
  (time_left <=? 0) &&
  (ever_drawn msg ||
   geb (of_Z float (CInt.neg64 time_left)) MESSAGE_DROP_TIME).

(** The loop of [DrawMessages] from position [it] on, [index] windows
    having been drawn; the [s64] [time_left] is narrowed to the [int]
    parameter of [DrawMessage]. *)
Fixpoint DrawMessages_from (draw_messages : bool) (now index : Z)
    (it : Messages) : Messages * list DrawCall :=
  match it with
  | [] => ([], [])
  | (type, msg) :: rest =>
      if expired now msg
      then DrawMessages_from draw_messages now index rest
      else if draw_messages then
        let '(msg', call) :=
          DrawMessage index msg (CInt.to_int (TimeRemaining now msg)) in
        let '(s', calls) :=
          DrawMessages_from draw_messages now (CInt.add index 1) rest in
        ((type, msg') :: s', call :: calls)
      else
        let '(s', calls) :=
          DrawMessages_from draw_messages now index rest in
        ((type, msg) :: s', calls)
  end.

(** [DrawMessages()], with [draw_messages] the value of the
    [MAIN_OSD_MESSAGES] setting and [now] the clock reading of the pass. *)
Definition DrawMessages (draw_messages : bool) (now : Z) (s : Messages)
  : Messages * list DrawCall :=
  DrawMessages_from draw_messages now 0 s.

(** Calls of the public interface, each at a clock reading. *)
Inductive Call : Type :=
| CallAddMessage (message : string) (ms argb : Z)
| CallAddTypedMessage (type : MessageType) (message : string) (ms argb : Z)
| CallDrawMessages (draw_messages : bool)
| CallClearMessages.

Definition step (now : Z) (c : Call) (s : Messages)
  : Messages * list DrawCall :=
  match c with
  | CallAddMessage message ms argb => (AddMessage now message ms argb s, [])
  | CallAddTypedMessage type message ms argb =>
      (AddTypedMessage now type message ms argb s, [])
  | CallDrawMessages draw_messages => DrawMessages draw_messages now s
  | CallClearMessages => (ClearMessages s, [])
  end.

(** A sequence of calls; the windows drawn are accumulated in order. *)
Fixpoint run (calls : list (Z * Call)) (s : Messages)
  : Messages * list DrawCall :=
  match calls with
  | [] => (s, [])
  | (now, c) :: rest =>
      let '(s1, drawn1) := step now c s in
      let '(s2, drawn2) := run rest s1 in
      (s2, drawn1 ++ drawn2)
  end.

(** Number of live messages of a category. *)
Definition count_type (type : MessageType) (s : Messages) : nat :=
  List.length (filter (fun kv => MessageType_eqb (fst kv) type) s).

(** The messages of a category, in order. *)
Definition messages_of (type : MessageType) (s : Messages) : list Message :=
  map snd (filter (fun kv => MessageType_eqb (fst kv) type) s).

(** The calls of a sequence that draw with the setting enabled. *)
Definition draws_enabled (c : Z * Call) : bool :=
  match snd c with
  | CallDrawMessages true => true
  | _ => false
  end.


(** *** Vocabulary of the properties *)

(** A message whose [duration] is a [u32] and whose stopwatch reads less
    than [2^63] ms: its [TimeRemaining] is [duration - elapsed] without
    wrap-around. *)
Definition well_timed (now : Z) (msg : Message) : Prop :=
  CInt.is_u32 (duration msg) /\ ElapsedMs now msg < 2 ^ 63.

(** The removal rule in the words of the specification: the remaining time
    [duration_ms - elapsed_ms] is [<= 0], and the message has been drawn or
    the time past expiry is [>= 5000] ms. *)
Definition removal_due (now : Z) (msg : Message) : bool :=
  let time_left := duration msg - ElapsedMs now msg in
  (time_left <=? 0) && (ever_drawn msg || (5000 <=? - time_left)).

(** A surviving message as a pass leaves it: drawn when the setting is
    enabled, untouched otherwise. *)
Definition after_pass (draw_messages : bool) (kv : MessageType * Message)
  : MessageType * Message :=
  if draw_messages
  then (fst kv, {| text := text (snd kv); timer := timer (snd kv);
                   duration := duration (snd kv); ever_drawn := true;
                   color := color (snd kv) |})
  else kv.

(** The fade window in the words of the specification:
    [max(min(1000 ms, duration_ms), 1 ms)]. *)
Definition fade_window (duration_ms : Z) : Z :=
  Z.max (Z.min 1000 duration_ms) 1.

(** [clamp(time_left / fade_window, 0, 1)] as a [float]: the exact quotient,
    clamped, then rounded. *)
Definition faded_alpha (duration_ms time_left : Z) : ieee :=
  if time_left <=? 0 then of_Z float 0
  else if fade_window duration_ms <=? time_left then of_Z float 1
  else of_ratio float time_left (fade_window duration_ms).

(** *** Message colours *)

(** [ImVec4] of the UI library: four [float] components. *)
Module ImVec4.
Record t : Type := Build { x : ieee; y : ieee; z : ieee; w : ieee }.
End ImVec4.

(** [static_cast<float>((argb >> shift) & 0xFF) / 255.0f] *)
Definition channel (argb shift : Z) : ieee :=
  div float (of_Z float (Z.land (Z.shiftr argb shift) 255)) (of_Z float 255).

(** [ARGBToImVec4(argb)]: red, green, blue, alpha. *)
Definition ARGBToImVec4 (argb : Z) : ImVec4.t :=
  {| ImVec4.x := channel argb 16;
     ImVec4.y := channel argb 8;
     ImVec4.z := channel argb 0;
     ImVec4.w := channel argb 24 |}.

(** The byte of a colour at bit [shift]. *)
Definition byte_at (argb shift : Z) : Z := (argb / 2 ^ shift) mod 256.

(** A finite [float] between 0 and 1. *)
Definition unit_interval (v : ieee) : Prop :=
  exists n, v = Fin n /\ 0 <= n <= 2 ^ 149.

(** The bytes 0 .. 255. *)
Definition bytes : list Z := map Z.of_nat (seq 0 256).

(** The [float] a colour byte [b] becomes is finite, between 0 and 1, and
    255 times it differs from [b] by at most [2^-10]. *)
Definition channel_close (b : Z) : bool :=
  match div float (of_Z float b) (of_Z float 255) with
  | Fin n => (Z.abs (255 * n - b * 2 ^ 149) <=? 2 ^ 139) &&
             (0 <=? n) && (n <=? 2 ^ 149)
  | _ => false
  end.

End OSD.

(* ================================================================= *)
(** ** Display geometry (Present.cpp) *)

Module Present.

Import IEEE.

Definition float : format := binary32.
Definition double : format := binary64.

(** A [float] literal with an integral value. *)
Definition lit (z : Z) : ieee := of_Z float z.

(** [MathUtil::Rectangle<int>]. *)
Record Rectangle : Type := mkRectangle {
  left : Z;
  top : Z;
  right : Z;
  bottom : Z
}.

(** Modelled from the spec: [AspectMode] and [StereoMode] are declared in
    VideoConfig.h, which is not among the sources.  The spec lists the
    aspect selector as stretch / analog-wide / auto and the stereo mode as
    none / side-by-side / top-and-bottom / quad-buffer.  The code
    distinguishes no other aspect mode: any further one behaves as [Auto]
    does for content that is not widescreen. *)
Inductive AspectMode : Type := Auto | AnalogWide | Stretch.
Inductive StereoMode : Type := Off | SBS | TAB | QuadBuffer.

(** The settings of [g_ActiveConfig] read here, and the two queries made
    to collaborators: [VideoInterface::GetAspectRatio()] and
    [g_renderer->IsGameWidescreen()]. *)
Record Context : Type := mkContext {
  aspect_mode : AspectMode;
  bCrop : bool;
  stereo_mode : StereoMode;
  bWidescreenHack : bool;
  GetAspectRatio : ieee;
  IsGameWidescreen : bool
}.

(** The members of [Presenter] the layout code reads and writes. *)
Record Presenter : Type := mkPresenter {
  m_backbuffer_width : Z;
  m_backbuffer_height : Z;
  m_target_rectangle : Rectangle
}.

Definition is_AnalogWide (m : AspectMode) : bool :=
  match m with AnalogWide => true | _ => false end.
Definition is_Auto (m : AspectMode) : bool :=
  match m with Auto => true | _ => false end.
Definition is_Stretch (m : AspectMode) : bool :=
  match m with Stretch => true | _ => false end.
Definition is_TAB (m : StereoMode) : bool :=
  match m with TAB => true | _ => false end.

(** [aspect_mode == AnalogWide || (aspect_mode == Auto && IsGameWidescreen())] *)
Definition wide (c : Context) : bool :=
  is_AnalogWide (aspect_mode c) ||
  (is_Auto (aspect_mode c) && IsGameWidescreen c).

(** [aspect * ((16.0f / 9.0f) / (4.0f / 3.0f))] *)
Definition AspectToWidescreen (aspect : ieee) : ieee :=
  mul float aspect
      (div float (div float (lit 16) (lit 9)) (div float (lit 4) (lit 3))).

Definition CalculateDrawAspectRatio (c : Context) (p : Presenter) : ieee :=
  if is_Stretch (aspect_mode c)
  then div float (of_Z float (m_backbuffer_width p))
                 (of_Z float (m_backbuffer_height p))
  else if wide c then AspectToWidescreen (GetAspectRatio c)
  else GetAspectRatio c.

(** Crop to exactly 16:9 or 4:3 if enabled and not [Stretch]. *)
Definition ApplyStandardAspectCrop (c : Context) (width height : ieee)
  : ieee * ieee :=
  if negb (bCrop c) || is_Stretch (aspect_mode c) then (width, height)
  else
    let current_aspect := div float width height in
    let expected_aspect :=
      if wide c then div float (lit 16) (lit 9)
      else div float (lit 4) (lit 3) in
    if ltb expected_aspect current_aspect
    then (mul float height expected_aspect, height)
    else (width, div float width expected_aspect).

(** The widescreen-hack factors [fAspectRatioHackW], [fAspectRatioHackH]
    that [UpdateDrawRectangle] stores in [g_Config] (with a renderer
    present, so that [g_renderer && g_renderer->IsGameWidescreen()] is the
    query itself). *)
Definition AspectRatioHack (c : Context) (p : Presenter) : ieee * ieee :=
  if bWidescreenHack c then
    let source_aspect :=
      if IsGameWidescreen c then AspectToWidescreen (GetAspectRatio c)
      else GetAspectRatio c in
    let adjust := div float source_aspect (CalculateDrawAspectRatio c p) in
    if ltb (lit 1) adjust then (lit 1, div float (lit 1) adjust)
    else (adjust, lit 1)
  else (lit 1, lit 1).

(** The value [UpdateDrawRectangle] passes to
    [SetAspectRatioAdjustment]. *)
Definition AspectRatioAdjustment (c : Context) (p : Presenter) : ieee :=
  div float (CalculateDrawAspectRatio c p)
      (div float (of_Z float (m_backbuffer_width p))
                 (of_Z float (m_backbuffer_height p))).

(** [draw_width], [draw_height] of [UpdateDrawRectangle] once the picture
    has been scaled to fit the rendering window, before they are made
    divisible by four. *)
Definition ScaledDrawSize (c : Context) (p : Presenter) : ieee * ieee :=
  let draw_aspect_ratio := CalculateDrawAspectRatio c p in
  let win_width := of_Z float (m_backbuffer_width p) in
  let win_height := of_Z float (m_backbuffer_height p) in
  let draw_width := draw_aspect_ratio in
  let draw_height := lit 1 in
  let '(crop_width, crop_height) :=
    ApplyStandardAspectCrop c draw_width draw_height in
  if geb (div float win_width win_height) (div float crop_width crop_height)
  then (* the window is flatter than the picture *)
    (mul float draw_width (div float win_height crop_height),
     mul float draw_height (div float win_height crop_height))
  else (* the window is skinnier than the picture *)
    (mul float draw_width (div float win_width crop_width),
     mul float draw_height (div float win_width crop_width)).

(** [x = std::ceil(x) - static_cast<int>(std::ceil(x)) % 4] *)
Definition DivisibleByFour (x : ieee) : option ieee :=
  match to_int float (ceil float x) with
  | Some i => Some (sub float (ceil float x) (of_Z float (CInt.rem4 i)))
  | None => None
  end.

(** [static_cast<int>(std::round(win / 2.0 - draw / 2.0))], computed in
    [double]. *)
Definition Centered (win draw : ieee) : option Z :=
  let two := of_Z double 2 in
  to_int double
    (round double
       (sub double (div double (convert float double win) two)
                   (div double (convert float double draw) two))).

(** The target rectangle [UpdateDrawRectangle] computes. *)
Definition TargetRectangle (c : Context) (p : Presenter) : option Rectangle :=
  let '(draw_width, draw_height) := ScaledDrawSize c p in
  let win_width := of_Z float (m_backbuffer_width p) in
  let win_height := of_Z float (m_backbuffer_height p) in
  match DivisibleByFour draw_width, DivisibleByFour draw_height with
  | Some draw_width, Some draw_height =>
      match Centered win_width draw_width, Centered win_height draw_height,
            to_int float draw_width, to_int float draw_height with
      | Some l, Some t, Some w, Some h =>
          Some {| left := l; top := t;
                  right := CInt.add l w; bottom := CInt.add t h |}
      | _, _, _, _ => None
      end
  | _, _ => None
  end.

(** [Presenter::UpdateDrawRectangle()]: the presenter with its target
    rectangle recomputed.  The widescreen-hack factors and the aspect-ratio
    adjustment the function also publishes are [AspectRatioHack] and
    [AspectRatioAdjustment] above; they do not feed the rectangle. *)
Definition UpdateDrawRectangle (c : Context) (p : Presenter)
  : option Presenter :=
  match TargetRectangle c p with
  | Some rc =>
      Some {| m_backbuffer_width := m_backbuffer_width p;
              m_backbuffer_height := m_backbuffer_height p;
              m_target_rectangle := rc |}
  | None => None
  end.

(** [SetBackbuffer(backbuffer_width, backbuffer_height)] *)
Definition SetBackbuffer (c : Context) (p : Presenter)
    (backbuffer_width backbuffer_height : Z) : option Presenter :=
  UpdateDrawRectangle c
    {| m_backbuffer_width := backbuffer_width;
       m_backbuffer_height := backbuffer_height;
       m_target_rectangle := m_target_rectangle p |}.

(** Scale either the width or the height depending on the content aspect
    ratio. *)
Definition ScaleToDisplayAspectRatio (c : Context) (p : Presenter)
    (width height : Z) : ieee * ieee :=
  let scaled_width := of_Z float width in
  let scaled_height := of_Z float height in
  let draw_aspect := CalculateDrawAspectRatio c p in
  if geb (div float scaled_width scaled_height) draw_aspect
  then (scaled_width, div float scaled_width draw_aspect)
  else (mul float scaled_height draw_aspect, scaled_height).

(** [Presenter::CalculateOutputDimensions(width, height) const] *)
Definition CalculateOutputDimensions (c : Context) (p : Presenter)
    (width height : Z) : option (Z * Z) :=
  let width := Z.max width 1 in
  let height := Z.max height 1 in
  let '(scaled_width, scaled_height) :=
    ScaleToDisplayAspectRatio c p width height in
  let '(scaled_width, scaled_height) :=
    ApplyStandardAspectCrop c scaled_width scaled_height in
  match to_int float (ceil float scaled_width),
        to_int float (ceil float scaled_height) with
  | Some width, Some height =>
      Some (CInt.sub width (CInt.rem4 width),
            CInt.sub height (CInt.rem4 height))
  | _, _ => None
  end.

(** [Presenter::ConvertStereoRectangle(rc) const]: the left and the right
    eye's rectangle. *)
Definition ConvertStereoRectangle (c : Context) (p : Presenter)
    (rc : Rectangle) : Rectangle * Rectangle :=
  (* Resize target to half its original size *)
  let draw_rc :=
    if is_TAB (stereo_mode c) then
      let height := CInt.sub (bottom rc) (top rc) in
      {| left := left rc;
         top := CInt.add (top rc) (CInt.div4 height);
         right := right rc;
         bottom := CInt.sub (bottom rc) (CInt.div4 height) |}
    else
      let width := CInt.sub (right rc) (left rc) in
      {| left := CInt.add (left rc) (CInt.div4 width);
         top := top rc;
         right := CInt.sub (right rc) (CInt.div4 width);
         bottom := bottom rc |} in
  (* Create two target rectangles offset to the sides of the backbuffer *)
  if is_TAB (stereo_mode c) then
    let q := CInt.div4 (m_backbuffer_height p) in
    ({| left := left draw_rc; top := CInt.sub (top draw_rc) q;
        right := right draw_rc; bottom := CInt.sub (bottom draw_rc) q |},
     {| left := left draw_rc; top := CInt.add (top draw_rc) q;
        right := right draw_rc; bottom := CInt.add (bottom draw_rc) q |})
  else
    let q := CInt.div4 (m_backbuffer_width p) in
    ({| left := CInt.sub (left draw_rc) q; top := top draw_rc;
        right := CInt.sub (right draw_rc) q; bottom := bottom draw_rc |},
     {| left := CInt.add (left draw_rc) q; top := top draw_rc;
        right := CInt.add (right draw_rc) q; bottom := bottom draw_rc |}).

(** Modelled from the spec: [MathUtil::Rectangle] is declared in
    Common/MathUtil.h, which is not among the sources.  The spec calls
    [GetWidth()] and [GetHeight()] the extents of a rectangle; they are the
    distances between its opposite sides. *)
Definition Rectangle_GetWidth (rc : Rectangle) : Z :=
  Z.abs (CInt.sub (right rc) (left rc)).
Definition Rectangle_GetHeight (rc : Rectangle) : Z :=
  Z.abs (CInt.sub (bottom rc) (top rc)).

Section AdjustRectangles.

(** [Rectangle::GetWidth], [Rectangle::GetHeight]. *)
Variables GetWidth GetHeight : Rectangle -> Z.

Local Notation "x <- e ;; k" := (CInt.bind e (fun x => k))
  (at level 61, e at next level, right associativity).

(** [offset * orig_source_extent / orig_target_extent] on [int]: undefined
    when the product overflows or the divisor is zero. *)
Definition scaled_offset (offset orig_source orig_target : Z) : option Z :=
  product <- CInt.checked_mul offset orig_source ;;
  CInt.div product orig_target.

Definition AdjustRectanglesToFitBounds (target_rect source_rect : Rectangle)
    (fb_width fb_height : Z) : option (Rectangle * Rectangle) :=
  let orig_target_width := GetWidth target_rect in
  let orig_target_height := GetHeight target_rect in
  let orig_source_width := GetWidth source_rect in
  let orig_source_height := GetHeight source_rect in
  match
    (if left target_rect <? 0 then
       offset <- CInt.checked_neg (left target_rect) ;;
       d <- scaled_offset offset orig_source_width orig_target_width ;;
       source_left <- CInt.checked_add (left source_rect) d ;;
       Some ({| left := 0; top := top target_rect;
                right := right target_rect;
                bottom := bottom target_rect |},
             {| left := source_left;
                top := top source_rect; right := right source_rect;
                bottom := bottom source_rect |})
     else Some (target_rect, source_rect))
  with
  | None => None
  | Some (target_rect, source_rect) =>
  match
    (if fb_width <? right target_rect then
       offset <- CInt.checked_sub (right target_rect) fb_width ;;
       target_right <- CInt.checked_sub (right target_rect) offset ;;
       d <- scaled_offset offset orig_source_width orig_target_width ;;
       source_right <- CInt.checked_sub (right source_rect) d ;;
       Some ({| left := left target_rect; top := top target_rect;
                right := target_right;
                bottom := bottom target_rect |},
             {| left := left source_rect; top := top source_rect;
                right := source_right;
                bottom := bottom source_rect |})
     else Some (target_rect, source_rect))
  with
  | None => None
  | Some (target_rect, source_rect) =>
  match
    (if top target_rect <? 0 then
       offset <- CInt.checked_neg (top target_rect) ;;
       d <- scaled_offset offset orig_source_height orig_target_height ;;
       source_top <- CInt.checked_add (top source_rect) d ;;
       Some ({| left := left target_rect; top := 0;
                right := right target_rect;
                bottom := bottom target_rect |},
             {| left := left source_rect;
                top := source_top;
                right := right source_rect;
                bottom := bottom source_rect |})
     else Some (target_rect, source_rect))
  with
  | None => None
  | Some (target_rect, source_rect) =>
    if fb_height <? bottom target_rect then
      offset <- CInt.checked_sub (bottom target_rect) fb_height ;;
      target_bottom <- CInt.checked_sub (bottom target_rect) offset ;;
      d <- scaled_offset offset orig_source_height orig_target_height ;;
      source_bottom <- CInt.checked_sub (bottom source_rect) d ;;
      Some ({| left := left target_rect; top := top target_rect;
               right := right target_rect;
               bottom := target_bottom |},
            {| left := left source_rect; top := top source_rect;
               right := right source_rect;
               bottom := source_bottom |})
    else Some (target_rect, source_rect)
  end end end.

End AdjustRectangles.

(** *** Vocabulary of the properties *)

(** One low side (left or top) in the words of the specification: when the
    target side [t] is below 0 it is clamped to 0 and the source side [s]
    moves up by [offset * orig_source / orig_target], [offset = -t], a
    quotient of integers (truncated, as in [10 * 110 / 110 = 10]); there is
    no such quotient for a zero target extent. *)
Definition clamp_low (t s orig_source orig_target : Z) : option (Z * Z) :=
  if t <? 0 then
    if orig_target =? 0 then None
    else Some (0, s + Z.quot (- t * orig_source) orig_target)
  else Some (t, s).

(** One high side (right or bottom): when the target side [t] is above
    [bound] it is clamped to [bound] and the source side [s] moves down by
    [offset * orig_source / orig_target], [offset = t - bound]. *)
Definition clamp_high (bound t s orig_source orig_target : Z)
  : option (Z * Z) :=
  if bound <? t then
    if orig_target =? 0 then None
    else Some (bound, s - Z.quot ((t - bound) * orig_source) orig_target)
  else Some (t, s).

(** Coordinates of at most [2^14] in size: an offset between two of them
    times an extent of at most [2^15] is an [int]. *)
Definition modest (z : Z) : Prop := - 2 ^ 14 <= z <= 2 ^ 14.

Definition modest_rectangle (rc : Rectangle) : Prop :=
  modest (left rc) /\ modest (top rc) /\
  modest (right rc) /\ modest (bottom rc).

(** A rectangle that is not flipped, whose extents are the distances
    between its sides. *)
Definition upright (GetWidth GetHeight : Rectangle -> Z) (rc : Rectangle)
  : Prop :=
  left rc <= right rc /\ top rc <= bottom rc /\
  GetWidth rc = right rc - left rc /\ GetHeight rc = bottom rc - top rc.

(** The rectangle overlaps or touches [[0, fb_width] x [0, fb_height]]. *)
Definition overlaps (fb_width fb_height : Z) (rc : Rectangle) : Prop :=
  0 <= fb_width /\ left rc <= fb_width /\ 0 <= right rc /\
  0 <= fb_height /\ top rc <= fb_height /\ 0 <= bottom rc.

(** Coordinates far from the ends of [int]: sums and differences of a few
    of them do not wrap. *)
Definition small (z : Z) : Prop := - 2 ^ 28 <= z <= 2 ^ 28.

(** The two sides [lo], [hi] of a rectangle on the split axis, each moved
    inward by a quarter of the extent, then both shifted by [shift]. *)
Definition quarter_inset (lo hi shift : Z) : Z * Z :=
  (lo + Z.quot (hi - lo) 4 + shift, hi - Z.quot (hi - lo) 4 + shift).

(** The integer next above the [float] of [n] units of [2^-149]. *)
Definition ceiling (n : Z) : Z := - (- n / 2 ^ 149).

(** [k] made divisible by four, toward zero. *)
Definition by_four (k : Z) : Z := 4 * Z.quot k 4.

(** Half of [d], halfway cases away from zero. *)
Definition half_away (d : Z) : Z := Z.sgn d * ((Z.abs d + 1) / 2).

(** A draw size of [n] units as [UpdateDrawRectangle] finally uses it:
    raised to an integer, then made divisible by four. *)
Definition final_size (n : Z) : Z := by_four (ceiling n).

(** A worked layout: a 4:3 source shown as 16:9 ([AnalogWide]), no crop, in
    a backbuffer of 1000 x 400. *)
Definition wide_picture : Context :=
  {| aspect_mode := AnalogWide; bCrop := false; stereo_mode := Off;
     bWidescreenHack := false;
     GetAspectRatio := div float (lit 4) (lit 3);
     IsGameWidescreen := false |}.

Definition backbuffer_1000x400 : Presenter :=
  {| m_backbuffer_width := 1000; m_backbuffer_height := 400;
     m_target_rectangle :=
       {| left := 0; top := 0; right := 0; bottom := 0 |} |}.

(** Its draw width and height before rounding, in units of [2^-149]:
    711.111... and 400. *)
Definition wide_picture_draw_width : Z :=
  Eval vm_compute in
    num (fst (ScaledDrawSize wide_picture backbuffer_1000x400)).

Definition wide_picture_draw_height : Z :=
  Eval vm_compute in
    num (snd (ScaledDrawSize wide_picture backbuffer_1000x400)).

(** *** Presenting a frame *)

(** [g_gfx->IsHeadless()] and the two fields of
    [g_ActiveConfig.backend_info] read here. *)
Record Backend : Type := mkBackend {
  IsHeadless : bool;
  bSupportsPostProcessing : bool;
  bUsesExplictQuadBuffering : bool
}.

(** The two further settings of [g_ActiveConfig] read by [SubmitXFB], and
    the query [g_frame_dumper->IsFrameDumping()]. *)
Record Dumping : Type := mkDumping {
  bSkipPresentingDuplicateXFBs : bool;
  bInternalResolutionFrameDumps : bool;
  IsFrameDumping : bool
}.

(** The calls the presenter makes on the graphics backend ([g_gfx]), the
    post-processor, the on-screen UI, the vertex manager, the frame dumper
    and the host, in the order made.  The source texture, which every call
    passes on unchanged, is left out. *)
Inductive Command : Type :=
| Flush
| Finalize
| DrawImGui
| BeginImGuiFrame (width height : Z)
| BeginUtilityDrawing
| EndUtilityDrawing
| BindBackbuffer
| PresentBackbuffer
| ShowImage (source_rc : Rectangle)
| SelectLeftBuffer
| SelectRightBuffer
| SelectMainBuffer
| BlitFromTexture (target_rc source_rc : Rectangle) (layer : Z)
| Host_RequestRenderWindowSize (width height : Z)
| DumpCurrentFrame (xfb_rect target_rect : Rectangle) (ticks frame_count : Z).

Definition is_SBS (m : StereoMode) : bool :=
  match m with SBS => true | _ => false end.
Definition is_QuadBuffer (m : StereoMode) : bool :=
  match m with QuadBuffer => true | _ => false end.

(** [Presenter::RenderXFBToScreen(target_rc, source_texture, source_rc)] *)
Definition RenderXFBToScreen (c : Context) (b : Backend) (p : Presenter)
    (target_rc source_rc : Rectangle) : list Command :=
  if negb (bSupportsPostProcessing b) then [ShowImage source_rc]
  else if is_QuadBuffer (stereo_mode c) && bUsesExplictQuadBuffering b then
    [SelectLeftBuffer; BlitFromTexture target_rc source_rc 0;
     SelectRightBuffer; BlitFromTexture target_rc source_rc 1;
     SelectMainBuffer]
  else if is_SBS (stereo_mode c) || is_TAB (stereo_mode c) then
    let '(left_rc, right_rc) := ConvertStereoRectangle c p target_rc in
    [BlitFromTexture left_rc source_rc 0;
     BlitFromTexture right_rc source_rc 1]
  else [BlitFromTexture target_rc source_rc 0].

(** [Presenter::SetWindowSize(width, height)], with [last_width],
    [last_height] the members [m_last_window_request_width] and
    [m_last_window_request_height]: their new values and the request sent
    to the host, if one is.  [g_presenter] is this presenter. *)
Definition SetWindowSize (c : Context) (p : Presenter)
    (last_width last_height width height : Z)
  : option (Z * Z * list Command) :=
  match CalculateOutputDimensions c p width height with
  | Some (out_width, out_height) =>
      if (out_width =? last_width) && (out_height =? last_height)
      then Some (last_width, last_height, [])
      else Some (out_width, out_height,
                 [Host_RequestRenderWindowSize out_width out_height])
  | None => None
  end.

(** The presenter with the members [SubmitXFB] and [Present] read and
    write; [m_xfb_entry] is the id of the XFB entry held. *)
Record Frames : Type := mkFrames {
  presenter : Presenter;
  m_xfb_entry : Z;                       (* u64 id *)
  m_xfb_rect : Rectangle;
  m_last_xfb_id : Z;                     (* u64 *)
  m_last_window_request_width : Z;
  m_last_window_request_height : Z
}.

(** [Presenter::BeginUIFrame()] *)
Definition BeginUIFrame (b : Backend) : list Command :=
  if IsHeadless b then []
  else [BeginUtilityDrawing; BindBackbuffer].

(** [Presenter::EndUIFrame()] *)
Definition EndUIFrame (b : Backend) (p : Presenter) : list Command :=
  [Finalize] ++
  (if IsHeadless b
   then [DrawImGui; PresentBackbuffer; EndUtilityDrawing]
   else []) ++
  [BeginImGuiFrame (m_backbuffer_width p) (m_backbuffer_height p)].

Section Presenting.

(** [Rectangle::GetWidth], [Rectangle::GetHeight]. *)
Variables GetWidth GetHeight : Rectangle -> Z.

(** [Presenter::Present()] *)
Definition Present (c : Context) (b : Backend) (fr : Frames)
  : option (Frames * list Command) :=
  let p := presenter fr in
  let last_xfb_id := m_xfb_entry fr in
  let opening := [Flush; Finalize; BeginUtilityDrawing] in
  let closing :=
    [BeginImGuiFrame (m_backbuffer_width p) (m_backbuffer_height p);
     EndUtilityDrawing] in
  if negb (IsHeadless b) then
    match UpdateDrawRectangle c p with
    | None => None
    | Some p =>
        match AdjustRectanglesToFitBounds GetWidth GetHeight
                (m_target_rectangle p) (m_xfb_rect fr)
                (m_backbuffer_width p) (m_backbuffer_height p) with
        | None => None
        | Some (render_target_rc, render_source_rc) =>
            match SetWindowSize c p (m_last_window_request_width fr)
                    (m_last_window_request_height fr)
                    (GetWidth (m_xfb_rect fr)) (GetHeight (m_xfb_rect fr))
            with
            | None => None
            | Some (request_width, request_height, request) =>
                Some ({| presenter := p;
                         m_xfb_entry := m_xfb_entry fr;
                         m_xfb_rect := m_xfb_rect fr;
                         m_last_xfb_id := last_xfb_id;
                         m_last_window_request_width := request_width;
                         m_last_window_request_height := request_height |},
                      opening ++ [BindBackbuffer] ++
                      RenderXFBToScreen c b p render_target_rc
                        render_source_rc ++
                      [DrawImGui; PresentBackbuffer] ++ request ++ closing)
            end
        end
    end
  else
    Some ({| presenter := p;
             m_xfb_entry := m_xfb_entry fr;
             m_xfb_rect := m_xfb_rect fr;
             m_last_xfb_id := last_xfb_id;
             m_last_window_request_width := m_last_window_request_width fr;
             m_last_window_request_height :=
               m_last_window_request_height fr |},
          opening ++ closing).

(** The frame-dump call of [SubmitXFB], made after [Present]. *)
Definition DumpFrame (c : Context) (b : Backend) (d : Dumping) (fr : Frames)
    (ticks frame_count : Z) : option (list Command) :=
  if IsFrameDumping d then
    if negb (bInternalResolutionFrameDumps d) && negb (IsHeadless b) then
      Some [DumpCurrentFrame (m_xfb_rect fr)
              (m_target_rectangle (presenter fr)) ticks frame_count]
    else
      match CalculateOutputDimensions c (presenter fr)
              (GetWidth (m_xfb_rect fr)) (GetHeight (m_xfb_rect fr)) with
      | Some (width, height) =>
          Some [DumpCurrentFrame (m_xfb_rect fr)
                  {| left := 0; top := 0; right := width; bottom := height |}
                  ticks frame_count]
      | None => None
      end
  else Some [].

(** [Presenter::SubmitXFB(xfb_entry, xfb_rect, ticks, frame_count)]; the
    entry is given by its id. *)
Definition SubmitXFB (c : Context) (b : Backend) (d : Dumping) (fr : Frames)
    (xfb_entry : Z) (xfb_rect : Rectangle) (ticks frame_count : Z)
  : option (Frames * list Command * bool) :=
  let fr :=
    {| presenter := presenter fr;
       m_xfb_entry := xfb_entry;
       m_xfb_rect := xfb_rect;
       m_last_xfb_id := m_last_xfb_id fr;
       m_last_window_request_width := m_last_window_request_width fr;
       m_last_window_request_height := m_last_window_request_height fr |} in
  let is_duplicate_frame := m_last_xfb_id fr =? m_xfb_entry fr in
  if negb is_duplicate_frame || negb (bSkipPresentingDuplicateXFBs d) then
    match Present c b fr with
    | None => None
    | Some (fr, presented) =>
        match DumpFrame c b d fr ticks frame_count with
        | None => None
        | Some dumped => Some (fr, presented ++ dumped, is_duplicate_frame)
        end
    end
  else Some (fr, [], is_duplicate_frame).

End Presenting.

(** *** Further vocabulary *)

(** A rectangle whose sides do not pass the bounds
    [[0, fb_width] x [0, fb_height]] on their own side. *)
Definition inside (fb_width fb_height : Z) (rc : Rectangle) : Prop :=
  0 <= left rc /\ right rc <= fb_width /\
  0 <= top rc /\ bottom rc <= fb_height.

(** The target rectangles of the blits among the commands, in order. *)
Fixpoint blit_targets (log : list Command) : list Rectangle :=
  match log with
  | [] => []
  | BlitFromTexture target_rc _ _ :: rest => target_rc :: blit_targets rest
  | _ :: rest => blit_targets rest
  end.

(** The commands that open or close utility drawing. *)
Definition is_bracket (cmd : Command) : bool :=
  match cmd with
  | BeginUtilityDrawing | EndUtilityDrawing => true
  | _ => false
  end.

Definition is_swap (cmd : Command) : bool :=
  match cmd with PresentBackbuffer => true | _ => false end.

(** The ratio [adjust] of the widescreen hack in [UpdateDrawRectangle]. *)
Definition hack_adjust (c : Context) (p : Presenter) : ieee :=
  div float
    (if IsGameWidescreen c then AspectToWidescreen (GetAspectRatio c)
     else GetAspectRatio c)
    (CalculateDrawAspectRatio c p).

(** A worked presentation: a backend with a window and post-processing,
    duplicate frames skipped, no frame dumping, and a presenter that has
    presented nothing yet. *)
Definition window_backend : Backend :=
  {| IsHeadless := false; bSupportsPostProcessing := true;
     bUsesExplictQuadBuffering := false |}.

Definition skip_duplicates : Dumping :=
  {| bSkipPresentingDuplicateXFBs := true;
     bInternalResolutionFrameDumps := false;
     IsFrameDumping := false |}.

Definition nothing_presented : Frames :=
  {| presenter := backbuffer_1000x400;
     m_xfb_entry := 0;
     m_xfb_rect := {| left := 0; top := 0; right := 0; bottom := 0 |};
     m_last_xfb_id := 0;
     m_last_window_request_width := 0;
     m_last_window_request_height := 0 |}.

Definition xfb_640x528 : Rectangle :=
  {| left := 0; top := 0; right := 640; bottom := 528 |}.

(** The presenter after XFB entry 7 of 640 x 528 has been presented under
    [wide_picture], and the calls made for it. *)
Definition frame_7_presented : Frames :=
  {| presenter :=
       {| m_backbuffer_width := 1000; m_backbuffer_height := 400;
          m_target_rectangle :=
            {| left := 144; top := 0; right := 856; bottom := 400 |} |};
     m_xfb_entry := 7;
     m_xfb_rect := xfb_640x528;
     m_last_xfb_id := 7;
     m_last_window_request_width := 936;
     m_last_window_request_height := 528 |}.

Definition frame_7_commands : list Command :=
  [Flush; Finalize; BeginUtilityDrawing; BindBackbuffer;
   BlitFromTexture {| left := 144; top := 0; right := 856; bottom := 400 |}
     xfb_640x528 0;
   DrawImGui; PresentBackbuffer; Host_RequestRenderWindowSize 936 528;
   BeginImGuiFrame 1000 400; EndUtilityDrawing].

(** The draw aspect ratio of [wide_picture], in units of [2^-149]: the
    [float] nearest to [4/3 * (16/9) / (4/3)], about 1.7778. *)
Definition wide_picture_aspect : Z :=
  Eval vm_compute in
    num (CalculateDrawAspectRatio wide_picture backbuffer_1000x400).

(** The same source stretched to the window. *)
Definition stretched_picture : Context :=
  {| aspect_mode := Stretch; bCrop := true; stereo_mode := Off;
     bWidescreenHack := false;
     GetAspectRatio := div float (lit 4) (lit 3);
     IsGameWidescreen := false |}.

(** The frame dumps among the commands: the XFB rectangle and the target
    rectangle of each, in order. *)
Fixpoint dumped_frames (log : list Command) : list (Rectangle * Rectangle) :=
  match log with
  | [] => []
  | DumpCurrentFrame xfb_rect target_rect _ _ :: rest =>
      (xfb_rect, target_rect) :: dumped_frames rest
  | _ :: rest => dumped_frames rest
  end.

(** The aspect ratio the standard-aspect crop forces: 16:9 for widescreen
    content, 4:3 otherwise. *)
Definition expected_aspect (c : Context) : ieee :=
  if wide c then div float (lit 16) (lit 9) else div float (lit 4) (lit 3).

(** [x] is the quotient [num / den] up to one [float] rounding: within one
    part in [2^24] of it. *)
Definition nearly (x num den : Z) : Prop :=
  2 ^ 24 * Z.abs (x * den - num) <= num.

(** Scaling a request [W] x [H] to the aspect ratio [a] by growing
    whichever axis is short, in the words of the specification; [a] and
    the scaled sides [sw], [sh] are in units of [2^-149].  Either the
    height is the short axis ([H * a <= W], up to the rounding of [W / H]):
    the width keeps the request and the height becomes [W / a], which
    raised to an integer is at least [H]; or the width is the short axis
    ([W < H * a]): the height keeps the request and the width becomes
    [H * a], which raised to an integer is at least [W]. *)
Definition grows_short_axis (a W H sw sh : Z) : Prop :=
  (sw = W * 2 ^ 149 /\
   2 ^ 24 * (a * H) <= (2 ^ 24 + 1) * (W * 2 ^ 149) /\
   nearly sh (W * 2 ^ 149 * 2 ^ 149) a /\
   H <= ceiling sh)
  \/
  (sh = H * 2 ^ 149 /\
   W * 2 ^ 149 < a * H /\
   nearly sw (H * a) 1 /\
   W <= ceiling sw).

(** The standard-aspect crop of a size [sw] x [sh] to the ratio [e], in
    the words of the specification: nothing when the crop does not apply;
    otherwise the axis that overshoots [e] is shrunk.  Either the width
    overshoots ([sh * e < sw]): the height is kept and the width is cut to
    [sh * e]; or it does not (up to the rounding of [sw / sh]): the width
    is kept and the height becomes [sw / e], which exceeds [sh] by no more
    than the two roundings. *)
Definition standard_crop (applies : bool) (e sw sh cw ch : Z) : Prop :=
  if applies then
    (e * sh < sw * 2 ^ 149 /\
     ch = sh /\ cw <= sw /\ nearly cw (sh * e) (2 ^ 149))
    \/
    ((2 ^ 24 - 1) * (sw * 2 ^ 149) <= 2 ^ 24 * (e * sh) /\
     cw = sw /\ nearly ch (sw * 2 ^ 149) e /\
     (2 ^ 24 - 1) * ch <= (2 ^ 24 + 1) * sh)
  else cw = sw /\ ch = sh.

End Present.

(* ================================================================= *)
(** ** Facts about machine integers *)

Module CIntFacts.

Import CInt.

Lemma wrap_signed_small (w z : Z) :
  0 < w -> - 2 ^ (w - 1) <= z < 2 ^ (w - 1) -> wrap_signed w z = z.
Proof.
  intros Hw Hz. unfold wrap_signed.
  assert (E : 2 ^ w = 2 * 2 ^ (w - 1)).
  { replace w with (Z.succ (w - 1)) at 1 by lia.
    rewrite Z.pow_succ_r by lia. reflexivity. }
  rewrite Z.mod_small by lia. lia.
Qed.

Lemma wrap_signed_mod (w z : Z) :
  0 < w -> wrap_signed w (z mod 2 ^ w) = wrap_signed w z.
Proof.
  intros Hw. unfold wrap_signed.
  rewrite Zplus_mod_idemp_l. reflexivity.
Qed.

Lemma to_int_id (z : Z) : is_int z -> to_int z = z.
Proof.
  unfold is_int, INT_MIN, INT_MAX, to_int. intros H.
  apply wrap_signed_small; simpl; lia.
Qed.

Lemma to_s64_id (z : Z) : - 2 ^ 63 <= z < 2 ^ 63 -> to_s64 z = z.
Proof.
  unfold to_s64. intros H. apply wrap_signed_small; simpl; lia.
Qed.

Lemma to_s64_to_u64 (z : Z) : to_s64 (to_u64 z) = to_s64 z.
Proof.
  unfold to_s64, to_u64, wrap_unsigned. apply wrap_signed_mod. lia.
Qed.

Lemma to_u64_range (z : Z) : is_u64 (to_u64 z).
Proof.
  unfold is_u64, to_u64, wrap_unsigned. apply Z.mod_pos_bound. lia.
Qed.

Lemma to_int_range (z : Z) : is_int (to_int z).
Proof.
  unfold is_int, INT_MIN, INT_MAX, to_int, wrap_signed.
  pose proof (Z.mod_pos_bound (z + 2 ^ (32 - 1)) (2 ^ 32) ltac:(lia)).
  simpl in *. lia.
Qed.

(** [x - x % 4] is the multiple of four next to [x] toward zero; it never
    leaves the range of [int]. *)
Lemma sub_rem4 (x : Z) :
  is_int x ->
  sub x (rem4 x) = 4 * Z.quot x 4 /\ is_int (4 * Z.quot x 4).
Proof.
  intros H. unfold sub, rem4.
  pose proof (Z.quot_rem' x 4) as E.
  assert (R : 4 * Z.quot x 4 = x - Z.rem x 4) by lia.
  assert (B : is_int (4 * Z.quot x 4)).
  { unfold is_int, INT_MIN, INT_MAX in *.
    destruct (Z_le_gt_dec 0 x) as [P | N].
    - pose proof (Z.rem_bound_pos x 4 P ltac:(lia)). lia.
    - pose proof (Z.rem_bound_abs x 4 ltac:(lia)).
      pose proof (Z.rem_sign_mul x 4 ltac:(lia)).
      assert (Z.rem x 4 <= 0) by nia.
      lia. }
  rewrite <- R. split; [apply to_int_id|]; exact B.
Qed.

Lemma checked_small (z : Z) : is_int z -> checked z = Some z.
Proof.
  unfold is_int, checked. intros [L H].
  apply Z.leb_le in L, H. rewrite L, H. reflexivity.
Qed.

Lemma checked_Some (z v : Z) : checked z = Some v -> v = z /\ is_int z.
Proof.
  unfold checked, is_int.
  destruct (Z.leb_spec INT_MIN z); [|discriminate].
  destruct (Z.leb_spec z INT_MAX); [|discriminate].
  cbn [andb]. intro E. injection E as <-. repeat split; assumption.
Qed.

Lemma bind_Some (A B : Type) (o : option A) (f : A -> option B) (r : B) :
  bind o f = Some r -> exists a, o = Some a /\ f a = Some r.
Proof.
  destruct o as [a|]; cbn [bind]; [|discriminate].
  intro E. exists a. split; [reflexivity|exact E].
Qed.

End CIntFacts.

(* ================================================================= *)
(** ** Facts about rounding *)

Module IEEEFacts.

Import IEEE.

Lemma rne_ge (a b N : Z) : 0 < b -> N * b <= a -> N <= rne a b.
Proof.
  intros Hb H. unfold rne.
  assert (Q : N <= a / b) by (apply Z.div_le_lower_bound; lia).
  destruct (2 * (a mod b) ?= b); [destruct (Z.even (a / b))| |]; lia.
Qed.

Lemma rne_le (a b N : Z) : 0 < b -> a <= N * b -> rne a b <= N.
Proof.
  intros Hb H. unfold rne.
  destruct (Z.eq_dec a (N * b)) as [E | NE].
  - subst a. rewrite Z.mod_mul, Z.div_mul by lia.
    assert (C : (2 * 0 ?= b) = Lt) by (apply Z.compare_lt_iff; lia).
    rewrite C. lia.
  - assert (Q : a / b < N) by (apply Z.div_lt_upper_bound; lia).
    destruct (2 * (a mod b) ?= b); [destruct (Z.even (a / b))| |]; lia.
Qed.

Section Anchors.

Variable f : format.
Hypothesis prec_pos : 1 <= prec f.

(** Rounding never crosses a number of the format: [m * 2^i] with
    [m < 2^prec] is one. *)
Lemma round_mag_ge (a b m i : Z) :
  0 < b -> 0 <= i -> 0 < m < 2 ^ prec f ->
  m * 2 ^ i * b <= a ->
  m * 2 ^ i <= round_mag f a b.
Proof.
  intros Hb Hi Hm H. unfold round_mag.
  set (L := Z.log2 (a / b)).
  set (j := Z.max 0 (L - (prec f - 1))).
  assert (Hj : 0 <= j) by (unfold j; lia).
  assert (P2j : 0 < 2 ^ j) by (apply Z.pow_pos_nonneg; lia).
  destruct (Z_le_gt_dec j i) as [Le | Gt].
  - assert (E : 2 ^ i = 2 ^ (i - j) * 2 ^ j).
    { rewrite <- Z.pow_add_r by lia. f_equal. lia. }
    assert (R : m * 2 ^ (i - j) <= rne a (b * 2 ^ j)).
    { apply rne_ge; [lia|]. rewrite E in H.
      replace (m * 2 ^ (i - j) * (b * 2 ^ j))
        with (m * (2 ^ (i - j) * 2 ^ j) * b) by ring.
      exact H. }
    rewrite E.
    replace (m * (2 ^ (i - j) * 2 ^ j)) with (m * 2 ^ (i - j) * 2 ^ j)
      by ring.
    apply Z.mul_le_mono_nonneg_r; lia.
  - assert (EL : L = j + (prec f - 1)) by (unfold j in *; lia).
    assert (Lpos : 0 < L) by lia.
    assert (Qpos : 0 < a / b).
    { destruct (Z_lt_le_dec 0 (a / b)) as [|Q0]; [assumption|].
      unfold L in Lpos. rewrite Z.log2_nonpos in Lpos by assumption. lia. }
    pose proof (Z.log2_spec (a / b) Qpos) as [Lo _]. fold L in Lo.
    assert (Lb : 2 ^ L * b <= a).
    { pose proof (Z.mul_div_le a b Hb).
      assert (2 ^ L * b <= a / b * b)
        by (apply Z.mul_le_mono_nonneg_r; lia).
      lia. }
    assert (E : 2 ^ L = 2 ^ (prec f - 1) * 2 ^ j).
    { rewrite <- Z.pow_add_r by lia. f_equal. lia. }
    assert (R : 2 ^ (prec f - 1) <= rne a (b * 2 ^ j)).
    { apply rne_ge; [lia|]. rewrite E in Lb.
      replace (2 ^ (prec f - 1) * (b * 2 ^ j))
        with (2 ^ (prec f - 1) * 2 ^ j * b) by ring.
      exact Lb. }
    assert (S1 : 2 ^ (prec f - 1) * 2 ^ j <= rne a (b * 2 ^ j) * 2 ^ j)
      by (apply Z.mul_le_mono_nonneg_r; lia).
    assert (S2 : 2 ^ prec f * 2 ^ i <= 2 ^ (prec f - 1) * 2 ^ j).
    { rewrite <- !Z.pow_add_r by lia.
      apply Z.pow_le_mono_r; lia. }
    assert (S3 : m * 2 ^ i <= 2 ^ prec f * 2 ^ i).
    { apply Z.mul_le_mono_nonneg_r; [apply Z.pow_nonneg|]; lia. }
    lia.
Qed.

Lemma round_mag_le (a b m i : Z) :
  0 < b -> 0 <= i -> 0 <= m < 2 ^ prec f ->
  0 <= a <= m * 2 ^ i * b ->
  round_mag f a b <= m * 2 ^ i.
Proof.
  intros Hb Hi Hm H. unfold round_mag.
  set (L := Z.log2 (a / b)).
  set (j := Z.max 0 (L - (prec f - 1))).
  assert (Hj : 0 <= j) by (unfold j; lia).
  assert (P2j : 0 < 2 ^ j) by (apply Z.pow_pos_nonneg; lia).
  assert (P2i : 0 < 2 ^ i) by (apply Z.pow_pos_nonneg; lia).
  assert (Q : a / b <= m * 2 ^ i).
  { apply Z.div_le_upper_bound; [lia|].
    replace (b * (m * 2 ^ i)) with (m * 2 ^ i * b) by ring. lia. }
  assert (Le : j <= i).
  { destruct (Z_lt_le_dec 0 (a / b)) as [Qpos | Q0].
    - pose proof (Z.log2_spec (a / b) Qpos) as [Lo _]. fold L in Lo.
      assert (U : 2 ^ L < 2 ^ (prec f + i)).
      { rewrite Z.pow_add_r by lia.
        assert (m * 2 ^ i < 2 ^ prec f * 2 ^ i)
          by (apply Z.mul_lt_mono_pos_r; lia).
        lia. }
      apply Z.pow_lt_mono_r_iff in U; [|lia|lia].
      unfold j. lia.
    - unfold j, L. rewrite Z.log2_nonpos by assumption. lia. }
  assert (E : 2 ^ i = 2 ^ (i - j) * 2 ^ j).
  { rewrite <- Z.pow_add_r by lia. f_equal. lia. }
  assert (R : rne a (b * 2 ^ j) <= m * 2 ^ (i - j)).
  { apply rne_le; [lia|]. rewrite E in H.
    replace (m * 2 ^ (i - j) * (b * 2 ^ j))
      with (m * (2 ^ (i - j) * 2 ^ j) * b) by ring.
    lia. }
  rewrite E.
  replace (m * (2 ^ (i - j) * 2 ^ j)) with (m * 2 ^ (i - j) * 2 ^ j)
    by ring.
  apply Z.mul_le_mono_nonneg_r; lia.
Qed.

Lemma round_mag_between (a b lo hi : Z) :
  0 < b -> anchor f lo -> anchor f hi ->
  lo * b <= a <= hi * b ->
  lo <= round_mag f a b <= hi.
Proof.
  intros Hb (m & i & -> & Hm & Hi) (m' & i' & -> & Hm' & Hi') [Hlo Hhi].
  assert (0 < m * 2 ^ i).
  { apply Z.mul_pos_pos; [lia|apply Z.pow_pos_nonneg; lia]. }
  split.
  - apply round_mag_ge; assumption.
  - apply round_mag_le; try assumption; try lia; nia.
Qed.

(** The rounding of a positive ratio lying between two numbers of the
    format is a finite datum between them. *)
Lemma round_ratio_between (a b lo hi : Z) :
  0 < b -> anchor f lo -> anchor f hi -> hi <= top f ->
  lo * b <= a <= hi * b ->
  exists n, round_ratio f a b = Fin n /\ lo <= n <= hi.
Proof.
  intros Hb Alo Ahi Htop H.
  assert (Plo : 0 < lo).
  { destruct Alo as (m & i & -> & Hm & Hi).
    apply Z.mul_pos_pos; [lia|apply Z.pow_pos_nonneg; lia]. }
  assert (Pa : 0 < a) by nia.
  pose proof (round_mag_between a b lo hi Hb Alo Ahi H) as [R1 R2].
  unfold round_ratio, pack.
  rewrite Z.abs_eq by lia.
  replace (a <? 0) with false by (symmetry; apply Z.ltb_ge; lia).
  replace (round_mag f a b =? 0) with false
    by (symmetry; apply Z.eqb_neq; lia).
  replace (top f <? round_mag f a b) with false
    by (symmetry; apply Z.ltb_ge; lia).
  eexists; split; [reflexivity|lia].
Qed.

Lemma round_ratio_exact (a b v : Z) :
  0 < b -> anchor f v -> v <= top f -> a = v * b ->
  round_ratio f a b = Fin v.
Proof.
  intros Hb Av Htop ->.
  destruct (round_ratio_between (v * b) b v v Hb Av Av Htop ltac:(lia))
    as (n & -> & Hn).
  f_equal. lia.
Qed.

(** A positive ratio at least a number of the format rounds to no
    less, possibly to infinity. *)
Lemma round_ratio_ge (a b lo : Z) :
  0 < b -> anchor f lo -> lo * b <= a ->
  round_ratio f a b = Inf false \/
  exists n, round_ratio f a b = Fin n /\ lo <= n.
Proof.
  intros Hb Alo H.
  assert (Plo : 0 < lo).
  { destruct Alo as (m & i & -> & Hm & Hi).
    apply Z.mul_pos_pos; [lia|apply Z.pow_pos_nonneg; lia]. }
  assert (Pa : 0 < a) by nia.
  assert (R : lo <= round_mag f a b).
  { destruct Alo as (m & i & -> & Hm & Hi).
    apply round_mag_ge; assumption. }
  unfold round_ratio, pack.
  rewrite Z.abs_eq by lia.
  replace (a <? 0) with false by (symmetry; apply Z.ltb_ge; lia).
  replace (round_mag f a b =? 0) with false
    by (symmetry; apply Z.eqb_neq; lia).
  destruct (top f <? round_mag f a b); [left; reflexivity|].
  right. eexists; split; [reflexivity|lia].
Qed.

(** A non-negative ratio at most a number of the format rounds to no
    more. *)
Lemma round_ratio_le (a b hi : Z) :
  0 < b -> anchor f hi -> hi <= top f -> 0 <= a <= hi * b ->
  exists n, round_ratio f a b = Fin n /\ 0 <= n <= hi.
Proof.
  intros Hb (m & i & -> & Hm & Hi) Htop H.
  assert (R : round_mag f a b <= m * 2 ^ i)
    by (apply round_mag_le; try assumption; lia).
  assert (R0 : 0 <= round_mag f a b).
  { unfold round_mag. apply Z.mul_nonneg_nonneg.
    - apply (rne_ge a _ 0); [|lia].
      apply Z.mul_pos_pos; [lia|apply Z.pow_pos_nonneg; lia].
    - apply Z.pow_nonneg; lia. }
  unfold round_ratio, pack.
  rewrite Z.abs_eq by lia.
  replace (a <? 0) with false by (symmetry; apply Z.ltb_ge; lia).
  destruct (Z.eqb_spec (round_mag f a b) 0) as [E0 | N0].
  - exists 0. split; [reflexivity|]. lia.
  - replace (top f <? round_mag f a b) with false
      by (symmetry; apply Z.ltb_ge; lia).
    eexists; split; [reflexivity|lia].
Qed.

(** Rounding is odd: it commutes with negation. *)
Lemma round_ratio_neg (a b : Z) :
  0 < a ->
  round_ratio f (- a) b =
  match round_ratio f a b with
  | Fin n => if n =? 0 then NZero else Fin (- n)
  | Inf _ => Inf true
  | x => x
  end.
Proof.
  intros Ha. unfold round_ratio, pack.
  rewrite Z.abs_opp.
  replace (- a <? 0) with true by (symmetry; apply Z.ltb_lt; lia).
  replace (a <? 0) with false by (symmetry; apply Z.ltb_ge; lia).
  destruct (Z.eqb_spec (round_mag f (Z.abs a) b) 0) as [E | NE].
  - reflexivity.
  - destruct (top f <? round_mag f (Z.abs a) b); [reflexivity|].
    replace (round_mag f (Z.abs a) b =? 0) with false
      by (symmetry; apply Z.eqb_neq; lia).
    reflexivity.
Qed.

End Anchors.

(** Rounding depends on the ratio alone. *)
Lemma rne_scale (a b c : Z) : 0 < b -> 0 < c -> rne (a * c) (b * c) = rne a b.
Proof.
  intros Hb Hc. unfold rne.
  rewrite Z.div_mul_cancel_r by lia.
  rewrite Zmult_mod_distr_r.
  replace (2 * (a mod b * c)) with (2 * (a mod b) * c) by ring.
  rewrite <- Zmult_compare_compat_r by lia. reflexivity.
Qed.

Lemma round_ratio_scale (f : format) (a b c : Z) :
  0 < b -> 0 < c -> round_ratio f (a * c) (b * c) = round_ratio f a b.
Proof.
  intros Hb Hc. unfold round_ratio, round_mag.
  rewrite Z.abs_mul, (Z.abs_eq c) by lia.
  rewrite Z.div_mul_cancel_r by lia.
  replace (b * c * 2 ^ Z.max 0 (Z.log2 (Z.abs a / b) - (prec f - 1)))
    with (b * 2 ^ Z.max 0 (Z.log2 (Z.abs a / b) - (prec f - 1)) * c) by ring.
  rewrite rne_scale;
    [ | apply Z.mul_pos_pos; [lia|apply Z.pow_pos_nonneg; lia] | lia ].
  replace (a * c <? 0) with (a <? 0); [reflexivity|].
  destruct (Z.ltb_spec a 0), (Z.ltb_spec (a * c) 0); try reflexivity; nia.
Qed.

(** The quotient of two finite data, the divisor positive. *)
Lemma div_Fin_pos (f : format) (n m : Z) :
  n <> 0 -> 0 < m ->
  div f (Fin n) (Fin m) = round_ratio f (n * 2 ^ scale f) m.
Proof.
  intros Hn Hm. unfold div, is_zero, num.
  replace (m =? 0) with false by (symmetry; apply Z.eqb_neq; lia).
  replace (n =? 0) with false by (symmetry; apply Z.eqb_neq; lia).
  rewrite Z.sgn_pos, Z.abs_eq by lia. f_equal. ring.
Qed.

(** The product of two finite data other than zero. *)
Lemma mul_Fin (f : format) (n m : Z) :
  n <> 0 -> m <> 0 ->
  mul f (Fin n) (Fin m) = round_ratio f (n * m) (2 ^ scale f).
Proof.
  intros Hn Hm. unfold mul, is_zero, num.
  replace (m =? 0) with false by (symmetry; apply Z.eqb_neq; lia).
  replace (n =? 0) with false by (symmetry; apply Z.eqb_neq; lia).
  reflexivity.
Qed.

Section Exact.

Variable f : format.
Hypothesis prec_pos : 1 <= prec f.
Hypothesis scale_nonneg : 0 <= scale f.

Lemma unit_pos : 0 < 2 ^ scale f.
Proof. apply Z.pow_pos_nonneg; lia. Qed.

Lemma rne_zero (c : Z) : 0 < c -> rne 0 c = 0.
Proof.
  intros Hc. unfold rne. rewrite Z.div_0_l, Z.mod_0_l by lia.
  assert (C : (2 * 0 ?= c) = Lt) by (apply Z.compare_lt_iff; lia).
  rewrite C. reflexivity.
Qed.

Lemma round_ratio_zero (b : Z) : 0 < b -> round_ratio f 0 b = Fin 0.
Proof.
  intros Hb. unfold round_ratio, round_mag.
  cbn [Z.abs]. rewrite rne_zero; [reflexivity|].
  apply Z.mul_pos_pos; [lia|]. apply Z.pow_pos_nonneg; lia.
Qed.

(** A ratio whose exact value is a number of the format rounds to it. *)
Lemma round_ratio_denotes (v b : Z) :
  0 < b -> representable f v -> round_ratio f (v * b) b = Fin v.
Proof.
  intros Hb [-> | [A T]].
  - apply round_ratio_zero. exact Hb.
  - assert (Pv : 0 < Z.abs v).
    { destruct A as (m & i & -> & Hm & Hi).
      apply Z.mul_pos_pos; [lia|apply Z.pow_pos_nonneg; lia]. }
    destruct (Z_lt_le_dec v 0) as [N | P].
    + rewrite Z.abs_neq in * by lia.
      replace (v * b) with (- (- v * b)) by ring.
      rewrite (round_ratio_neg f) by nia.
      rewrite (round_ratio_exact f prec_pos (- v * b) b (- v) Hb A T eq_refl).
      replace (- v =? 0) with false by (symmetry; apply Z.eqb_neq; lia).
      f_equal. ring.
    + rewrite Z.abs_eq in * by lia.
      apply (round_ratio_exact f prec_pos); auto.
Qed.

Lemma of_Z_denotes (z : Z) :
  representable f (z * 2 ^ scale f) -> of_Z f z = Fin (z * 2 ^ scale f).
Proof.
  intros R. unfold of_Z.
  rewrite <- (Z.mul_1_r (z * 2 ^ scale f)) at 1.
  apply round_ratio_denotes; [lia|exact R].
Qed.

Lemma denotes_num (x : ieee) (v : Z) : denotes x v -> num x = v.
Proof. intros [-> | [-> ->]]; reflexivity. Qed.

Lemma denotes_zero (s : bool) : denotes (zero s) 0.
Proof. destruct s; [right; split; reflexivity|left; reflexivity]. Qed.

Lemma denotes_is_zero (x : ieee) (v : Z) :
  denotes x v -> is_zero x = (v =? 0).
Proof. intros [-> | [-> ->]]; reflexivity. Qed.

(** A difference whose exact value is a number of the format is exact. *)
Lemma sub_denotes (x y : ieee) (a b : Z) :
  denotes x a -> denotes y b -> representable f (a - b) ->
  denotes (sub f x y) (a - b).
Proof.
  intros X Y R.
  assert (E : sub f x y =
              if a - b =? 0
              then zero (sign x && is_zero x && negb (sign y))
              else round_ratio f (a - b) 1).
  { rewrite <- (denotes_num x a X), <- (denotes_num y b Y).
    destruct X as [-> | [-> ->]], Y as [-> | [-> ->]]; reflexivity. }
  rewrite E. destruct (Z.eqb_spec (a - b) 0) as [Z0 | NZ].
  - rewrite Z0. apply denotes_zero.
  - left. rewrite <- (Z.mul_1_r (a - b)) at 1.
    apply round_ratio_denotes; [lia|exact R].
Qed.

(** A quotient by a positive datum whose exact value is a number of the
    format is exact. *)
Lemma div_denotes (x : ieee) (a m q : Z) :
  denotes x a -> 0 < m -> representable f q ->
  a * 2 ^ scale f = q * m ->
  denotes (div f x (Fin m)) q.
Proof.
  intros X Hm R E.
  pose proof unit_pos as U.
  assert (D : div f x (Fin m) =
              if a =? 0 then zero (xorb (sign x) false)
              else round_ratio f (a * 2 ^ scale f) m).
  { unfold div. rewrite (denotes_is_zero x a X).
    rewrite <- (denotes_num x a X). cbn [is_zero sign num].
    replace (m =? 0) with false by (symmetry; apply Z.eqb_neq; lia).
    replace (m <? 0) with false by (symmetry; apply Z.ltb_ge; lia).
    rewrite Z.sgn_pos, Z.abs_eq, Z.mul_1_r by lia.
    destruct X as [-> | [-> ->]]; reflexivity. }
  rewrite D. destruct (Z.eqb_spec a 0) as [-> | NZ].
  - assert (q = 0) by nia. subst q. apply denotes_zero.
  - left. rewrite E. apply round_ratio_denotes; assumption.
Qed.

(** The integer next above a finite datum, and [std::ceil]. *)
Lemma ceil_denotes (x : ieee) (a : Z) :
  denotes x a ->
  denotes (ceil f x) (- (- a / 2 ^ scale f) * 2 ^ scale f).
Proof.
  pose proof unit_pos as U.
  intros [-> | [-> ->]].
  - cbn [ceil]. destruct (Z.eqb_spec (- (- a / 2 ^ scale f)) 0) as [E | NE].
    + rewrite E. apply denotes_zero.
    + left. reflexivity.
  - cbn [ceil]. right. split; [reflexivity|].
    rewrite Z.opp_0, Z.div_0_l by lia. reflexivity.
Qed.

(** [std::round] of a finite datum. *)
Lemma round_denotes (x : ieee) (a : Z) :
  denotes x a ->
  denotes (round f x)
    (Z.sgn a * ((2 * Z.abs a + 2 ^ scale f) / (2 * 2 ^ scale f))
     * 2 ^ scale f).
Proof.
  pose proof unit_pos as U.
  intros [-> | [-> ->]].
  - cbn [round].
    destruct (Z.eqb_spec ((2 * Z.abs a + 2 ^ scale f) / (2 * 2 ^ scale f)) 0)
      as [E | NE].
    + rewrite E, Z.mul_0_r. apply denotes_zero.
    + left. reflexivity.
  - cbn [round]. right. split; [reflexivity|]. reflexivity.
Qed.

(** [static_cast<int>] of a datum with an integral value. *)
Lemma to_int_denotes (x : ieee) (k : Z) :
  denotes x (k * 2 ^ scale f) -> CInt.is_int k -> to_int f x = Some k.
Proof.
  pose proof unit_pos as U.
  unfold CInt.is_int. intros [-> | [-> E]] [I0 I1].
  - cbn [to_int]. rewrite Z.quot_mul by lia.
    replace (CInt.INT_MIN <=? k) with true by (symmetry; apply Z.leb_le; lia).
    replace (k <=? CInt.INT_MAX) with true by (symmetry; apply Z.leb_le; lia).
    reflexivity.
  - cbn [to_int]. f_equal. nia.
Qed.

End Exact.

(** Conversion to a wider format is exact. *)
Lemma convert_denotes (f g : format) (x : ieee) (a q : Z) :
  1 <= prec g -> 0 <= scale f ->
  denotes x a -> representable g q ->
  a * 2 ^ scale g = q * 2 ^ scale f ->
  denotes (convert f g x) q.
Proof.
  intros Pg Sf X R E.
  assert (U : 0 < 2 ^ scale f) by (apply Z.pow_pos_nonneg; lia).
  destruct X as [-> | [-> ->]].
  - cbn [convert]. destruct (Z.eqb_spec a 0) as [-> | NZ].
    + left. f_equal. nia.
    + left. rewrite E. apply round_ratio_denotes; assumption.
  - right. split; [reflexivity|]. nia.
Qed.

End IEEEFacts.

(* ================================================================= *)
(** ** Facts about binary32 *)

Module Float32Facts.

Import IEEE IEEEFacts.

Lemma prec32 : 1 <= prec binary32.
Proof. simpl. lia. Qed.

Lemma scale32 : scale binary32 = 149.
Proof. reflexivity. Qed.

(** An integer below [2^24] in magnitude is a [float]. *)
Lemma anchor_int (k : Z) : 0 < k < 2 ^ 24 -> anchor binary32 (k * 2 ^ 149).
Proof.
  intros H. exists k, 149. split; [reflexivity|]. split; [exact H|lia].
Qed.

(** So is a power of two. *)
Lemma anchor_pow2 (e : Z) : 0 <= e -> anchor binary32 (2 ^ e).
Proof.
  intros H. exists 1, e. split; [lia|]. split; [simpl; lia|exact H].
Qed.

Lemma top32 : top binary32 = (2 ^ 24 - 1) * 2 ^ 253.
Proof. reflexivity. Qed.

Lemma pow2_le_top (e : Z) : 0 <= e <= 276 -> 2 ^ e <= top binary32.
Proof.
  intros H. rewrite top32.
  assert (2 ^ e <= 2 ^ 276) by (apply Z.pow_le_mono_r; lia).
  assert (2 ^ 276 <= (2 ^ 24 - 1) * 2 ^ 253) by (vm_compute; discriminate).
  lia.
Qed.

Lemma int_le_top (k : Z) : k < 2 ^ 24 -> k * 2 ^ 149 <= top binary32.
Proof.
  intros H. rewrite top32.
  assert (k * 2 ^ 149 <= 2 ^ 24 * 2 ^ 149)
    by (apply Z.mul_le_mono_nonneg_r; lia).
  assert (2 ^ 24 * 2 ^ 149 <= (2 ^ 24 - 1) * 2 ^ 253)
    by (vm_compute; discriminate).
  lia.
Qed.

Lemma of_Z_unfold (z : Z) :
  of_Z binary32 z = round_ratio binary32 (z * 2 ^ 149) 1.
Proof. reflexivity. Qed.

(** Integers up to [2^24] in magnitude convert exactly. *)
Lemma of_Z_exact (z : Z) :
  - 2 ^ 24 < z < 2 ^ 24 -> of_Z binary32 z = Fin (z * 2 ^ 149).
Proof.
  intros H. rewrite of_Z_unfold.
  destruct (Z_dec z 0) as [[N | P] | E].
  - replace (z * 2 ^ 149) with (- (- z * 2 ^ 149)) by ring.
    rewrite (round_ratio_neg binary32) by lia.
    rewrite (round_ratio_exact binary32 prec32 _ 1 (- z * 2 ^ 149));
      [ | lia | apply anchor_int; lia | apply int_le_top; lia | ring ].
    replace (- z * 2 ^ 149 =? 0) with false
      by (symmetry; apply Z.eqb_neq; lia).
    reflexivity.
  - apply (round_ratio_exact binary32 prec32);
      [ lia | apply anchor_int; lia | apply int_le_top; lia | ring ].
  - subst z. reflexivity.
Qed.

(** Conversion of an integer is monotone at every integer [k] below
    [2^24]: [(float)z >= (float)k] exactly when [z >= k]. *)
Lemma of_Z_geb (k z : Z) :
  0 < k < 2 ^ 24 ->
  geb (of_Z binary32 z) (of_Z binary32 k) = (k <=? z).
Proof.
  intros Hk. rewrite (of_Z_exact k) by lia. rewrite of_Z_unfold.
  unfold geb.
  destruct (Z.leb_spec k z) as [Le | Lt].
  - destruct (round_ratio_ge binary32 prec32 (z * 2 ^ 149) 1 (k * 2 ^ 149))
      as [-> | (n & -> & Hn)];
      [ lia | apply anchor_int; lia | nia | reflexivity | ].
    simpl. apply Z.leb_le. exact Hn.
  - destruct (Z_dec z 0) as [[N | P] | E].
    + replace (z * 2 ^ 149) with (- (- z * 2 ^ 149)) by ring.
      rewrite (round_ratio_neg binary32) by lia.
      destruct (round_ratio_ge binary32 prec32 (- z * 2 ^ 149) 1 (2 ^ 149))
        as [-> | (n & -> & Hn)];
        [ lia | apply anchor_pow2; lia | nia | reflexivity | ].
      replace (n =? 0) with false by (symmetry; apply Z.eqb_neq; lia).
      simpl. apply Z.leb_gt. lia.
    + assert (K1 : 0 < k - 1) by lia.
      destruct (round_ratio_le binary32 prec32 (z * 2 ^ 149) 1
                  ((k - 1) * 2 ^ 149))
        as (n & -> & Hn);
        [ lia | apply anchor_int; lia | apply int_le_top; lia | nia | ].
      simpl. apply Z.leb_gt. lia.
    + subst z. simpl. apply Z.leb_gt. lia.
Qed.

Lemma round_ratio_not_nan (f : format) (a b : Z) : round_ratio f a b <> NaN.
Proof.
  unfold round_ratio, pack, zero.
  destruct (_ =? 0); [destruct (a <? 0); discriminate|].
  destruct (_ <? _); discriminate.
Qed.

Lemma of_Z_not_nan (z : Z) : of_Z binary32 z <> NaN.
Proof. apply round_ratio_not_nan. Qed.

(** Away from NaN, [x < y] is the negation of [y <= x]. *)
Lemma ltb_negb_leb (x y : ieee) :
  x <> NaN -> y <> NaN -> ltb x y = negb (leb y x).
Proof.
  intros Hx Hy.
  destruct x as [ | s | | n ], y as [ | t | | m ]; try congruence;
    try (destruct s; reflexivity); try (destruct t; reflexivity);
    try (destruct s, t; reflexivity); try reflexivity;
    unfold ltb, leb, num; rewrite Z.leb_antisym, negb_involutive;
    reflexivity.
Qed.

(** [(float)z < (float)k] exactly when [z < k], for [0 < k < 2^24]. *)
Lemma of_Z_ltb (k z : Z) :
  0 < k < 2 ^ 24 ->
  ltb (of_Z binary32 z) (of_Z binary32 k) = (z <? k).
Proof.
  intros Hk.
  rewrite ltb_negb_leb by apply of_Z_not_nan.
  change (leb (of_Z binary32 k) (of_Z binary32 z))
    with (geb (of_Z binary32 z) (of_Z binary32 k)).
  rewrite of_Z_geb by exact Hk.
  rewrite Z.ltb_antisym. reflexivity.
Qed.

(** An integer within the range of [int] converts to a finite [float] on
    the same side of every integer below [2^24]. *)
Lemma of_Z_pos_between (k z : Z) :
  0 < k < 2 ^ 24 -> k <= z <= 2 ^ 31 ->
  exists n, of_Z binary32 z = Fin n /\ k * 2 ^ 149 <= n <= 2 ^ 180.
Proof.
  intros Hk Hz. rewrite of_Z_unfold.
  apply (round_ratio_between binary32 prec32);
    [ lia | apply anchor_int; lia | apply anchor_pow2; lia
    | apply pow2_le_top; lia | ].
  change (2 ^ 180) with (2 ^ 31 * 2 ^ 149). nia.
Qed.

Lemma of_Z_neg_between (z : Z) :
  - 2 ^ 31 <= z < 0 ->
  exists n, of_Z binary32 z = Fin (- n) /\ 2 ^ 149 <= n <= 2 ^ 180.
Proof.
  intros Hz. rewrite of_Z_unfold.
  replace (z * 2 ^ 149) with (- (- z * 2 ^ 149)) by ring.
  rewrite (round_ratio_neg binary32) by lia.
  destruct (round_ratio_between binary32 prec32 (- z * 2 ^ 149) 1
              (2 ^ 149) (2 ^ 180)) as (n & -> & Hn);
    [ lia | apply anchor_pow2; lia | apply anchor_pow2; lia
    | apply pow2_le_top; lia
    | change (2 ^ 180) with (2 ^ 31 * 2 ^ 149); nia | ].
  replace (n =? 0) with false by (symmetry; apply Z.eqb_neq; lia).
  exists n. split; [reflexivity|exact Hn].
Qed.

(** *** Cross-checks against the Standard Library's [SpecFloat]

    The operations of [IEEE] agree with the library's bit-level
    specification of binary32 (and of binary64, for the centring
    arithmetic) on inputs that exercise rounding to even, ties, inexact
    quotients, subnormal results and overflow. *)

Example of_Z_agrees_with_SpecFloat :
  map (fun z => to_spec binary32 (of_Z binary32 z))
      [5000; 16777217; 16777219; -16777221; 2147483647; 2 ^ 63 - 1] =
  map (fun z => binary_normalize 24 128 z 0 false)
      [5000; 16777217; 16777219; -16777221; 2147483647; 2 ^ 63 - 1].
Proof. vm_compute. reflexivity. Qed.

Example div_agrees_with_SpecFloat :
  map (fun ab => to_spec binary32
                   (div binary32 (of_Z binary32 (fst ab))
                                 (of_Z binary32 (snd ab))))
      [(1, 3); (16, 9); (4, 3); (-7, 1000); (499, 1000); (1, 0); (0, 0);
       (1, 2 ^ 127); (3, 2 ^ 100)] =
  map (fun ab => SFdiv 24 128 (to_spec binary32 (of_Z binary32 (fst ab)))
                              (to_spec binary32 (of_Z binary32 (snd ab))))
      [(1, 3); (16, 9); (4, 3); (-7, 1000); (499, 1000); (1, 0); (0, 0);
       (1, 2 ^ 127); (3, 2 ^ 100)].
Proof. vm_compute. reflexivity. Qed.

Example mul_agrees_with_SpecFloat :
  map (fun ab => to_spec binary32
                   (mul binary32
                      (div binary32 (of_Z binary32 (fst ab))
                                    (of_Z binary32 9))
                      (of_Z binary32 (snd ab))))
      [(16, 400); (16, 1080); (-16, 200); (1, 2 ^ 127); (2 ^ 100, 2 ^ 60)] =
  map (fun ab => SFmul 24 128
                   (SFdiv 24 128 (to_spec binary32 (of_Z binary32 (fst ab)))
                                 (to_spec binary32 (of_Z binary32 9)))
                   (to_spec binary32 (of_Z binary32 (snd ab))))
      [(16, 400); (16, 1080); (-16, 200); (1, 2 ^ 127); (2 ^ 100, 2 ^ 60)].
Proof. vm_compute. reflexivity. Qed.

Example sub_agrees_with_SpecFloat :
  map (fun ab => to_spec binary32
                   (sub binary32 (of_Z binary32 (fst ab))
                                 (of_Z binary32 (snd ab))))
      [(16777216, 3); (16777218, 1); (16777218, 3); (712, 0); (5, 5);
       (-3, 4)] =
  map (fun ab => SFsub 24 128 (to_spec binary32 (of_Z binary32 (fst ab)))
                              (to_spec binary32 (of_Z binary32 (snd ab))))
      [(16777216, 3); (16777218, 1); (16777218, 3); (712, 0); (5, 5);
       (-3, 4)].
Proof. vm_compute. reflexivity. Qed.

Example binary64_agrees_with_SpecFloat :
  map (fun ab => to_spec binary64
                   (sub binary64
                      (div binary64 (of_Z binary64 (fst ab))
                                    (of_Z binary64 2))
                      (div binary64 (of_Z binary64 (snd ab))
                                    (of_Z binary64 2))))
      [(1000, 712); (400, 400); (3, 4); (640, 1921); (2 ^ 60 + 1, 3)] =
  map (fun ab => SFsub 53 1024
                   (SFdiv 53 1024 (to_spec binary64 (of_Z binary64 (fst ab)))
                                  (to_spec binary64 (of_Z binary64 2)))
                   (SFdiv 53 1024 (to_spec binary64 (of_Z binary64 (snd ab)))
                                  (to_spec binary64 (of_Z binary64 2))))
      [(1000, 712); (400, 400); (3, 4); (640, 1921); (2 ^ 60 + 1, 3)].
Proof. vm_compute. reflexivity. Qed.

End Float32Facts.

(* ================================================================= *)
(** ** The message queue: removal, drawing, categories *)

Module OSDFacts.

Import IEEE OSD CIntFacts Float32Facts.

Lemma ElapsedMs_range (now : Z) (msg : Message) :
  0 <= ElapsedMs now msg < 2 ^ 64.
Proof. apply to_u64_range. Qed.

(** Without wrap-around the remaining time is [duration - elapsed]. *)
Lemma TimeRemaining_exact (now : Z) (msg : Message) :
  well_timed now msg ->
  TimeRemaining now msg = duration msg - ElapsedMs now msg.
Proof.
  intros [[D0 D1] E]. unfold TimeRemaining.
  pose proof (ElapsedMs_range now msg) as R.
  rewrite to_s64_to_u64. apply to_s64_id.
  assert (2 ^ 32 < 2 ^ 63) by (vm_compute; reflexivity).
  lia.
Qed.

(** The test of the loop is the removal rule of the specification. *)
Lemma expired_removal_due (now : Z) (msg : Message) :
  well_timed now msg -> expired now msg = removal_due now msg.
Proof.
  intros W. unfold expired, removal_due.
  rewrite (TimeRemaining_exact now msg W).
  destruct W as [[D0 D1] E].
  pose proof (ElapsedMs_range now msg) as R.
  set (tl := duration msg - ElapsedMs now msg).
  assert (N : CInt.neg64 tl = - tl).
  { unfold CInt.neg64. apply to_s64_id.
    assert (2 ^ 32 < 2 ^ 63) by (vm_compute; reflexivity).
    unfold tl. lia. }
  rewrite N. unfold MESSAGE_DROP_TIME, float.
  rewrite of_Z_geb by (vm_compute; split; reflexivity).
  reflexivity.
Qed.

(** The live set a pass leaves: the entries the test spares, in order. *)
Lemma DrawMessages_from_live (draw_messages : bool) (now : Z) (s : Messages) :
  forall index,
    fst (DrawMessages_from draw_messages now index s) =
    map (after_pass draw_messages)
        (filter (fun kv => negb (expired now (snd kv))) s).
Proof.
  induction s as [ | [type msg] rest IH ]; intros index; [reflexivity|].
  cbn [DrawMessages_from filter snd].
  destruct (expired now msg); cbn [negb].
  - apply IH.
  - destruct draw_messages.
    + cbn [DrawMessage].
      specialize (IH (CInt.add index 1)).
      destruct (DrawMessages_from true now (CInt.add index 1) rest)
        as [s' calls].
      cbn [fst map after_pass snd] in *. rewrite IH. reflexivity.
    + specialize (IH index).
      destruct (DrawMessages_from false now index rest) as [s' calls].
      cbn [fst map after_pass] in *. rewrite IH. reflexivity.
Qed.

(** With the setting disabled a pass draws nothing. *)
Lemma DrawMessages_from_disabled (now : Z) (s : Messages) :
  forall index, snd (DrawMessages_from false now index s) = [].
Proof.
  induction s as [ | [type msg] rest IH ]; intros index; [reflexivity|].
  cbn [DrawMessages_from].
  destruct (expired now msg); [apply IH|].
  specialize (IH index).
  destruct (DrawMessages_from false now index rest) as [s' calls].
  exact IH.
Qed.

(** A pass over a concatenation is the pass over its first part followed
    by the pass over the rest, at the window index reached. *)
Lemma DrawMessages_from_app (draw_messages : bool) (now : Z)
    (pre post : Messages) :
  forall index, exists index',
    DrawMessages_from draw_messages now index (pre ++ post) =
    (fst (DrawMessages_from draw_messages now index pre) ++
     fst (DrawMessages_from draw_messages now index' post),
     snd (DrawMessages_from draw_messages now index pre) ++
     snd (DrawMessages_from draw_messages now index' post)).
Proof.
  induction pre as [ | [type msg] rest IH ]; intros index.
  - exists index. cbn [app DrawMessages_from fst snd].
    destruct (DrawMessages_from draw_messages now index post); reflexivity.
  - cbn [app DrawMessages_from].
    destruct (expired now msg); [apply IH|].
    destruct draw_messages.
    + destruct (IH (CInt.add index 1)) as [index' E]. exists index'.
      rewrite E. cbn [DrawMessage].
      destruct (DrawMessages_from true now (CInt.add index 1) rest).
      reflexivity.
    + destruct (IH index) as [index' E]. exists index'.
      rewrite E.
      destruct (DrawMessages_from false now index rest).
      reflexivity.
Qed.

Lemma map_filter_removal (draw_messages : bool) (now : Z) (s : Messages) :
  Forall (fun kv => well_timed now (snd kv)) s ->
  map (after_pass draw_messages)
      (filter (fun kv => negb (expired now (snd kv))) s) =
  map (after_pass draw_messages)
      (filter (fun kv => negb (removal_due now (snd kv))) s).
Proof.
  intros W. f_equal. apply filter_ext_in.
  intros kv I. rewrite Forall_forall in W.
  rewrite (expired_removal_due now (snd kv) (W kv I)). reflexivity.
Qed.

(** C1.  A call of [DrawMessages] removes exactly the messages whose
    remaining time [duration_ms - elapsed_ms] is [<= 0] and that have been
    drawn at least once or are at least 5000 ms past expiry; every other
    message survives the call, in its place (marked as drawn when the pass
    draws).  The messages are those of well-typed durations whose stopwatch
    has not passed [2^63] ms. *)
Theorem DrawMessages_removes_exactly_the_due
    (draw_messages : bool) (now : Z) (s : Messages) :
  Forall (fun kv => well_timed now (snd kv)) s ->
  fst (DrawMessages draw_messages now s) =
  map (after_pass draw_messages)
      (filter (fun kv => negb (removal_due now (snd kv))) s).
Proof.
  intros W. unfold DrawMessages.
  rewrite DrawMessages_from_live. apply map_filter_removal. exact W.
Qed.

(** An entry the test marks is passed over: the pass runs as if it were
    not in the set. *)
Lemma DrawMessages_from_skip (draw_messages : bool) (now : Z)
    (pre post : Messages) (type : MessageType) (msg : Message) :
  expired now msg = true ->
  forall index,
    DrawMessages_from draw_messages now index (pre ++ (type, msg) :: post) =
    DrawMessages_from draw_messages now index (pre ++ post).
Proof.
  intros X. induction pre as [ | [type' msg'] rest IH ]; intros index.
  - cbn [app DrawMessages_from]. rewrite X. reflexivity.
  - cbn [app DrawMessages_from].
    destruct (expired now msg'); [apply IH|].
    destruct draw_messages; rewrite IH; reflexivity.
Qed.

(** For a message never drawn the removal rule reads
    [elapsed >= duration + 5000]. *)
Lemma removal_due_never_drawn (now : Z) (msg : Message) :
  ever_drawn msg = false ->
  removal_due now msg = (duration msg + 5000 <=? ElapsedMs now msg).
Proof.
  intros U. unfold removal_due. rewrite U. cbn [orb].
  destruct (Z.leb_spec (duration msg - ElapsedMs now msg) 0),
           (Z.leb_spec 5000 (- (duration msg - ElapsedMs now msg))),
           (Z.leb_spec (duration msg + 5000) (ElapsedMs now msg));
    try reflexivity; lia.
Qed.

Lemma live_split (draw_messages : bool) (now : Z) (pre post : Messages)
    (type : MessageType) (msg : Message) :
  fst (DrawMessages draw_messages now (pre ++ (type, msg) :: post)) =
  fst (DrawMessages draw_messages now pre) ++
  (if expired now msg then [] else [after_pass draw_messages (type, msg)]) ++
  fst (DrawMessages draw_messages now post).
Proof.
  unfold DrawMessages. rewrite !DrawMessages_from_live.
  rewrite filter_app, map_app. f_equal.
  cbn [filter snd]. destruct (expired now msg); reflexivity.
Qed.

(** C7, as the code has it.  A message that has never been drawn is removed
    by a call of [DrawMessages] exactly when the time elapsed since its
    creation is at least [duration_ms + 5000] ms, that is 5000 ms past its
    expiry; otherwise it stays in its place.  For [duration_ms = 0] this is
    an elapsed time of at least 5000 ms. *)
Theorem never_drawn_removed_5000ms_past_expiry
    (draw_messages : bool) (now : Z) (pre post : Messages)
    (type : MessageType) (msg : Message) :
  ever_drawn msg = false ->
  well_timed now msg ->
  fst (DrawMessages draw_messages now (pre ++ (type, msg) :: post)) =
  fst (DrawMessages draw_messages now pre) ++
  (if duration msg + 5000 <=? ElapsedMs now msg then []
   else [after_pass draw_messages (type, msg)]) ++
  fst (DrawMessages draw_messages now post).
Proof.
  intros U W. rewrite live_split.
  rewrite (expired_removal_due now msg W).
  rewrite (removal_due_never_drawn now msg U). reflexivity.
Qed.

(** C7, as stated, fails: a message of 2000 ms that has never been drawn is
    still live after the pass that reads an elapsed time of 5000 ms. *)
Lemma never_drawn_2000ms_message_kept_at_5000ms :
  ever_drawn (newMessage 0 "saved" 2000 0) = false /\
  ElapsedMs 5000 (newMessage 0 "saved" 2000 0) = 5000 /\
  DrawMessages false 5000 [(Typeless, newMessage 0 "saved" 2000 0)] =
  ([(Typeless, newMessage 0 "saved" 2000 0)], []).
Proof. repeat split; vm_compute; reflexivity. Qed.

(** C8, as the code has it.  A message of [duration_ms = 0] not yet drawn,
    reached by a pass that draws: less than 5000 ms after its creation it is
    kept, marked as drawn, and its window is drawn fully opaque; 5000 ms or
    more after its creation the pass runs as if the message were not in the
    set, so it is removed without a window. *)
Theorem zero_duration_drawn_unless_5000ms_old
    (now : Z) (pre post : Messages) (type : MessageType) (msg : Message) :
  duration msg = 0 ->
  ever_drawn msg = false ->
  (ElapsedMs now msg < 5000 ->
   exists s1 s2 d1 d2 index,
     DrawMessages true now (pre ++ (type, msg) :: post) =
     (s1 ++ after_pass true (type, msg) :: s2,
      d1 ++ {| dc_index := index; dc_text := text msg;
               dc_color := color msg; dc_alpha := of_Z float 1 |} :: d2)) /\
  (5000 <= ElapsedMs now msg < 2 ^ 63 ->
   DrawMessages true now (pre ++ (type, msg) :: post) =
   DrawMessages true now (pre ++ post)).
Proof.
  intros D U.
  assert (W : ElapsedMs now msg < 2 ^ 63 -> well_timed now msg).
  { intros E. split; [|exact E]. rewrite D. unfold CInt.is_u32. lia. }
  assert (X : ElapsedMs now msg < 2 ^ 63 ->
              expired now msg = (5000 <=? ElapsedMs now msg)).
  { intros E. rewrite (expired_removal_due now msg (W E)).
    rewrite (removal_due_never_drawn now msg U). rewrite D. reflexivity. }
  split.
  - intros E.
    assert (NX : expired now msg = false).
    { rewrite X by lia. apply Z.leb_gt. exact E. }
    unfold DrawMessages.
    destruct (DrawMessages_from_app true now pre ((type, msg) :: post) 0)
      as [index A].
    rewrite A. cbn [DrawMessages_from]. rewrite NX.
    cbn [DrawMessage]. rewrite U.
    destruct (DrawMessages_from true now (CInt.add index 1) post)
      as [s2 d2].
    exists (fst (DrawMessages_from true now 0 pre)), s2,
           (snd (DrawMessages_from true now 0 pre)), d2, index.
    reflexivity.
  - intros E. unfold DrawMessages. apply DrawMessages_from_skip.
    rewrite X by lia. apply Z.leb_le. lia.
Qed.

(** C8, as stated, fails: a message added with [duration_ms = 0] and first
    reached by a drawing pass 5000 ms later is removed, no window drawn. *)
Lemma zero_duration_message_dropped_undrawn :
  AddMessage 0 "loaded" 0 4294967295 [] =
  [(Typeless, newMessage 0 "loaded" 0 4294967295)] /\
  DrawMessages true 5000 (AddMessage 0 "loaded" 0 4294967295 []) = ([], []).
Proof. split; vm_compute; reflexivity. Qed.

(** *** Categories *)

Lemma MessageType_eqb_eq (a b : MessageType) :
  MessageType_eqb a b = true <-> a = b.
Proof.
  destruct a as [i | ], b as [j | ]; cbn [MessageType_eqb];
    try (split; [discriminate | congruence]).
  - rewrite Nat.eqb_eq. split; congruence.
  - split; reflexivity.
Qed.

Lemma MessageType_eqb_refl (a : MessageType) : MessageType_eqb a a = true.
Proof. apply MessageType_eqb_eq. reflexivity. Qed.

Lemma MessageType_eqb_neq (a b : MessageType) :
  a <> b -> MessageType_eqb a b = false.
Proof.
  intros N. destruct (MessageType_eqb a b) eqn:E; [|reflexivity].
  apply MessageType_eqb_eq in E. contradiction.
Qed.

Lemma count_emplace (type key : MessageType) (msg : Message) (s : Messages) :
  count_type type (emplace key msg s) =
  ((if MessageType_eqb key type then 1 else 0) + count_type type s)%nat.
Proof.
  unfold count_type.
  induction s as [ | kv rest IH ]; cbn [emplace].
  - cbn [filter fst]. destruct (MessageType_eqb key type); reflexivity.
  - destruct (MessageType_ltb key (fst kv)).
    + cbn [filter fst]. destruct (MessageType_eqb key type); reflexivity.
    + cbn [filter]. destruct (MessageType_eqb (fst kv) type);
        cbn [List.length]; rewrite IH; lia.
Qed.

Lemma count_erase (type key : MessageType) (s : Messages) :
  count_type type (erase key s) =
  if MessageType_eqb key type then 0%nat else count_type type s.
Proof.
  unfold count_type, erase.
  induction s as [ | kv rest IH ].
  - cbn [filter]. destruct (MessageType_eqb key type); reflexivity.
  - cbn [filter].
    destruct (MessageType_eqb (fst kv) key) eqn:K; cbn [negb].
    + apply MessageType_eqb_eq in K. rewrite K.
      destruct (MessageType_eqb key type) eqn:T; exact IH.
    + cbn [filter]. destruct (MessageType_eqb (fst kv) type) eqn:T.
      * destruct (MessageType_eqb key type) eqn:T'.
        -- apply MessageType_eqb_eq in T, T'. rewrite T, <- T' in K.
           rewrite MessageType_eqb_refl in K. discriminate.
        -- cbn [List.length]. rewrite IH. reflexivity.
      * exact IH.
Qed.

Lemma count_live (type : MessageType) (draw_messages : bool) (now : Z)
    (s : Messages) :
  (count_type type (fst (DrawMessages draw_messages now s)) <=
   count_type type s)%nat.
Proof.
  unfold DrawMessages. rewrite DrawMessages_from_live. unfold count_type.
  induction s as [ | kv rest IH ]; [apply Nat.le_refl|].
  cbn [filter]. destruct (expired now (snd kv)); cbn [negb map filter].
  - destruct (MessageType_eqb (fst kv) type); cbn [List.length]; lia.
  - replace (fst (after_pass draw_messages kv)) with (fst kv)
      by (destruct draw_messages; reflexivity).
    destruct (MessageType_eqb (fst kv) type); cbn [List.length]; lia.
Qed.

(** Every call keeps at most one message per category other than
    [Typeless]. *)
Lemma step_keeps_one_per_category (now : Z) (c : Call) (s : Messages) :
  (forall type, type <> Typeless -> (count_type type s <= 1)%nat) ->
  forall type, type <> Typeless ->
    (count_type type (fst (step now c s)) <= 1)%nat.
Proof.
  intros I type T.
  destruct c as [message ms argb | key message ms argb | draw | ];
    cbn [step fst].
  - unfold AddMessage. rewrite count_emplace.
    rewrite MessageType_eqb_neq by congruence.
    apply (I type T).
  - unfold AddTypedMessage. rewrite count_emplace, count_erase.
    destruct (MessageType_eqb key type); [lia|]. apply (I type T).
  - eapply Nat.le_trans; [apply count_live|]. apply (I type T).
  - apply Nat.le_0_l.
Qed.

Lemma run_keeps_one_per_category (calls : list (Z * Call)) :
  forall s,
    (forall type, type <> Typeless -> (count_type type s <= 1)%nat) ->
    forall type, type <> Typeless ->
      (count_type type (fst (run calls s)) <= 1)%nat.
Proof.
  induction calls as [ | [now c] rest IH ]; intros s I type T.
  - apply (I type T).
  - cbn [run].
    pose proof (step_keeps_one_per_category now c s I) as I1.
    destruct (step now c s) as [s1 drawn1]. cbn [fst] in I1.
    specialize (IH s1 I1 type T).
    destruct (run rest s1) as [s2 drawn2]. exact IH.
Qed.

Lemma messages_of_erase (type : MessageType) (s : Messages) :
  messages_of type (erase type s) = [].
Proof.
  unfold messages_of, erase.
  induction s as [ | kv rest IH ]; [reflexivity|].
  cbn [filter]. destruct (MessageType_eqb (fst kv) type) eqn:K; cbn [negb].
  - exact IH.
  - cbn [filter]. rewrite K. exact IH.
Qed.

Lemma messages_of_emplace_fresh (type : MessageType) (msg : Message)
    (s : Messages) :
  messages_of type s = [] ->
  messages_of type (emplace type msg s) = [msg].
Proof.
  unfold messages_of.
  induction s as [ | kv rest IH ]; intros E; cbn [emplace].
  - cbn [filter fst]. rewrite MessageType_eqb_refl. reflexivity.
  - cbn [filter] in E.
    destruct (MessageType_eqb (fst kv) type) eqn:K; [discriminate|].
    destruct (MessageType_ltb type (fst kv)).
    + cbn [filter fst]. rewrite MessageType_eqb_refl, K.
      cbn [map snd]. rewrite E. reflexivity.
    + cbn [filter]. rewrite K. apply IH. exact E.
Qed.

Lemma count_run_AddMessage (now : Z) (message : string) (ms argb : Z)
    (n : nat) :
  forall s,
    count_type Typeless
      (fst (run (repeat (now, CallAddMessage message ms argb) n) s)) =
    (n + count_type Typeless s)%nat.
Proof.
  induction n as [ | n IH ]; intros s; [reflexivity|].
  cbn [repeat run step].
  specialize (IH (AddMessage now message ms argb s)).
  destruct (run (repeat (now, CallAddMessage message ms argb) n)
                (AddMessage now message ms argb s)) as [s2 drawn2].
  cbn [fst] in *. rewrite IH. unfold AddMessage.
  rewrite count_emplace. cbn [MessageType_eqb]. lia.
Qed.

(** C2.  In every state reached from the empty set by calls of the
    interface, each category other than [Typeless] has at most one live
    message; [AddTypedMessage] twice for one category leaves only the second
    message live for it; [AddMessage] adds a [Typeless] message beside
    those already there, so that any number of them coexist. *)
Theorem one_live_message_per_category :
  (forall calls type,
      type = Typeless \/
      (count_type type (fst (run calls [])) <= 1)%nat) /\
  (forall s C now1 t1 ms1 argb1 now2 t2 ms2 argb2,
      messages_of C
        (AddTypedMessage now2 C t2 ms2 argb2
           (AddTypedMessage now1 C t1 ms1 argb1 s)) =
      [newMessage now2 t2 ms2 argb2]) /\
  (forall s now message ms argb,
      count_type Typeless (AddMessage now message ms argb s) =
      S (count_type Typeless s)) /\
  (forall n now message ms argb,
      count_type Typeless
        (fst (run (repeat (now, CallAddMessage message ms argb) n) [])) = n).
Proof.
  split; [|split; [|split]].
  - intros calls type.
    destruct type as [id | ]; [right | left; reflexivity].
    apply run_keeps_one_per_category; [|discriminate].
    intros type _. apply Nat.le_0_l.
  - intros. unfold AddTypedMessage at 1.
    apply messages_of_emplace_fresh. apply messages_of_erase.
  - intros. unfold AddMessage. rewrite count_emplace.
    cbn [MessageType_eqb]. reflexivity.
  - intros. rewrite count_run_AddMessage. cbn [count_type filter List.length].
    lia.
Qed.

(** *** The setting disabled *)

Lemma after_pass_disabled (s : Messages) : map (after_pass false) s = s.
Proof. apply map_id. Qed.

Lemma Forall_emplace (P : MessageType * Message -> Prop)
    (type : MessageType) (msg : Message) (s : Messages) :
  P (type, msg) -> Forall P s -> Forall P (emplace type msg s).
Proof.
  intros Pm. induction 1 as [ | kv rest Pkv Prest IH ]; cbn [emplace].
  - constructor; [exact Pm|constructor].
  - destruct (MessageType_ltb type (fst kv)).
    + constructor; [exact Pm|]. constructor; assumption.
    + constructor; assumption.
Qed.

Lemma Forall_filter (P : MessageType * Message -> Prop)
    (keep : MessageType * Message -> bool) (s : Messages) :
  Forall P s -> Forall P (filter keep s).
Proof.
  induction 1 as [ | kv rest Pkv Prest IH ]; cbn [filter]; [constructor|].
  destruct (keep kv); [constructor|]; assumption.
Qed.

(** While the setting stays disabled no window is drawn and no message is
    marked as drawn. *)
Lemma run_disabled (calls : list (Z * Call)) :
  forallb (fun c => negb (draws_enabled c)) calls = true ->
  forall s,
    Forall (fun kv => ever_drawn (snd kv) = false) s ->
    snd (run calls s) = [] /\
    Forall (fun kv => ever_drawn (snd kv) = false) (fst (run calls s)).
Proof.
  induction calls as [ | [now c] rest IH ]; intros Off s U.
  - split; [reflexivity|exact U].
  - cbn [forallb] in Off. apply andb_true_iff in Off as [Off1 Off].
    cbn [run].
    assert (S1 : snd (step now c s) = [] /\
                 Forall (fun kv => ever_drawn (snd kv) = false)
                        (fst (step now c s))).
    { destruct c as [message ms argb | key message ms argb | draw | ];
        cbn [step fst snd].
      - split; [reflexivity|]. apply Forall_emplace; [reflexivity|exact U].
      - split; [reflexivity|].
        apply Forall_emplace; [reflexivity|].
        apply Forall_filter. exact U.
      - destruct draw; [discriminate|]. unfold DrawMessages. split.
        + apply DrawMessages_from_disabled.
        + rewrite DrawMessages_from_live, after_pass_disabled.
          apply Forall_filter. exact U.
      - split; [reflexivity|constructor]. }
    destruct (step now c s) as [s1 drawn1]. cbn [fst snd] in S1.
    destruct S1 as [-> U1].
    destruct (IH Off s1 U1) as [D2 U2].
    destruct (run rest s1) as [s2 drawn2]. cbn [fst snd] in *.
    subst drawn2. split; [reflexivity|exact U2].
Qed.

(** C10.  With the OSD-messages setting disabled a call of [DrawMessages],
    in any state [s], removes by the same test as an enabled call, draws
    nothing and leaves every surviving message as it was.  Hence, as long
    as the setting stays disabled, no window is drawn, every live message
    is one never drawn, and a message is gone after the first pass that
    finds it 5000 ms past its expiry. *)
Theorem disabled_setting_removes_without_drawing
    (calls : list (Z * Call)) (now : Z) (s : Messages)
    (type : MessageType) (msg : Message) :
  forallb (fun c => negb (draws_enabled c)) calls = true ->
  DrawMessages false now s =
    (filter (fun kv => negb (expired now (snd kv))) s, [])
  /\ fst (DrawMessages true now s) =
     map (after_pass true) (filter (fun kv => negb (expired now (snd kv))) s)
  /\ snd (run calls []) = []
  /\ Forall (fun kv => ever_drawn (snd kv) = false) (fst (run calls []))
  /\ (In (type, msg) (fst (run calls [])) ->
      CInt.is_u32 (duration msg) ->
      duration msg + 5000 <= ElapsedMs now msg < 2 ^ 63 ->
      In (type, msg) (fst (DrawMessages false now (fst (run calls []))))
      -> False).
Proof.
  intros Off.
  destruct (run_disabled calls Off [] ltac:(constructor)) as [D U].
  assert (L : forall s', fst (DrawMessages false now s') =
                filter (fun kv => negb (expired now (snd kv))) s').
  { intros s'. unfold DrawMessages.
    rewrite DrawMessages_from_live. apply after_pass_disabled. }
  split; [|split; [|split; [|split]]].
  - rewrite <- L. unfold DrawMessages.
    rewrite <- (DrawMessages_from_disabled now s 0).
    destruct (DrawMessages_from false now 0 s); reflexivity.
  - unfold DrawMessages. apply DrawMessages_from_live.
  - exact D.
  - exact U.
  - intros I D32 E I'. rewrite L in I'.
    apply filter_In in I' as [_ K]. cbn [snd] in K.
    rewrite Forall_forall in U. specialize (U _ I). cbn [snd] in U.
    assert (W : well_timed now msg) by (split; [exact D32|lia]).
    rewrite (expired_removal_due now msg W) in K.
    rewrite (removal_due_never_drawn now msg U) in K.
    apply negb_true_iff, Z.leb_gt in K. lia.
Qed.

(** *** The fade *)

(** [fade_time] is the fade window of the specification, exactly. *)
Lemma fade_time_exact (msg : Message) :
  CInt.is_u32 (duration msg) ->
  fade_time msg = Fin (fade_window (duration msg) * 2 ^ 149) /\
  1 <= fade_window (duration msg) <= 1000.
Proof.
  intros [D0 D1]. unfold fade_time, fade_window, MESSAGE_FADE_TIME, float.
  unfold min. rewrite of_Z_ltb by (vm_compute; split; reflexivity).
  assert (M : (if duration msg <? 1000 then of_Z binary32 (duration msg)
               else of_Z binary32 1000) =
              of_Z binary32 (Z.min 1000 (duration msg))).
  { destruct (Z.ltb_spec (duration msg) 1000).
    - rewrite Z.min_r by lia. reflexivity.
    - rewrite Z.min_l by lia. reflexivity. }
  rewrite M. set (u := Z.min 1000 (duration msg)).
  assert (U : 0 <= u <= 1000) by (unfold u; lia).
  unfold max. rewrite of_Z_ltb by (vm_compute; split; reflexivity).
  assert (X : (if u <? 1 then of_Z binary32 1 else of_Z binary32 u) =
              of_Z binary32 (Z.max u 1)).
  { destruct (Z.ltb_spec u 1).
    - rewrite Z.max_r by lia. reflexivity.
    - rewrite Z.max_l by lia. reflexivity. }
  rewrite X. split; [|lia].
  apply of_Z_exact. assert (2 ^ 24 = 16777216) by reflexivity. lia.
Qed.

(** The alpha [DrawMessage] computes from its [int] parameter is the
    clamped quotient of the specification, correctly rounded. *)
Lemma alpha_is_faded_alpha (msg : Message) (time_left : Z) :
  CInt.is_u32 (duration msg) -> CInt.is_int time_left ->
  alpha msg time_left = faded_alpha (duration msg) time_left.
Proof.
  intros D [T0 T1]. unfold CInt.INT_MIN, CInt.INT_MAX in *.
  destruct (fade_time_exact msg D) as [F [W1 W2]].
  unfold alpha, faded_alpha. rewrite F.
  set (fw := fade_window (duration msg)) in *.
  assert (P24 : 2 ^ 24 = 16777216) by reflexivity.
  assert (Pfw : 0 < fw * 2 ^ 149) by lia.
  unfold float.
  rewrite (of_Z_exact 0), (of_Z_exact 1) by lia.
  change (0 * 2 ^ 149) with 0. change (1 * 2 ^ 149) with (2 ^ 149).
  destruct (Z.leb_spec time_left 0) as [NP | P].
  - destruct (Z.eq_dec time_left 0) as [-> | NZ].
    + rewrite (of_Z_exact 0) by lia. change (0 * 2 ^ 149) with 0.
      unfold div, is_zero, sign, num.
      replace (fw * 2 ^ 149 =? 0) with false
        by (symmetry; apply Z.eqb_neq; lia).
      replace (fw * 2 ^ 149 <? 0) with false
        by (symmetry; apply Z.ltb_ge; lia).
      reflexivity.
    + destruct (of_Z_neg_between time_left ltac:(lia)) as (n & -> & Hn).
      rewrite IEEEFacts.div_Fin_pos by lia. rewrite scale32.
      replace (- n * 2 ^ 149) with (- (n * 2 ^ 149)) by ring.
      rewrite (IEEEFacts.round_ratio_neg binary32) by lia.
      destruct (IEEEFacts.round_ratio_between binary32 prec32
                  (n * 2 ^ 149) (fw * 2 ^ 149) (2 ^ 139) (2 ^ 180))
        as (q & -> & Hq);
        [ lia | apply anchor_pow2; lia | apply anchor_pow2; lia
        | apply pow2_le_top; lia | | ].
      * change (2 ^ 149) with (2 ^ 10 * 2 ^ 139) at 2.
        assert (E10 : 2 ^ 10 = 1024) by reflexivity.
        assert (0 < 2 ^ 139) by (apply Z.pow_pos_nonneg; lia).
        assert (0 < 2 ^ 149) by (apply Z.pow_pos_nonneg; lia).
        split; nia.
      * assert (0 < 2 ^ 139) by (apply Z.pow_pos_nonneg; lia).
        replace (q =? 0) with false by (symmetry; apply Z.eqb_neq; lia).
        unfold clamp, ltb, num.
        replace (- q <? 0) with true by (symmetry; apply Z.ltb_lt; lia).
        reflexivity.
  - destruct (Z.leb_spec fw time_left) as [Big | Small].
    + destruct (of_Z_pos_between fw time_left ltac:(lia) ltac:(lia))
        as (n & -> & Hn).
      rewrite IEEEFacts.div_Fin_pos by lia. rewrite scale32.
      destruct (IEEEFacts.round_ratio_ge binary32 prec32
                  (n * 2 ^ 149) (fw * 2 ^ 149) (2 ^ 149))
        as [-> | (q & -> & Hq)];
        [ lia | apply anchor_pow2; lia | nia | reflexivity | ].
      unfold clamp, ltb, num.
      assert (0 < 2 ^ 149) by (apply Z.pow_pos_nonneg; lia).
      replace (q <? 0) with false by (symmetry; apply Z.ltb_ge; lia).
      destruct (Z.ltb_spec (2 ^ 149) q); [reflexivity|].
      f_equal. lia.
    + rewrite (of_Z_exact time_left) by lia.
      assert (0 < 2 ^ 149) by (apply Z.pow_pos_nonneg; lia).
      rewrite IEEEFacts.div_Fin_pos by lia. rewrite scale32.
      rewrite IEEEFacts.round_ratio_scale by lia.
      unfold of_ratio. rewrite scale32.
      destruct (IEEEFacts.round_ratio_le binary32 prec32
                  (time_left * 2 ^ 149) fw (2 ^ 149))
        as (q & -> & Hq);
        [ lia | apply anchor_pow2; lia | apply pow2_le_top; lia | nia | ].
      unfold clamp, ltb, num.
      replace (q <? 0) with false by (symmetry; apply Z.ltb_ge; lia).
      replace (2 ^ 149 <? q) with false by (symmetry; apply Z.ltb_ge; lia).
      reflexivity.
Qed.

(** While the remaining time fits the [int] parameter of [DrawMessage], the
    alpha pushed for a message is [clamp(time_left / fade_window, 0, 1)],
    correctly rounded, with [fade_window = max(min(1000, duration_ms), 1)];
    on the first render it is 1. *)
Theorem pushed_alpha_within_int_range (index now : Z) (msg : Message) :
  well_timed now msg ->
  CInt.is_int (duration msg - ElapsedMs now msg) ->
  dc_alpha (snd (DrawMessage index msg (CInt.to_int (TimeRemaining now msg))))
  = if ever_drawn msg
    then faded_alpha (duration msg) (duration msg - ElapsedMs now msg)
    else of_Z float 1.
Proof.
  intros W I. cbn [DrawMessage snd dc_alpha].
  destruct (ever_drawn msg); [|reflexivity].
  rewrite (TimeRemaining_exact now msg W).
  rewrite (to_int_id _ I).
  apply alpha_is_faded_alpha; [apply W|exact I].
Qed.

(** C9 at the failing input.  A message of 3000000000 ms, drawn before, is
    rendered 16 ms after its creation: its remaining time, 2999999984 ms,
    does not fit the [int] parameter of [DrawMessage] and is passed as
    -1294967312, so the alpha pushed is 0 where
    [clamp(time_left / fade_window, 0, 1)] is 1. *)
Theorem pushed_alpha_of_long_message_is_zero :
  TimeRemaining 16 (mkMessage "cheats on" 0 3000000000 true 4294967040)
  = 2999999984 /\
  snd (DrawMessages true 16
         [(Typeless, mkMessage "cheats on" 0 3000000000 true 4294967040)])
  = [ {| dc_index := 0; dc_text := "cheats on"; dc_color := 4294967040;
         dc_alpha := of_Z float 0 |} ] /\
  faded_alpha 3000000000 2999999984 = of_Z float 1.
Proof. repeat split; vm_compute; reflexivity. Qed.

(** *** Instances *)

Lemma DrawMessages_removes_exactly_the_due_at_3000ms :
  Forall (fun kv => well_timed 3000 (snd kv))
    [(Slot 0, mkMessage "fps" 0 2000 true 0);
     (Typeless, mkMessage "saved" 0 5000 false 0)] /\
  fst (DrawMessages true 3000
         [(Slot 0, mkMessage "fps" 0 2000 true 0);
          (Typeless, mkMessage "saved" 0 5000 false 0)]) =
  map (after_pass true)
    (filter (fun kv => negb (removal_due 3000 (snd kv)))
       [(Slot 0, mkMessage "fps" 0 2000 true 0);
        (Typeless, mkMessage "saved" 0 5000 false 0)]).
Proof.
  assert (W : Forall (fun kv => well_timed 3000 (snd kv))
                [(Slot 0, mkMessage "fps" 0 2000 true 0);
                 (Typeless, mkMessage "saved" 0 5000 false 0)]).
  { repeat constructor; vm_compute; try reflexivity; discriminate. }
  split; [exact W|].
  apply (DrawMessages_removes_exactly_the_due true 3000 _ W).
Defined.

Lemma never_drawn_removed_5000ms_past_expiry_at_7000ms :
  fst (DrawMessages false 7000
         ([] ++ (Typeless, newMessage 0 "saved" 2000 0) :: [])) =
  fst (DrawMessages false 7000 []) ++
  (if duration (newMessage 0 "saved" 2000 0) + 5000 <=?
      ElapsedMs 7000 (newMessage 0 "saved" 2000 0)
   then []
   else [after_pass false (Typeless, newMessage 0 "saved" 2000 0)]) ++
  fst (DrawMessages false 7000 []).
Proof.
  apply (never_drawn_removed_5000ms_past_expiry false 7000 [] []
           Typeless (newMessage 0 "saved" 2000 0)).
  - reflexivity.
  - repeat split; vm_compute; try reflexivity; discriminate.
Defined.

Lemma zero_duration_drawn_at_100ms :
  exists s1 s2 d1 d2 index,
    DrawMessages true 100 ([] ++ (Typeless, newMessage 0 "loaded" 0 0) :: []) =
    (s1 ++ after_pass true (Typeless, newMessage 0 "loaded" 0 0) :: s2,
     d1 ++ {| dc_index := index; dc_text := "loaded"; dc_color := 0;
              dc_alpha := of_Z float 1 |} :: d2).
Proof.
  apply (zero_duration_drawn_unless_5000ms_old 100 [] [] Typeless
           (newMessage 0 "loaded" 0 0) eq_refl eq_refl).
  vm_compute. reflexivity.
Defined.

Lemma disabled_setting_removes_without_drawing_after_6000ms :
  snd (run [(0, CallAddMessage "saved" 1000 0);
            (16, CallDrawMessages false)] []) = [] /\
  Forall (fun kv => ever_drawn (snd kv) = false)
    (fst (run [(0, CallAddMessage "saved" 1000 0);
               (16, CallDrawMessages false)] [])) /\
  DrawMessages false 6000 [(Typeless, mkMessage "fps" 0 2000 true 0)] =
  (filter (fun kv => negb (expired 6000 (snd kv)))
     [(Typeless, mkMessage "fps" 0 2000 true 0)], []).
Proof.
  destruct (disabled_setting_removes_without_drawing
              [(0, CallAddMessage "saved" 1000 0);
               (16, CallDrawMessages false)]
              6000 [(Typeless, mkMessage "fps" 0 2000 true 0)]
              Typeless (newMessage 0 "saved" 1000 0) eq_refl)
    as (A & _ & D & U & _).
  split; [exact D|]. split; [exact U|exact A].
Defined.

Lemma pushed_alpha_within_int_range_at_1500ms :
  dc_alpha (snd (DrawMessage 0 (mkMessage "saved" 0 2000 true 0)
                   (CInt.to_int
                      (TimeRemaining 1500 (mkMessage "saved" 0 2000 true 0)))))
  = faded_alpha 2000 500.
Proof.
  apply (pushed_alpha_within_int_range 0 1500
           (mkMessage "saved" 0 2000 true 0)).
  - repeat split; vm_compute; try reflexivity; discriminate.
  - split; vm_compute; discriminate.
Defined.

End OSDFacts.

(* ================================================================= *)
(** ** Display geometry: rectangles *)

Module RectangleFacts.

Import Present CIntFacts.

Lemma small_is_int (z : Z) : - 2 ^ 30 <= z <= 2 ^ 30 -> CInt.is_int z.
Proof.
  unfold CInt.is_int, CInt.INT_MIN, CInt.INT_MAX.
  assert (2 ^ 30 < 2 ^ 31 - 1) by (vm_compute; reflexivity). lia.
Qed.

Lemma quot4_small (z : Z) :
  - 2 ^ 29 <= z <= 2 ^ 29 -> - 2 ^ 27 <= Z.quot z 4 <= 2 ^ 27.
Proof.
  intros H.
  change (2 ^ 29) with (4 * 2 ^ 27) in H.
  pose proof (Z.quot_rem' z 4) as E.
  pose proof (Z.rem_bound_abs z 4 ltac:(lia)) as B.
  pose proof (Z.rem_sign_mul z 4 ltac:(lia)) as S.
  destruct (Z_le_gt_dec 0 z).
  - assert (0 <= Z.rem z 4) by nia. lia.
  - assert (Z.rem z 4 <= 0) by nia. lia.
Qed.

Lemma add_exact (a b : Z) :
  - 2 ^ 30 <= a + b <= 2 ^ 30 -> CInt.add a b = a + b.
Proof. intros H. apply to_int_id, small_is_int, H. Qed.

Lemma sub_exact (a b : Z) :
  - 2 ^ 30 <= a - b <= 2 ^ 30 -> CInt.sub a b = a - b.
Proof. intros H. apply to_int_id, small_is_int, H. Qed.

(** [offset * extent / target extent] for an offset and an extent of at
    most [2^15]: the product is an [int], so the code's quotient is the
    quotient of integers, undefined only for a zero divisor. *)
Lemma scaled_offset_exact (offset orig_source orig_target : Z) :
  Z.abs offset <= 2 ^ 15 -> Z.abs orig_source <= 2 ^ 15 ->
  scaled_offset offset orig_source orig_target =
  (if orig_target =? 0 then None
   else Some (Z.quot (offset * orig_source) orig_target)) /\
  Z.abs (Z.quot (offset * orig_source) orig_target) <= 2 ^ 30.
Proof.
  intros Ho Hs.
  assert (P15 : 2 ^ 15 = 32768) by reflexivity.
  assert (P30 : 2 ^ 30 = 1073741824) by reflexivity.
  assert (P31 : 2 ^ 31 = 2147483648) by reflexivity.
  assert (M : Z.abs (offset * orig_source) <= 2 ^ 30).
  { rewrite Z.abs_mul. change (2 ^ 30) with (2 ^ 15 * 2 ^ 15).
    apply Z.mul_le_mono_nonneg; try apply Z.abs_nonneg; assumption. }
  assert (Q : Z.abs (Z.quot (offset * orig_source) orig_target) <= 2 ^ 30).
  { destruct (Z.eq_dec orig_target 0) as [->|N].
    - rewrite P30. destruct (offset * orig_source); cbn; lia.
    - rewrite <- Z.quot_abs by exact N.
      assert (0 <= Z.abs (offset * orig_source)) by apply Z.abs_nonneg.
      assert (0 < Z.abs orig_target) by lia.
      rewrite Z.quot_div_nonneg by lia.
      assert (Z.abs (offset * orig_source) / Z.abs orig_target
              <= Z.abs (offset * orig_source)).
      { apply Z.div_le_upper_bound; [lia|]. nia. }
      lia. }
  split; [|exact Q].
  unfold scaled_offset, CInt.checked_mul.
  rewrite checked_small.
  - cbn [CInt.bind]. unfold CInt.div.
    destruct (orig_target =? 0); [reflexivity|].
    replace (offset * orig_source =? CInt.INT_MIN) with false;
      [reflexivity|].
    symmetry. apply Z.eqb_neq. unfold CInt.INT_MIN.
    rewrite Z.abs_le in M. lia.
  - unfold CInt.is_int, CInt.INT_MIN, CInt.INT_MAX.
    rewrite Z.abs_le in M. lia.
Qed.

(** With coordinates of at most [2^14] and source extents of at most
    [2^15] no [int] operation of [AdjustRectanglesToFitBounds] overflows,
    and its four blocks compute the four sides of the result. *)
Lemma AdjustRectanglesToFitBounds_sides
    (GetWidth GetHeight : Rectangle -> Z) (target source : Rectangle)
    (fb_width fb_height : Z) :
  modest_rectangle target -> modest_rectangle source ->
  modest fb_width -> modest fb_height ->
  Z.abs (GetWidth source) <= 2 ^ 15 -> Z.abs (GetHeight source) <= 2 ^ 15 ->
  AdjustRectanglesToFitBounds GetWidth GetHeight target source
    fb_width fb_height =
  match
    clamp_low (left target) (left source)
      (GetWidth source) (GetWidth target),
    clamp_high fb_width (right target) (right source)
      (GetWidth source) (GetWidth target),
    clamp_low (top target) (top source)
      (GetHeight source) (GetHeight target),
    clamp_high fb_height (bottom target) (bottom source)
      (GetHeight source) (GetHeight target)
  with
  | Some (tl, sl), Some (tr, sr), Some (tu, su), Some (tb, sb) =>
      Some ({| left := tl; top := tu; right := tr; bottom := tb |},
            {| left := sl; top := su; right := sr; bottom := sb |})
  | _, _, _, _ => None
  end.
Proof.
  unfold modest_rectangle, modest.
  intros (Tl & Tt & Tr & Tb) (Sl & St & Sr & Sb) Bw Bh Sw Sh.
  assert (P14 : 2 ^ 14 = 16384) by reflexivity.
  assert (P15 : 2 ^ 15 = 32768) by reflexivity.
  assert (P30 : 2 ^ 30 = 1073741824) by reflexivity.
  assert (P31 : 2 ^ 31 = 2147483648) by reflexivity.
  destruct target as [tl tu tr tb], source as [sl su sr sb].
  cbn [left top right bottom] in *.
  set (tw := GetWidth {| left := tl; top := tu; right := tr; bottom := tb |}).
  set (th := GetHeight {| left := tl; top := tu; right := tr; bottom := tb |}).
  set (sw := GetWidth {| left := sl; top := su; right := sr; bottom := sb |})
    in *.
  set (sh := GetHeight {| left := sl; top := su; right := sr; bottom := sb |})
    in *.
  destruct (scaled_offset_exact (- tl) sw tw) as [E1 Q1];
    [rewrite Z.abs_le; lia|exact Sw|].
  destruct (scaled_offset_exact (tr - fb_width) sw tw) as [E2 Q2];
    [rewrite Z.abs_le; lia|exact Sw|].
  destruct (scaled_offset_exact (- tu) sh th) as [E3 Q3];
    [rewrite Z.abs_le; lia|exact Sh|].
  destruct (scaled_offset_exact (tb - fb_height) sh th) as [E4 Q4];
    [rewrite Z.abs_le; lia|exact Sh|].
  rewrite Z.abs_le in Q1, Q2, Q3, Q4.
  assert (I : forall z, - 2 ^ 31 < z < 2 ^ 31 -> CInt.checked z = Some z).
  { intros z Hz. apply checked_small.
    unfold CInt.is_int, CInt.INT_MIN, CInt.INT_MAX. lia. }
  unfold AdjustRectanglesToFitBounds, clamp_low, clamp_high.
  unfold CInt.checked_neg, CInt.checked_sub, CInt.checked_add.
  cbn [left top right bottom]. fold tw th sw sh.
  destruct (tl <? 0);
    [rewrite (I (- tl)) by lia; cbn [CInt.bind]; rewrite E1;
     destruct (tw =? 0) eqn:W0; cbn [CInt.bind];
     [reflexivity|rewrite I by lia; cbn [CInt.bind]]|];
    cbn [left top right bottom];
    (destruct (fb_width <? tr);
     [rewrite (I (tr - fb_width)) by lia; cbn [CInt.bind];
      rewrite (I (tr - (tr - fb_width))) by lia; cbn [CInt.bind];
      rewrite E2; destruct (tw =? 0) eqn:W1; cbn [CInt.bind];
      [try discriminate; destruct (tu <? 0), (th =? 0),
         (fb_height <? tb); reflexivity
      |rewrite I by lia; cbn [CInt.bind]]|];
     cbn [left top right bottom];
     (destruct (tu <? 0);
      [rewrite (I (- tu)) by lia; cbn [CInt.bind]; rewrite E3;
       destruct (th =? 0) eqn:H0; cbn [CInt.bind];
       [reflexivity|rewrite I by lia; cbn [CInt.bind]]|];
      cbn [left top right bottom];
      (destruct (fb_height <? tb);
       [rewrite (I (tb - fb_height)) by lia; cbn [CInt.bind];
        rewrite (I (tb - (tb - fb_height))) by lia; cbn [CInt.bind];
        rewrite E4; destruct (th =? 0) eqn:H1; cbn [CInt.bind];
        [try discriminate; reflexivity
        |rewrite I by lia; cbn [CInt.bind]]|];
       cbn [left top right bottom];
       repeat f_equal; lia))).
Qed.

(** C4.  For rectangles and bounds with coordinates of at most [2^14] and
    source extents of at most [2^15] (so that no [int] operation
    overflows), [AdjustRectanglesToFitBounds] treats the four sides one by
    one: a target side outside [[0, fb_width] x [0, fb_height]] is set to
    the bound and the source side facing it moves by
    [offset * original source extent / original target extent], a quotient
    of integers, the extents being those of the rectangles as passed in; a
    side inside the bounds is left alone together with its source side.
    The call has no defined result exactly when one of these quotients has
    none (a zero target extent on an axis that is clamped); with non-zero
    target extents it always has one. *)
Theorem AdjustRectanglesToFitBounds_clamps_each_side
    (GetWidth GetHeight : Rectangle -> Z) (target source : Rectangle)
    (fb_width fb_height : Z) :
  modest_rectangle target -> modest_rectangle source ->
  modest fb_width -> modest fb_height ->
  Z.abs (GetWidth source) <= 2 ^ 15 -> Z.abs (GetHeight source) <= 2 ^ 15 ->
  AdjustRectanglesToFitBounds GetWidth GetHeight target source
    fb_width fb_height =
  match
    clamp_low (left target) (left source)
      (GetWidth source) (GetWidth target),
    clamp_high fb_width (right target) (right source)
      (GetWidth source) (GetWidth target),
    clamp_low (top target) (top source)
      (GetHeight source) (GetHeight target),
    clamp_high fb_height (bottom target) (bottom source)
      (GetHeight source) (GetHeight target)
  with
  | Some (tl, sl), Some (tr, sr), Some (tu, su), Some (tb, sb) =>
      Some ({| left := tl; top := tu; right := tr; bottom := tb |},
            {| left := sl; top := su; right := sr; bottom := sb |})
  | _, _, _, _ => None
  end
  /\ (GetWidth target <> 0 -> GetHeight target <> 0 ->
      exists r,
        AdjustRectanglesToFitBounds GetWidth GetHeight target source
          fb_width fb_height = Some r).
Proof.
  intros T S Bw Bh Sw Sh.
  pose proof (AdjustRectanglesToFitBounds_sides
                GetWidth GetHeight target source fb_width fb_height
                T S Bw Bh Sw Sh) as E.
  split; [exact E|].
  intros Nw Nh. rewrite E. unfold clamp_low, clamp_high.
  replace (GetWidth target =? 0) with false
    by (symmetry; apply Z.eqb_neq; exact Nw).
  replace (GetHeight target =? 0) with false
    by (symmetry; apply Z.eqb_neq; exact Nh).
  destruct (left target <? 0), (fb_width <? right target),
    (top target <? 0), (fb_height <? bottom target);
    eexists; reflexivity.
Qed.

(** The worked example of the specification: target [{-10,0,100,50}],
    source [{0,0,110,50}], bounds 200 x 200. *)
Lemma AdjustRectanglesToFitBounds_worked_example :
  AdjustRectanglesToFitBounds Rectangle_GetWidth Rectangle_GetHeight
    {| left := -10; top := 0; right := 100; bottom := 50 |}
    {| left := 0; top := 0; right := 110; bottom := 50 |} 200 200 =
  Some ({| left := 0; top := 0; right := 100; bottom := 50 |},
        {| left := 10; top := 0; right := 110; bottom := 50 |}).
Proof.
  destruct (AdjustRectanglesToFitBounds_clamps_each_side
              Rectangle_GetWidth Rectangle_GetHeight
              {| left := -10; top := 0; right := 100; bottom := 50 |}
              {| left := 0; top := 0; right := 110; bottom := 50 |} 200 200)
    as [E _].
  - repeat split; vm_compute; discriminate.
  - repeat split; vm_compute; discriminate.
  - split; vm_compute; discriminate.
  - split; vm_compute; discriminate.
  - vm_compute. discriminate.
  - vm_compute. discriminate.
  - rewrite E. reflexivity.
Defined.

(** Beyond such bounds the product overflows: for a target 200000 wide
    whose left side is 100000 off-screen and a source 100000 wide, the
    code multiplies 100000 by 100000 in [int], which is undefined, where
    the quotient of integers is 50000. *)
Example AdjustRectanglesToFitBounds_overflow_is_undefined :
  AdjustRectanglesToFitBounds Rectangle_GetWidth Rectangle_GetHeight
    {| left := -100000; top := 0; right := 100000; bottom := 10 |}
    {| left := 0; top := 0; right := 100000; bottom := 10 |} 200 100 = None /\
  clamp_low (-100000) 0 100000 200000 = Some (0, 50000).
Proof. split; vm_compute; reflexivity. Qed.

(** C5.  In top-and-bottom mode [ConvertStereoRectangle] moves the top and
    the bottom of the rectangle inward by a quarter of its height each and
    returns that rectangle shifted up, and shifted down, by a quarter of
    the backbuffer height; in side-by-side mode it does the same to the
    left and the right with the widths.  The other two sides are kept. *)
Theorem ConvertStereoRectangle_quarter_inset
    (c : Context) (p : Presenter) (rc : Rectangle) :
  small (left rc) -> small (top rc) -> small (right rc) -> small (bottom rc) ->
  small (m_backbuffer_width p) -> small (m_backbuffer_height p) ->
  (stereo_mode c = TAB ->
   ConvertStereoRectangle c p rc =
   ({| left := left rc;
       top := fst (quarter_inset (top rc) (bottom rc)
                     (- Z.quot (m_backbuffer_height p) 4));
       right := right rc;
       bottom := snd (quarter_inset (top rc) (bottom rc)
                        (- Z.quot (m_backbuffer_height p) 4)) |},
    {| left := left rc;
       top := fst (quarter_inset (top rc) (bottom rc)
                     (Z.quot (m_backbuffer_height p) 4));
       right := right rc;
       bottom := snd (quarter_inset (top rc) (bottom rc)
                        (Z.quot (m_backbuffer_height p) 4)) |}))
  /\
  (stereo_mode c = SBS ->
   ConvertStereoRectangle c p rc =
   ({| left := fst (quarter_inset (left rc) (right rc)
                      (- Z.quot (m_backbuffer_width p) 4));
       top := top rc;
       right := snd (quarter_inset (left rc) (right rc)
                       (- Z.quot (m_backbuffer_width p) 4));
       bottom := bottom rc |},
    {| left := fst (quarter_inset (left rc) (right rc)
                      (Z.quot (m_backbuffer_width p) 4));
       top := top rc;
       right := snd (quarter_inset (left rc) (right rc)
                       (Z.quot (m_backbuffer_width p) 4));
       bottom := bottom rc |})).
Proof.
  unfold small. intros Hl Ht Hr Hb Hw Hh.
  assert (P28 : 2 ^ 28 = 268435456) by reflexivity.
  assert (P29 : 2 ^ 29 = 536870912) by reflexivity.
  assert (P30 : 2 ^ 30 = 1073741824) by reflexivity.
  assert (P27 : 2 ^ 27 = 134217728) by reflexivity.
  pose proof (quot4_small (m_backbuffer_width p) ltac:(lia)) as Qw.
  pose proof (quot4_small (m_backbuffer_height p) ltac:(lia)) as Qh.
  pose proof (quot4_small (bottom rc - top rc) ltac:(lia)) as Qv.
  pose proof (quot4_small (right rc - left rc) ltac:(lia)) as Qu.
  split; intros M; unfold ConvertStereoRectangle, quarter_inset, CInt.div4;
    rewrite M; cbn [is_TAB left top right bottom fst snd].
  - rewrite (sub_exact (bottom rc) (top rc)) by lia.
    rewrite (add_exact (top rc)), (sub_exact (bottom rc)) by lia.
    rewrite !sub_exact, !add_exact by lia.
    repeat f_equal; lia.
  - rewrite (sub_exact (right rc) (left rc)) by lia.
    rewrite (add_exact (left rc)), (sub_exact (right rc)) by lia.
    rewrite !sub_exact, !add_exact by lia.
    repeat f_equal; lia.
Qed.

(** The worked example of the specification: top-and-bottom mode,
    backbuffer height 400, input [{0,0,640,400}]. *)
Lemma ConvertStereoRectangle_worked_example :
  ConvertStereoRectangle
    {| aspect_mode := Auto; bCrop := false; stereo_mode := TAB;
       bWidescreenHack := false; GetAspectRatio := lit 1;
       IsGameWidescreen := false |}
    {| m_backbuffer_width := 640; m_backbuffer_height := 400;
       m_target_rectangle :=
         {| left := 0; top := 0; right := 640; bottom := 400 |} |}
    {| left := 0; top := 0; right := 640; bottom := 400 |} =
  ({| left := 0; top := 0; right := 640; bottom := 200 |},
   {| left := 0; top := 200; right := 640; bottom := 400 |}).
Proof.
  refine (proj1 (ConvertStereoRectangle_quarter_inset
            {| aspect_mode := Auto; bCrop := false; stereo_mode := TAB;
               bWidescreenHack := false; GetAspectRatio := lit 1;
               IsGameWidescreen := false |}
            {| m_backbuffer_width := 640; m_backbuffer_height := 400;
               m_target_rectangle :=
                 {| left := 0; top := 0; right := 640; bottom := 400 |} |}
            {| left := 0; top := 0; right := 640; bottom := 400 |}
            _ _ _ _ _ _) eq_refl);
    split; vm_compute; discriminate.
Defined.

End RectangleFacts.

(* ================================================================= *)
(** ** Display geometry: the target rectangle *)

Module LayoutFacts.

Import IEEE IEEEFacts Float32Facts Present CIntFacts RectangleFacts.

Lemma scale32_nonneg : 0 <= scale binary32.
Proof. rewrite scale32. lia. Qed.

Lemma prec64 : 1 <= prec binary64.
Proof. simpl. lia. Qed.

Lemma scale64 : scale binary64 = 1074.
Proof. reflexivity. Qed.

Lemma scale64_nonneg : 0 <= scale binary64.
Proof. rewrite scale64. lia. Qed.

(** Integers below [2^24] in magnitude are [float]s. *)
Lemma representable_int32 (z : Z) :
  Z.abs z < 2 ^ 24 -> representable binary32 (z * 2 ^ 149).
Proof.
  intros H. destruct (Z.eq_dec z 0) as [-> | NZ]; [left; reflexivity|].
  right. rewrite Z.abs_mul, (Z.abs_eq (2 ^ 149)) by lia.
  split; [apply anchor_int|apply int_le_top]; lia.
Qed.

(** Integers and half-integers below [2^26] in magnitude are [double]s. *)
Lemma representable_int64 (z i : Z) :
  Z.abs z < 2 ^ 26 -> 1073 <= i <= 1074 ->
  representable binary64 (z * 2 ^ i).
Proof.
  intros H Hi. destruct (Z.eq_dec z 0) as [-> | NZ]; [left; reflexivity|].
  right.
  assert (P : 0 < 2 ^ i) by (apply Z.pow_pos_nonneg; lia).
  rewrite Z.abs_mul, (Z.abs_eq (2 ^ i)) by lia.
  split.
  - exists (Z.abs z), i. split; [reflexivity|]. split; [|lia].
    assert (2 ^ 26 < 2 ^ prec binary64) by (vm_compute; reflexivity). lia.
  - assert (T : 2 ^ 26 * 2 ^ 1074 <= IEEE.top binary64)
      by (vm_compute; discriminate).
    assert (2 ^ i <= 2 ^ 1074) by (apply Z.pow_le_mono_r; lia).
    assert (Z.abs z * 2 ^ i <= 2 ^ 26 * 2 ^ 1074) by nia.
    lia.
Qed.

Lemma by_four_spec (k : Z) :
  by_four k = k - Z.rem k 4 /\ Z.rem (by_four k) 4 = 0 /\
  Z.abs (by_four k) <= Z.abs k /\ Z.abs (k - by_four k) < 4 /\
  (0 <= k -> 0 <= by_four k <= k).
Proof.
  unfold by_four.
  pose proof (Z.quot_rem' k 4) as E.
  pose proof (Z.rem_bound_abs k 4 ltac:(lia)) as B.
  pose proof (Z.rem_sign_mul k 4 ltac:(lia)) as S.
  assert (R : Z.rem (4 * Z.quot k 4) 4 = 0).
  { rewrite Z.mul_comm. apply Z.rem_mul. lia. }
  assert (Sg : (0 <= k -> 0 <= Z.rem k 4) /\ (k <= 0 -> Z.rem k 4 <= 0)).
  { split; intros; nia. }
  destruct Sg as [Sp Sn].
  split; [lia|]. split; [exact R|].
  destruct (Z_le_gt_dec 0 k) as [P | N].
  - specialize (Sp P). repeat split; lia.
  - specialize (Sn ltac:(lia)). repeat split; lia.
Qed.

Lemma half_away_spec (d : Z) :
  Z.abs (2 * half_away d - d) <= 1 /\ Z.abs (half_away d) <= Z.abs d.
Proof.
  unfold half_away.
  pose proof (Z.div_mod (Z.abs d + 1) 2 ltac:(lia)) as E.
  pose proof (Z.mod_pos_bound (Z.abs d + 1) 2 ltac:(lia)) as B.
  destruct (Z_dec d 0) as [[N | P] | ->].
  - rewrite Z.sgn_neg by lia. lia.
  - rewrite Z.sgn_pos by lia. lia.
  - vm_compute. split; discriminate.
Qed.

(** Making a draw size divisible by four is exact in [float]. *)
Lemma DivisibleByFour_exact (x : ieee) (a : Z) :
  denotes x a -> Z.abs (ceiling a) < 2 ^ 24 ->
  exists y, DivisibleByFour x = Some y /\
            denotes y (final_size a * 2 ^ 149).
Proof.
  intros X Hk. unfold DivisibleByFour, float, final_size.
  pose proof (ceil_denotes binary32 scale32_nonneg x a X) as C.
  rewrite scale32 in C. fold (ceiling a) in C.
  set (k := ceiling a) in *.
  assert (P24 : 2 ^ 24 = 16777216) by reflexivity.
  assert (I : CInt.is_int k).
  { unfold CInt.is_int, CInt.INT_MIN, CInt.INT_MAX.
    assert (2 ^ 31 = 2147483648) by reflexivity. lia. }
  rewrite (to_int_denotes binary32 scale32_nonneg _ k C I).
  eexists. split; [reflexivity|].
  destruct (by_four_spec k) as (E & _ & A & D & _).
  unfold CInt.rem4.
  rewrite (of_Z_exact (Z.rem k 4)) by lia.
  replace (by_four k * 2 ^ 149)
    with (k * 2 ^ 149 - Z.rem k 4 * 2 ^ 149) by (rewrite E; ring).
  apply (sub_denotes binary32 prec32); [exact C|left; reflexivity|].
  replace (k * 2 ^ 149 - Z.rem k 4 * 2 ^ 149)
    with (by_four k * 2 ^ 149) by (rewrite E; ring).
  apply representable_int32. lia.
Qed.

(** Centring is exact in [double]. *)
Lemma Centered_exact (win draw : ieee) (W w : Z) :
  denotes win (W * 2 ^ 149) -> denotes draw (w * 2 ^ 149) ->
  Z.abs W < 2 ^ 24 -> Z.abs w < 2 ^ 24 ->
  Centered win draw = Some (half_away (W - w)).
Proof.
  intros Xw Xd HW Hw. unfold Centered, float, double.
  assert (P24 : 2 ^ 24 = 16777216) by reflexivity.
  assert (P26 : 2 ^ 26 = 67108864) by reflexivity.
  assert (U : 0 < 2 ^ 1073) by (apply Z.pow_pos_nonneg; lia).
  assert (E74 : 2 ^ 1074 = 2 * 2 ^ 1073).
  { change 1074 with (Z.succ 1073). apply Z.pow_succ_r. lia. }
  assert (Two : of_Z binary64 2 = Fin (2 * 2 ^ 1074)).
  { apply (of_Z_denotes binary64 prec64).
    rewrite scale64. apply representable_int64; lia. }
  rewrite Two.
  assert (Half : forall x v, denotes x (v * 2 ^ 149) -> Z.abs v < 2 ^ 24 ->
            denotes (div binary64 (convert binary32 binary64 x)
                       (Fin (2 * 2 ^ 1074))) (v * 2 ^ 1073)).
  { intros x v X Hv.
    apply (div_denotes binary64 prec64 scale64_nonneg _ (v * 2 ^ 1074)).
    - apply (convert_denotes binary32 binary64 x (v * 2 ^ 149));
        [ apply prec64 | apply scale32_nonneg | exact X
        | apply representable_int64; lia
        | rewrite scale32, scale64; ring ].
    - lia.
    - apply representable_int64; lia.
    - rewrite scale64. rewrite E74. ring. }
  pose proof (Half win W Xw HW) as Dw.
  pose proof (Half draw w Xd Hw) as Dd.
  pose proof (sub_denotes binary64 prec64 _ _ _ _ Dw Dd) as S.
  replace (W * 2 ^ 1073 - w * 2 ^ 1073) with ((W - w) * 2 ^ 1073) in S
    by ring.
  specialize (S ltac:(apply representable_int64; lia)).
  pose proof (round_denotes binary64 scale64_nonneg _ _ S) as R.
  rewrite scale64 in R.
  assert (V : Z.sgn ((W - w) * 2 ^ 1073) *
              ((2 * Z.abs ((W - w) * 2 ^ 1073) + 2 ^ 1074) / (2 * 2 ^ 1074)) *
              2 ^ 1074 = half_away (W - w) * 2 ^ 1074).
  { unfold half_away. f_equal.
    rewrite Z.sgn_mul, (Z.sgn_pos (2 ^ 1073)), Z.mul_1_r by lia. f_equal.
    rewrite Z.abs_mul, (Z.abs_eq (2 ^ 1073)) by lia.
    replace (2 * (Z.abs (W - w) * 2 ^ 1073) + 2 ^ 1074)
      with ((Z.abs (W - w) + 1) * 2 ^ 1074) by (rewrite E74; ring).
    rewrite Z.div_mul_cancel_r by lia. reflexivity. }
  rewrite V in R.
  apply (to_int_denotes binary64 scale64_nonneg).
  - rewrite scale64. exact R.
  - destruct (half_away_spec (W - w)) as [_ B].
    unfold CInt.is_int, CInt.INT_MIN, CInt.INT_MAX.
    assert (2 ^ 31 = 2147483648) by reflexivity. lia.
Qed.

Lemma ceiling_spec (n : Z) :
  n <= ceiling n * 2 ^ 149 < n + 2 ^ 149.
Proof.
  unfold ceiling.
  assert (U : 0 < 2 ^ 149) by (apply Z.pow_pos_nonneg; lia).
  pose proof (Z.div_mod (- n) (2 ^ 149) ltac:(lia)) as E.
  pose proof (Z.mod_pos_bound (- n) (2 ^ 149) U) as B.
  lia.
Qed.

(** C6, as the code has it.  Once the picture has been scaled to fit the
    window, each draw dimension is raised to the next integer and then
    reduced, toward zero, to a multiple of four: the result is a multiple
    of four no larger in magnitude than the raised value and less than four
    away from it.  The rectangle of that size is centred in the backbuffer,
    each margin being half the free space with halfway cases rounded away
    from zero.  Sizes are below [2^24]. *)
Theorem UpdateDrawRectangle_sizes_and_centres
    (c : Context) (p : Presenter) (dw dh : Z) :
  denotes (fst (ScaledDrawSize c p)) dw ->
  denotes (snd (ScaledDrawSize c p)) dh ->
  Z.abs (ceiling dw) < 2 ^ 24 -> Z.abs (ceiling dh) < 2 ^ 24 ->
  Z.abs (m_backbuffer_width p) < 2 ^ 24 ->
  Z.abs (m_backbuffer_height p) < 2 ^ 24 ->
  UpdateDrawRectangle c p =
    Some {| m_backbuffer_width := m_backbuffer_width p;
            m_backbuffer_height := m_backbuffer_height p;
            m_target_rectangle :=
              {| left := half_away (m_backbuffer_width p - final_size dw);
                 top := half_away (m_backbuffer_height p - final_size dh);
                 right := half_away (m_backbuffer_width p - final_size dw)
                          + final_size dw;
                 bottom := half_away (m_backbuffer_height p - final_size dh)
                           + final_size dh |} |}
  /\ (Z.rem (final_size dw) 4 = 0 /\ Z.rem (final_size dh) 4 = 0)
  /\ (Z.abs (final_size dw) <= Z.abs (ceiling dw) /\
      Z.abs (final_size dh) <= Z.abs (ceiling dh))
  /\ (Z.abs (ceiling dw - final_size dw) < 4 /\
      Z.abs (ceiling dh - final_size dh) < 4)
  /\ (dw <= ceiling dw * 2 ^ 149 < dw + 2 ^ 149 /\
      dh <= ceiling dh * 2 ^ 149 < dh + 2 ^ 149)
  /\ (Z.abs (2 * half_away (m_backbuffer_width p - final_size dw)
             - (m_backbuffer_width p - final_size dw)) <= 1 /\
      Z.abs (2 * half_away (m_backbuffer_height p - final_size dh)
             - (m_backbuffer_height p - final_size dh)) <= 1).
Proof.
  intros Xw Xh Cw Ch HW HH.
  assert (P24 : 2 ^ 24 = 16777216) by reflexivity.
  assert (P30 : 2 ^ 30 = 1073741824) by reflexivity.
  destruct (by_four_spec (ceiling dw)) as (_ & R4w & Aw & Dw & _).
  destruct (by_four_spec (ceiling dh)) as (_ & R4h & Ah & Dh & _).
  fold (final_size dw) in *. fold (final_size dh) in *.
  destruct (half_away_spec (m_backbuffer_width p - final_size dw))
    as [Mw Bw].
  destruct (half_away_spec (m_backbuffer_height p - final_size dh))
    as [Mh Bh].
  split; [|repeat split; try assumption; apply ceiling_spec].
  assert (Fw : Z.abs (final_size dw) < 2 ^ 24) by (clear - Aw Cw; lia).
  assert (Fh : Z.abs (final_size dh) < 2 ^ 24) by (clear - Ah Ch; lia).
  assert (Lw : - 2 ^ 30 <=
               half_away (m_backbuffer_width p - final_size dw)
               + final_size dw <= 2 ^ 30)
    by (clear - Fw HW Bw P24 P30; lia).
  assert (Lh : - 2 ^ 30 <=
               half_away (m_backbuffer_height p - final_size dh)
               + final_size dh <= 2 ^ 30)
    by (clear - Fh HH Bh P24 P30; lia).
  assert (Iw : CInt.is_int (final_size dw)).
  { apply small_is_int. clear - Fw P24 P30. lia. }
  assert (Ih : CInt.is_int (final_size dh)).
  { apply small_is_int. clear - Fh P24 P30. lia. }
  assert (Win : forall W, Z.abs W < 2 ^ 24 ->
                  denotes (of_Z float W) (W * 2 ^ 149)).
  { clear. intros W H. left. apply of_Z_exact.
    assert (2 ^ 24 = 16777216) by reflexivity. lia. }
  unfold UpdateDrawRectangle, TargetRectangle.
  destruct (ScaledDrawSize c p) as [x y]. cbn [fst snd] in Xw, Xh.
  destruct (DivisibleByFour_exact x dw Xw Cw) as (x' & -> & Xw').
  destruct (DivisibleByFour_exact y dh Xh Ch) as (y' & -> & Xh').
  rewrite (Centered_exact _ x' _ (final_size dw) (Win _ HW) Xw' HW Fw).
  rewrite (Centered_exact _ y' _ (final_size dh) (Win _ HH) Xh' HH Fh).
  unfold float.
  rewrite (to_int_denotes binary32 scale32_nonneg x' (final_size dw));
    [ | rewrite scale32; exact Xw' | exact Iw ].
  rewrite (to_int_denotes binary32 scale32_nonneg y' (final_size dh));
    [ | rewrite scale32; exact Xh' | exact Ih ].
  rewrite (add_exact _ _ Lw), (add_exact _ _ Lh).
  reflexivity.
Qed.

(** C6, as stated, fails: with a 16:9 picture in a backbuffer of 1000 x 400
    the draw width before rounding is 711.11..., and the rectangle drawn is
    712 wide. *)
Lemma draw_width_712_exceeds_unrounded_711 :
  ScaledDrawSize wide_picture backbuffer_1000x400 =
    (Fin wide_picture_draw_width, Fin wide_picture_draw_height) /\
  711 * 2 ^ 149 < wide_picture_draw_width < 712 * 2 ^ 149 /\
  UpdateDrawRectangle wide_picture backbuffer_1000x400 =
    Some {| m_backbuffer_width := 1000; m_backbuffer_height := 400;
            m_target_rectangle :=
              {| left := 144; top := 0; right := 856; bottom := 400 |} |}.
Proof.
  split; [vm_compute; reflexivity|].
  split; [split; vm_compute; reflexivity|].
  vm_compute. reflexivity.
Qed.

(** The same layout through the theorem. *)
Lemma UpdateDrawRectangle_at_1000x400 :
  UpdateDrawRectangle wide_picture backbuffer_1000x400 =
    Some {| m_backbuffer_width := 1000; m_backbuffer_height := 400;
            m_target_rectangle :=
              {| left := 144; top := 0; right := 856; bottom := 400 |} |}.
Proof.
  assert (Xw : denotes (fst (ScaledDrawSize wide_picture backbuffer_1000x400))
                       wide_picture_draw_width)
    by (left; vm_compute; reflexivity).
  assert (Xh : denotes (snd (ScaledDrawSize wide_picture backbuffer_1000x400))
                       wide_picture_draw_height)
    by (left; vm_compute; reflexivity).
  assert (Cw : Z.abs (ceiling wide_picture_draw_width) < 2 ^ 24)
    by (vm_compute; reflexivity).
  assert (Ch : Z.abs (ceiling wide_picture_draw_height) < 2 ^ 24)
    by (vm_compute; reflexivity).
  assert (HW : Z.abs (m_backbuffer_width backbuffer_1000x400) < 2 ^ 24)
    by (vm_compute; reflexivity).
  assert (HH : Z.abs (m_backbuffer_height backbuffer_1000x400) < 2 ^ 24)
    by (vm_compute; reflexivity).
  destruct (UpdateDrawRectangle_sizes_and_centres
              wide_picture backbuffer_1000x400
              wide_picture_draw_width wide_picture_draw_height
              Xw Xh Cw Ch HW HH)
    as [E _].
  rewrite E. vm_compute. reflexivity.
Defined.

(** *** Output dimensions *)

(** Whatever [CalculateOutputDimensions] returns is divisible by four. *)
Lemma CalculateOutputDimensions_divisible (c : Context) (p : Presenter)
    (width height w h : Z) :
  CalculateOutputDimensions c p width height = Some (w, h) ->
  Z.rem w 4 = 0 /\ Z.rem h 4 = 0.
Proof.
  unfold CalculateOutputDimensions.
  destruct (ScaleToDisplayAspectRatio _ _ _ _) as [sw sh].
  destruct (ApplyStandardAspectCrop c sw sh) as [cw ch].
  assert (I : forall x k, to_int float x = Some k -> CInt.is_int k).
  { intros x k. destruct x as [ | s | | n ]; cbn [to_int]; try discriminate.
    - intros E. injection E as <-. split; vm_compute; discriminate.
    - destruct (Z.leb_spec CInt.INT_MIN (Z.quot n (2 ^ scale float)));
        [|discriminate].
      destruct (Z.leb_spec (Z.quot n (2 ^ scale float)) CInt.INT_MAX);
        [|discriminate].
      cbn [andb]. intros E. injection E as <-. split; assumption. }
  destruct (to_int float (ceil float cw)) as [kw | ] eqn:Ew; [|discriminate].
  destruct (to_int float (ceil float ch)) as [kh | ] eqn:Eh; [|discriminate].
  intros E. injection E as <- <-.
  destruct (sub_rem4 kw (I _ _ Ew)) as [-> _].
  destruct (sub_rem4 kh (I _ _ Eh)) as [-> _].
  split; rewrite Z.mul_comm; apply Z.rem_mul; lia.
Qed.

(** C3, as stated, fails.  In [Stretch] mode with a backbuffer of height 0
    the draw aspect ratio is not a number, and with a request of
    [2147483647] the scaled width is [2^31]: in both cases the size handed
    to [static_cast<int>] is not an [int] and no dimensions are defined. *)
Lemma CalculateOutputDimensions_undefined :
  CalculateDrawAspectRatio
    {| aspect_mode := Stretch; bCrop := false; stereo_mode := Off;
       bWidescreenHack := false;
       GetAspectRatio := div float (lit 4) (lit 3);
       IsGameWidescreen := false |}
    {| m_backbuffer_width := 0; m_backbuffer_height := 0;
       m_target_rectangle :=
         {| left := 0; top := 0; right := 0; bottom := 0 |} |} = NaN /\
  CalculateOutputDimensions
    {| aspect_mode := Stretch; bCrop := false; stereo_mode := Off;
       bWidescreenHack := false;
       GetAspectRatio := div float (lit 4) (lit 3);
       IsGameWidescreen := false |}
    {| m_backbuffer_width := 0; m_backbuffer_height := 0;
       m_target_rectangle :=
         {| left := 0; top := 0; right := 0; bottom := 0 |} |}
    640 480 = None /\
  fst (ScaleToDisplayAspectRatio
    {| aspect_mode := Auto; bCrop := false; stereo_mode := Off;
       bWidescreenHack := false;
       GetAspectRatio := div float (lit 4) (lit 3);
       IsGameWidescreen := false |}
    {| m_backbuffer_width := 640; m_backbuffer_height := 480;
       m_target_rectangle :=
         {| left := 0; top := 0; right := 640; bottom := 480 |} |}
    2147483647 1) = Fin (2147483648 * 2 ^ 149) /\
  CalculateOutputDimensions
    {| aspect_mode := Auto; bCrop := false; stereo_mode := Off;
       bWidescreenHack := false;
       GetAspectRatio := div float (lit 4) (lit 3);
       IsGameWidescreen := false |}
    {| m_backbuffer_width := 640; m_backbuffer_height := 480;
       m_target_rectangle :=
         {| left := 0; top := 0; right := 640; bottom := 480 |} |}
    2147483647 1 = None.
Proof. repeat split; vm_compute; reflexivity. Qed.

Lemma CalculateOutputDimensions_divisible_at_640x528 :
  CalculateOutputDimensions
    {| aspect_mode := Auto; bCrop := false; stereo_mode := Off;
       bWidescreenHack := false;
       GetAspectRatio := div float (lit 4) (lit 3);
       IsGameWidescreen := false |}
    {| m_backbuffer_width := 640; m_backbuffer_height := 480;
       m_target_rectangle :=
         {| left := 0; top := 0; right := 640; bottom := 480 |} |}
    640 528 = Some (704, 528) /\
  Z.rem 704 4 = 0 /\ Z.rem 528 4 = 0.
Proof.
  assert (E : CalculateOutputDimensions
    {| aspect_mode := Auto; bCrop := false; stereo_mode := Off;
       bWidescreenHack := false;
       GetAspectRatio := div float (lit 4) (lit 3);
       IsGameWidescreen := false |}
    {| m_backbuffer_width := 640; m_backbuffer_height := 480;
       m_target_rectangle :=
         {| left := 0; top := 0; right := 640; bottom := 480 |} |}
    640 528 = Some (704, 528)) by (vm_compute; reflexivity).
  split; [exact E|].
  exact (CalculateOutputDimensions_divisible _ _ _ _ _ _ E).
Defined.

End LayoutFacts.

(* ================================================================= *)
(** ** More about the message queue *)

Module QueueFacts.

Import IEEE OSD CIntFacts Float32Facts OSDFacts.

(** *** Colours *)

Lemma land_255 (a : Z) : 0 <= a -> Z.land a 255 = a mod 256.
Proof.
  intro H. change 255 with (Z.ones 8). rewrite Z.land_ones by lia.
  reflexivity.
Qed.

Lemma channel_byte (argb shift : Z) :
  0 <= argb -> 0 <= shift ->
  channel argb shift =
  div float (of_Z float (byte_at argb shift)) (of_Z float 255).
Proof.
  intros H0 Hs. unfold channel, byte_at.
  rewrite Z.shiftr_div_pow2 by lia.
  rewrite land_255; [reflexivity|].
  apply Z.div_pos; [lia|]. apply Z.pow_pos_nonneg; lia.
Qed.

Lemma byte_at_range (argb shift : Z) : 0 <= byte_at argb shift < 256.
Proof. unfold byte_at. apply Z.mod_pos_bound. lia. Qed.

Lemma bytes_all (b : Z) : 0 <= b < 256 -> In b bytes.
Proof.
  intro H. unfold bytes. apply in_map_iff. exists (Z.to_nat b). split.
  - lia.
  - apply in_seq. lia.
Qed.

Lemma channel_close_all : forallb channel_close bytes = true.
Proof. vm_compute. reflexivity. Qed.

Lemma channel_close_byte (b : Z) :
  0 <= b < 256 ->
  exists n, div float (of_Z float b) (of_Z float 255) = Fin n /\
            Z.abs (255 * n - b * 2 ^ 149) <= 2 ^ 139 /\
            0 <= n <= 2 ^ 149.
Proof.
  intro H. pose proof channel_close_all as A.
  rewrite forallb_forall in A. specialize (A b (bytes_all b H)).
  unfold channel_close in A.
  destruct (div float (of_Z float b) (of_Z float 255)) as [| | |n];
    try discriminate.
  exists n. split; [reflexivity|].
  apply andb_prop in A. destruct A as [A A3].
  apply andb_prop in A. destruct A as [A1 A2].
  apply Z.leb_le in A1, A2, A3. repeat split; assumption.
Qed.

Lemma pow139 : 0 < 2 ^ 139 /\ 2 ^ 149 = 1024 * 2 ^ 139.
Proof.
  split.
  - apply Z.pow_pos_nonneg; lia.
  - change (2 ^ 149) with (2 ^ 10 * 2 ^ 139). reflexivity.
Qed.

Lemma byte_float_injective (a b : Z) :
  0 <= a < 256 -> 0 <= b < 256 ->
  div float (of_Z float a) (of_Z float 255) =
  div float (of_Z float b) (of_Z float 255) ->
  a = b.
Proof.
  intros Ha Hb E.
  destruct (channel_close_byte a Ha) as [n [En [Cn _]]].
  destruct (channel_close_byte b Hb) as [m [Em [Cm _]]].
  rewrite En, Em in E. injection E as E. subst m.
  destruct pow139 as [P Q]. rewrite Q in Cn, Cm.
  clear - Cn Cm P. nia.
Qed.

Lemma bytes_reassemble (argb : Z) :
  CInt.is_u32 argb ->
  argb = byte_at argb 24 * 2 ^ 24 + byte_at argb 16 * 2 ^ 16 +
         byte_at argb 8 * 2 ^ 8 + byte_at argb 0.
Proof.
  unfold CInt.is_u32, byte_at. intro H.
  change (2 ^ 32) with 4294967296 in H.
  change (2 ^ 24) with 16777216. change (2 ^ 16) with 65536.
  change (2 ^ 8) with 256. change (2 ^ 0) with 1.
  rewrite Z.div_1_r.
  assert (T : (argb / 16777216) mod 256 = argb / 16777216).
  { apply Z.mod_small. split.
    - apply Z.div_pos; lia.
    - apply Z.div_lt_upper_bound; lia. }
  rewrite T. clear T.
  replace (argb / 16777216) with (argb / 65536 / 256)
    by (rewrite Z.div_div by lia; reflexivity).
  replace (argb / 65536) with (argb / 256 / 256)
    by (rewrite Z.div_div by lia; reflexivity).
  pose proof (Z.div_mod argb 256).
  pose proof (Z.div_mod (argb / 256) 256).
  pose proof (Z.div_mod (argb / 256 / 256) 256).
  lia.
Qed.

(** X3.  [ARGBToImVec4] loses nothing: two 32-bit colours with the same
    four [float] components are the same colour. *)
Theorem ARGBToImVec4_injective (a b : Z) :
  CInt.is_u32 a -> CInt.is_u32 b ->
  ARGBToImVec4 a = ARGBToImVec4 b -> a = b.
Proof.
  intros Ha Hb E. unfold ARGBToImVec4 in E.
  assert (A0 : 0 <= a) by (destruct Ha; assumption).
  assert (B0 : 0 <= b) by (destruct Hb; assumption).
  rewrite !channel_byte in E by lia.
  injection E as E16 E8 E0 E24.
  apply byte_float_injective in E16; try apply byte_at_range.
  apply byte_float_injective in E8; try apply byte_at_range.
  apply byte_float_injective in E0; try apply byte_at_range.
  apply byte_float_injective in E24; try apply byte_at_range.
  rewrite (bytes_reassemble a Ha), (bytes_reassemble b Hb).
  rewrite E16, E8, E0, E24. reflexivity.
Qed.

Lemma ARGBToImVec4_injective_at_opaque_red :
  ARGBToImVec4 4294901760 = ARGBToImVec4 (255 * 2 ^ 24 + 255 * 2 ^ 16) /\
  4294901760 = 255 * 2 ^ 24 + 255 * 2 ^ 16.
Proof.
  split; [reflexivity|].
  apply (ARGBToImVec4_injective 4294901760 (255 * 2 ^ 24 + 255 * 2 ^ 16)).
  - unfold CInt.is_u32. lia.
  - unfold CInt.is_u32. lia.
  - reflexivity.
Defined.

(** X4.  Every component [ARGBToImVec4] produces is a finite [float]
    between 0 and 1, and the alpha component is exactly 1 only for the
    alpha byte 255 and exactly 0 only for the alpha byte 0. *)
Theorem ARGBToImVec4_components_in_unit_interval (argb : Z) :
  CInt.is_u32 argb ->
  unit_interval (ImVec4.x (ARGBToImVec4 argb)) /\
  unit_interval (ImVec4.y (ARGBToImVec4 argb)) /\
  unit_interval (ImVec4.z (ARGBToImVec4 argb)) /\
  unit_interval (ImVec4.w (ARGBToImVec4 argb)) /\
  (ImVec4.w (ARGBToImVec4 argb) = of_Z float 1 <-> byte_at argb 24 = 255) /\
  (ImVec4.w (ARGBToImVec4 argb) = of_Z float 0 <-> byte_at argb 24 = 0).
Proof.
  intros [H0 H1]. unfold ARGBToImVec4. cbn [ImVec4.x ImVec4.y ImVec4.z ImVec4.w].
  rewrite !channel_byte by lia.
  assert (U : forall shift,
             unit_interval (div float (of_Z float (byte_at argb shift))
                                      (of_Z float 255))).
  { intro shift.
    destruct (channel_close_byte _ (byte_at_range argb shift))
      as [n [En [_ Rn]]].
    exists n. split; assumption. }
  repeat (split; [apply U|]).
  destruct (channel_close_byte _ (byte_at_range argb 24)) as [n [En [Cn _]]].
  pose proof (byte_at_range argb 24) as R.
  rewrite En. unfold float in *.
  rewrite (of_Z_exact 1), (of_Z_exact 0) by lia.
  destruct pow139 as [P Q].
  assert (One : div binary32 (of_Z binary32 255) (of_Z binary32 255) =
                Fin (1 * 2 ^ 149)) by (vm_compute; reflexivity).
  assert (Zero : div binary32 (of_Z binary32 0) (of_Z binary32 255) =
                 Fin (0 * 2 ^ 149)) by (vm_compute; reflexivity).
  split; split; intro E.
  - injection E as E. rewrite Q in *. clear - E Cn P R. nia.
  - rewrite E in En. rewrite <- En. exact One.
  - injection E as E. rewrite Q in *. clear - E Cn P R. nia.
  - rewrite E in En. rewrite <- En. exact Zero.
Qed.

Lemma ARGBToImVec4_components_of_opaque_red :
  unit_interval (ImVec4.x (ARGBToImVec4 4294901760)) /\
  unit_interval (ImVec4.y (ARGBToImVec4 4294901760)) /\
  unit_interval (ImVec4.z (ARGBToImVec4 4294901760)) /\
  unit_interval (ImVec4.w (ARGBToImVec4 4294901760)) /\
  (ImVec4.w (ARGBToImVec4 4294901760) = of_Z float 1 <->
   byte_at 4294901760 24 = 255) /\
  (ImVec4.w (ARGBToImVec4 4294901760) = of_Z float 0 <->
   byte_at 4294901760 24 = 0).
Proof.
  apply (ARGBToImVec4_components_in_unit_interval 4294901760).
  unfold CInt.is_u32. lia.
Defined.

(** *** One pass with the setting enabled *)

Lemma DrawMessages_from_length (draw_messages : bool) (now : Z)
    (s : Messages) :
  forall index,
    (List.length (fst (DrawMessages_from draw_messages now index s)) <=
     List.length s)%nat.
Proof.
  intro index. rewrite DrawMessages_from_live, length_map.
  apply filter_length_le.
Qed.

Lemma DrawMessages_from_indices (now : Z) (s : Messages) :
  forall index,
    0 <= index -> index + Z.of_nat (List.length s) < 2 ^ 31 ->
    map dc_index (snd (DrawMessages_from true now index s)) =
    map (fun k => index + Z.of_nat k)
        (seq 0 (List.length (fst (DrawMessages_from true now index s)))).
Proof.
  induction s as [|[type msg] rest IH]; intros index H0 H1.
  - reflexivity.
  - cbn [DrawMessages_from]. cbn [List.length] in H1.
    destruct (expired now msg).
    + apply IH; lia.
    + unfold DrawMessage.
      assert (A : CInt.add index 1 = index + 1).
      { apply to_int_id. unfold CInt.is_int, CInt.INT_MIN, CInt.INT_MAX.
        lia. }
      specialize (IH (CInt.add index 1)).
      destruct (DrawMessages_from true now (CInt.add index 1) rest)
        as [s' calls].
      cbn [fst snd map List.length seq dc_index] in *.
      rewrite IH by (rewrite A; lia).
      rewrite <- seq_shift, map_map. f_equal; [lia|].
      apply map_ext. intro k. rewrite A. lia.
Qed.

Lemma NoDup_of_nat_seq (n : nat) :
  forall a, NoDup (map Z.of_nat (seq a n)).
Proof.
  induction n as [|n IH]; intro a; cbn [seq map].
  - constructor.
  - constructor; [|apply IH].
    intro I. apply in_map_iff in I. destruct I as [k [E I]].
    apply in_seq in I. lia.
Qed.

(** X5.  In one pass the windows are numbered 0, 1, 2, ... in the order
    drawn, so that no two windows of a pass share the name [osd_<index>];
    this holds for any set of fewer than [2^31] messages. *)
Theorem DrawMessages_numbers_windows_consecutively (now : Z) (s : Messages) :
  Z.of_nat (List.length s) < 2 ^ 31 ->
  map dc_index (snd (DrawMessages true now s)) =
  map Z.of_nat (seq 0 (List.length (snd (DrawMessages true now s)))) /\
  NoDup (map dc_index (snd (DrawMessages true now s))).
Proof.
  intro H.
  assert (L : List.length (snd (DrawMessages true now s)) =
              List.length (fst (DrawMessages true now s))).
  { unfold DrawMessages.
    rewrite <- (length_map dc_index), DrawMessages_from_indices by lia.
    rewrite length_map, length_seq. reflexivity. }
  assert (E : map dc_index (snd (DrawMessages true now s)) =
              map Z.of_nat
                (seq 0 (List.length (snd (DrawMessages true now s))))).
  { rewrite L. unfold DrawMessages.
    rewrite DrawMessages_from_indices by lia.
    apply map_ext. intro k. lia. }
  split; [exact E|].
  rewrite E. apply NoDup_of_nat_seq.
Qed.

Lemma DrawMessages_numbers_three_windows :
  map dc_index
    (snd (DrawMessages true 100
            [(Slot 0, newMessage 0 "fps" 2000 0);
             (Typeless, newMessage 0 "saved" 2000 0);
             (Typeless, newMessage 50 "loaded" 2000 0)])) = [0; 1; 2] /\
  NoDup [0; 1; 2].
Proof.
  destruct (DrawMessages_numbers_windows_consecutively 100
              [(Slot 0, newMessage 0 "fps" 2000 0);
               (Typeless, newMessage 0 "saved" 2000 0);
               (Typeless, newMessage 50 "loaded" 2000 0)]) as [E N].
  - cbn [List.length]. lia.
  - split.
    + rewrite E. vm_compute. reflexivity.
    + repeat constructor; cbn; intuition lia.
Defined.

Lemma DrawMessages_from_windows (now : Z) (s : Messages) :
  forall index,
    map dc_text (snd (DrawMessages_from true now index s)) =
    map (fun kv => text (snd kv))
        (fst (DrawMessages_from true now index s)) /\
    map dc_color (snd (DrawMessages_from true now index s)) =
    map (fun kv => color (snd kv))
        (fst (DrawMessages_from true now index s)).
Proof.
  induction s as [|[type msg] rest IH]; intro index.
  - split; reflexivity.
  - cbn [DrawMessages_from]. destruct (expired now msg).
    + apply IH.
    + unfold DrawMessage. specialize (IH (CInt.add index 1)).
      destruct (DrawMessages_from true now (CInt.add index 1) rest)
        as [s' calls].
      cbn [fst snd map dc_text dc_color text color] in *.
      destruct IH as [IH1 IH2]. rewrite IH1, IH2. split; reflexivity.
Qed.

(** X6.  A pass with the setting enabled draws exactly one window for each
    message it keeps, in the order of the set, with that message's text and
    colour, and leaves every message it keeps marked as drawn. *)
Theorem DrawMessages_draws_each_survivor_once (now : Z) (s : Messages) :
  map dc_text (snd (DrawMessages true now s)) =
  map (fun kv => text (snd kv)) (fst (DrawMessages true now s)) /\
  map dc_color (snd (DrawMessages true now s)) =
  map (fun kv => color (snd kv)) (fst (DrawMessages true now s)) /\
  Forall (fun kv => ever_drawn (snd kv) = true)
         (fst (DrawMessages true now s)).
Proof.
  unfold DrawMessages.
  destruct (DrawMessages_from_windows now s 0) as [T C].
  repeat split; [exact T | exact C |].
  rewrite DrawMessages_from_live. apply Forall_forall.
  intros kv I. apply in_map_iff in I. destruct I as [kv' [E _]].
  subst kv. reflexivity.
Qed.

Lemma TimeRemaining_after_pass (draw_messages : bool) (now : Z)
    (kv : MessageType * Message) :
  TimeRemaining now (snd (after_pass draw_messages kv)) =
  TimeRemaining now (snd kv).
Proof. destruct draw_messages; reflexivity. Qed.

(** X7.  Once a pass has drawn the messages, the next pass, whatever the
    setting, keeps no message whose time has run out: each message it keeps
    has time remaining. *)
Theorem pass_after_drawing_keeps_only_unexpired
    (draw_messages : bool) (now1 now2 : Z) (s : Messages) :
  Forall (fun kv => 0 < TimeRemaining now2 (snd kv))
    (fst (DrawMessages draw_messages now2
            (fst (DrawMessages true now1 s)))).
Proof.
  unfold DrawMessages. rewrite !DrawMessages_from_live.
  apply Forall_forall. intros kv I.
  apply in_map_iff in I. destruct I as [kv1 [E I]]. subst kv.
  rewrite TimeRemaining_after_pass.
  apply filter_In in I. destruct I as [I X].
  apply in_map_iff in I. destruct I as [kv0 [E _]]. subst kv1.
  unfold expired in X. cbn [after_pass snd ever_drawn] in X.
  rewrite orb_true_l, andb_true_r in X.
  apply negb_true_iff, Z.leb_gt in X. exact X.
Qed.

(** *** Adding messages *)

Lemma messages_of_emplace_other (type type' : MessageType) (msg : Message)
    (s : Messages) :
  type <> type' ->
  messages_of type' (emplace type msg s) = messages_of type' s.
Proof.
  intro N. unfold messages_of.
  induction s as [|[k m] rest IH]; cbn [emplace fst].
  - cbn [filter fst]. rewrite (MessageType_eqb_neq _ _ N). reflexivity.
  - destruct (MessageType_ltb type k).
    + cbn [filter fst]. rewrite (MessageType_eqb_neq _ _ N). reflexivity.
    + cbn [filter fst]. destruct (MessageType_eqb k type').
      * cbn [map]. rewrite IH. reflexivity.
      * exact IH.
Qed.

Lemma messages_of_erase_other (type type' : MessageType) (s : Messages) :
  type <> type' ->
  messages_of type' (erase type s) = messages_of type' s.
Proof.
  intro N. unfold messages_of, erase.
  induction s as [|[k m] rest IH]; [reflexivity|].
  cbn [filter fst].
  destruct (MessageType_eqb k type) eqn:K; cbn [negb].
  - apply MessageType_eqb_eq in K. subst k.
    rewrite (MessageType_eqb_neq _ _ N). exact IH.
  - cbn [filter fst]. destruct (MessageType_eqb k type').
    + cbn [map]. rewrite IH. reflexivity.
    + exact IH.
Qed.

Lemma emplace_Typeless (msg : Message) (s : Messages) :
  emplace Typeless msg s = s ++ [(Typeless, msg)].
Proof.
  induction s as [|kv rest IH]; [reflexivity|].
  cbn [emplace MessageType_ltb app]. rewrite IH. reflexivity.
Qed.

(** X8.  Adding a message disturbs no message of another category:
    [AddTypedMessage] leaves the messages of every other category as they
    were, in their order, and its own category holds the new message alone;
    [AddMessage] leaves every typed category as it was and puts the new
    message after the earlier [Typeless] ones, all of which it keeps. *)
Theorem adding_keeps_the_other_categories
    (now : Z) (type : MessageType) (message : string) (ms argb : Z)
    (s : Messages) :
  (forall type', type <> type' ->
     messages_of type' (AddTypedMessage now type message ms argb s) =
     messages_of type' s) /\
  messages_of type (AddTypedMessage now type message ms argb s) =
  [newMessage now message ms argb] /\
  (forall type', Typeless <> type' ->
     messages_of type' (AddMessage now message ms argb s) =
     messages_of type' s) /\
  messages_of Typeless (AddMessage now message ms argb s) =
  messages_of Typeless s ++ [newMessage now message ms argb].
Proof.
  unfold AddTypedMessage, AddMessage. repeat split.
  - intros type' N.
    rewrite messages_of_emplace_other, messages_of_erase_other by exact N.
    reflexivity.
  - apply messages_of_emplace_fresh, messages_of_erase.
  - intros type' N. apply messages_of_emplace_other. exact N.
  - rewrite emplace_Typeless. unfold messages_of.
    rewrite filter_app, map_app. reflexivity.
Qed.

End QueueFacts.

(* ================================================================= *)
(** ** More about rectangles *)

Module ClampFacts.

Import Present CIntFacts RectangleFacts.

(** One step through the blocks of [AdjustRectanglesToFitBounds]: a test
    is decided, or an [int] operation is split into its result and its
    overflow. *)
Ltac peel_blocks :=
  repeat first
    [ progress cbn [CInt.bind left top right bottom]
    | match goal with
      | |- context [CInt.bind ?o _] =>
          let E := fresh "E" in
          destruct o eqn:E; [|cbn [CInt.bind]; discriminate]
      | |- context [if ?a <? ?b then _ else _] =>
          destruct (Z.ltb_spec a b)
      end ].

Ltac checked_facts :=
  repeat match goal with
    | E : CInt.checked_sub _ _ = Some _ |- _ =>
        apply checked_Some in E; destruct E as [-> _]
    end.

Lemma AdjustRectanglesToFitBounds_target
    (GetWidth GetHeight : Rectangle -> Z) (target source t s : Rectangle)
    (fb_width fb_height : Z) :
  CInt.is_int fb_width -> CInt.is_int fb_height ->
  AdjustRectanglesToFitBounds GetWidth GetHeight target source
    fb_width fb_height = Some (t, s) ->
  t = {| left := Z.max (left target) 0;
         top := Z.max (top target) 0;
         right := Z.min (right target) fb_width;
         bottom := Z.min (bottom target) fb_height |}.
Proof.
  intros _ _.
  destruct target as [tl tu tr tb], source as [sl su sr sb].
  unfold AdjustRectanglesToFitBounds.
  peel_blocks; intro R; injection R as <- _; checked_facts;
    f_equal; lia.
Qed.

Lemma AdjustRectanglesToFitBounds_inside
    (GetWidth GetHeight : Rectangle -> Z) (target source : Rectangle)
    (fb_width fb_height : Z) :
  CInt.is_int fb_width -> CInt.is_int fb_height ->
  inside fb_width fb_height target ->
  AdjustRectanglesToFitBounds GetWidth GetHeight target source
    fb_width fb_height = Some (target, source).
Proof.
  intros _ _ (Hl & Hr & Ht & Hb).
  unfold AdjustRectanglesToFitBounds.
  destruct (Z.ltb_spec (left target) 0); [lia|].
  destruct (Z.ltb_spec fb_width (right target)); [lia|].
  destruct (Z.ltb_spec (top target) 0); [lia|].
  destruct (Z.ltb_spec fb_height (bottom target)); [lia|].
  reflexivity.
Qed.

(** X9.  Whenever [AdjustRectanglesToFitBounds] has a result, the target
    rectangle it returns is the one passed in cut off at the bounds: no
    side lies outside [[0, fb_width] x [0, fb_height]] on its own side, and
    a side is moved only to the bound. *)
Theorem AdjustRectanglesToFitBounds_target_cut_to_bounds
    (GetWidth GetHeight : Rectangle -> Z) (target source t s : Rectangle)
    (fb_width fb_height : Z) :
  CInt.is_int fb_width -> CInt.is_int fb_height ->
  AdjustRectanglesToFitBounds GetWidth GetHeight target source
    fb_width fb_height = Some (t, s) ->
  inside fb_width fb_height t /\
  t = {| left := Z.max (left target) 0;
         top := Z.max (top target) 0;
         right := Z.min (right target) fb_width;
         bottom := Z.min (bottom target) fb_height |}.
Proof.
  intros Bw Bh E.
  pose proof (AdjustRectanglesToFitBounds_target _ _ _ _ _ _ _ _ Bw Bh E)
    as T.
  split; [|exact T]. subst t. unfold inside. cbn [left top right bottom].
  lia.
Qed.

Lemma AdjustRectanglesToFitBounds_cuts_oversized_target :
  inside 200 100 {| left := 0; top := 0; right := 200; bottom := 100 |} /\
  {| left := 0; top := 0; right := 200; bottom := 100 |} =
  {| left := Z.max (-20) 0; top := Z.max (-10) 0;
     right := Z.min 220 200; bottom := Z.min 110 100 |}.
Proof.
  apply (AdjustRectanglesToFitBounds_target_cut_to_bounds
           Rectangle_GetWidth Rectangle_GetHeight
           {| left := -20; top := -10; right := 220; bottom := 110 |}
           {| left := 0; top := 0; right := 640; bottom := 480 |}
           {| left := 0; top := 0; right := 200; bottom := 100 |}
           {| left := 53; top := 40; right := 587; bottom := 440 |}
           200 100).
  - split; vm_compute; discriminate.
  - split; vm_compute; discriminate.
  - vm_compute. reflexivity.
Defined.

(** X10.  [AdjustRectanglesToFitBounds] changes nothing when the target
    already lies within the bounds, whatever the extents (no quotient is
    taken, so the call is defined even for an empty target); hence applying
    it to its own result changes nothing. *)
Theorem AdjustRectanglesToFitBounds_idempotent
    (GetWidth GetHeight : Rectangle -> Z) (target source t s : Rectangle)
    (fb_width fb_height : Z) :
  CInt.is_int fb_width -> CInt.is_int fb_height ->
  (inside fb_width fb_height target ->
   AdjustRectanglesToFitBounds GetWidth GetHeight target source
     fb_width fb_height = Some (target, source)) /\
  (AdjustRectanglesToFitBounds GetWidth GetHeight target source
     fb_width fb_height = Some (t, s) ->
   AdjustRectanglesToFitBounds GetWidth GetHeight t s
     fb_width fb_height = Some (t, s)).
Proof.
  intros Bw Bh. split.
  - apply AdjustRectanglesToFitBounds_inside; assumption.
  - intro E. apply AdjustRectanglesToFitBounds_inside; try assumption.
    pose proof (AdjustRectanglesToFitBounds_target _ _ _ _ _ _ _ _ Bw Bh E)
      as T.
    subst t. unfold inside. cbn [left top right bottom]. lia.
Qed.

Lemma AdjustRectanglesToFitBounds_idempotent_example :
  AdjustRectanglesToFitBounds Rectangle_GetWidth Rectangle_GetHeight
    {| left := 0; top := 0; right := 0; bottom := 0 |}
    {| left := 0; top := 0; right := 640; bottom := 480 |} 200 100 =
  Some ({| left := 0; top := 0; right := 0; bottom := 0 |},
        {| left := 0; top := 0; right := 640; bottom := 480 |}) /\
  AdjustRectanglesToFitBounds Rectangle_GetWidth Rectangle_GetHeight
    {| left := 0; top := 0; right := 200; bottom := 100 |}
    {| left := 53; top := 40; right := 587; bottom := 440 |} 200 100 =
  Some ({| left := 0; top := 0; right := 200; bottom := 100 |},
        {| left := 53; top := 40; right := 587; bottom := 440 |}).
Proof.
  assert (Bw : CInt.is_int 200) by (split; vm_compute; discriminate).
  assert (Bh : CInt.is_int 100) by (split; vm_compute; discriminate).
  split.
  - destruct (AdjustRectanglesToFitBounds_idempotent
                Rectangle_GetWidth Rectangle_GetHeight
                {| left := 0; top := 0; right := 0; bottom := 0 |}
                {| left := 0; top := 0; right := 640; bottom := 480 |}
                {| left := 0; top := 0; right := 0; bottom := 0 |}
                {| left := 0; top := 0; right := 640; bottom := 480 |}
                200 100 Bw Bh) as [N _].
    apply N. unfold inside. cbn [left top right bottom]. lia.
  - destruct (AdjustRectanglesToFitBounds_idempotent
                Rectangle_GetWidth Rectangle_GetHeight
                {| left := -20; top := -10; right := 220; bottom := 110 |}
                {| left := 0; top := 0; right := 640; bottom := 480 |}
                {| left := 0; top := 0; right := 200; bottom := 100 |}
                {| left := 53; top := 40; right := 587; bottom := 440 |}
                200 100 Bw Bh) as [_ I].
    apply I. vm_compute. reflexivity.
Defined.

Lemma quot_floor (a b : Z) :
  0 <= a -> 0 < b -> 0 <= Z.quot a b /\ Z.quot a b * b <= a.
Proof.
  intros Ha Hb. rewrite Z.quot_div_nonneg by lia. split.
  - apply Z.div_pos; lia.
  - rewrite Z.mul_comm. apply Z.mul_div_le. exact Hb.
Qed.

Lemma scaled_within (q offset extent target_extent : Z) :
  q * target_extent <= offset * extent ->
  0 <= offset <= target_extent -> 0 <= extent -> 0 < target_extent ->
  q <= extent.
Proof.
  intros Hq Ho He Ht.
  apply (Z.mul_le_mono_pos_r _ _ target_extent Ht).
  assert (offset * extent <= target_extent * extent)
    by (apply Z.mul_le_mono_nonneg_r; lia).
  lia.
Qed.

(** X22.  Take rectangles with coordinates of at most [2^14], neither of
    them flipped (left <= right, top <= bottom, the extents being the
    distances between the sides), a target of positive extents and bounds
    that the target overlaps or touches.  Then
    [AdjustRectanglesToFitBounds] has a result, and the source rectangle it
    returns lies within the one passed in and is not flipped either: the
    two amounts cut off an axis never add up to more than its extent. *)
Theorem AdjustRectanglesToFitBounds_source_stays_within
    (GetWidth GetHeight : Rectangle -> Z) (target source : Rectangle)
    (fb_width fb_height : Z) :
  modest_rectangle target -> modest_rectangle source ->
  modest fb_width -> modest fb_height ->
  upright GetWidth GetHeight source ->
  upright GetWidth GetHeight target ->
  0 < GetWidth target -> 0 < GetHeight target ->
  overlaps fb_width fb_height target ->
  exists t s,
    AdjustRectanglesToFitBounds GetWidth GetHeight target source
      fb_width fb_height = Some (t, s) /\
    left source <= left s <= right s /\ right s <= right source /\
    top source <= top s <= bottom s /\ bottom s <= bottom source.
Proof.
  intros T S Bw Bh (Sx & Sy & Sw & Sh) (Tx & Ty & Tw & Th) Pw Ph
    (Ow & Ol & Or & Oh & Ot & Ob).
  assert (P14 : 2 ^ 14 = 16384) by reflexivity.
  assert (P15 : 2 ^ 15 = 32768) by reflexivity.
  assert (Aw : Z.abs (GetWidth source) <= 2 ^ 15).
  { destruct S as (? & ? & ? & ?). unfold modest in *.
    rewrite Sw, Z.abs_le. lia. }
  assert (Ah : Z.abs (GetHeight source) <= 2 ^ 15).
  { destruct S as (? & ? & ? & ?). unfold modest in *.
    rewrite Sh, Z.abs_le. lia. }
  rewrite (AdjustRectanglesToFitBounds_sides _ _ _ _ _ _ T S Bw Bh Aw Ah).
  unfold clamp_low, clamp_high.
  replace (GetWidth target =? 0) with false
    by (symmetry; apply Z.eqb_neq; lia).
  replace (GetHeight target =? 0) with false
    by (symmetry; apply Z.eqb_neq; lia).
  set (sw := GetWidth source) in *. set (sh := GetHeight source) in *.
  set (tw := GetWidth target) in *. set (th := GetHeight target) in *.
  assert (Nw : 0 <= sw) by lia. assert (Nh : 0 <= sh) by lia.
  destruct (Z.ltb_spec (left target) 0) as [L|L];
    destruct (Z.ltb_spec fb_width (right target)) as [R|R];
    destruct (Z.ltb_spec (top target) 0) as [U|U];
    destruct (Z.ltb_spec fb_height (bottom target)) as [B|B];
    eexists _, _; (split; [reflexivity|]); cbn [left top right bottom];
    try (destruct (quot_floor (- left target * sw) tw) as [L0 L1];
         [apply Z.mul_nonneg_nonneg; lia|lia|]);
    try (destruct (quot_floor ((right target - fb_width) * sw) tw)
           as [R0 R1]; [apply Z.mul_nonneg_nonneg; lia|lia|]);
    try (destruct (quot_floor (- top target * sh) th) as [U0 U1];
         [apply Z.mul_nonneg_nonneg; lia|lia|]);
    try (destruct (quot_floor ((bottom target - fb_height) * sh) th)
           as [B0 B1]; [apply Z.mul_nonneg_nonneg; lia|lia|]);
    try (assert (Z.quot (- left target * sw) tw
                 + Z.quot ((right target - fb_width) * sw) tw <= sw)
           by (apply (scaled_within _
                        (- left target + (right target - fb_width)) sw tw);
               lia));
    try (assert (Z.quot (- top target * sh) th
                 + Z.quot ((bottom target - fb_height) * sh) th <= sh)
           by (apply (scaled_within _
                        (- top target + (bottom target - fb_height)) sh th);
               lia));
    try (assert (Z.quot (- left target * sw) tw <= sw)
           by (apply (scaled_within _ (- left target) sw tw); lia));
    try (assert (Z.quot ((right target - fb_width) * sw) tw <= sw)
           by (apply (scaled_within _ (right target - fb_width) sw tw);
               lia));
    try (assert (Z.quot (- top target * sh) th <= sh)
           by (apply (scaled_within _ (- top target) sh th); lia));
    try (assert (Z.quot ((bottom target - fb_height) * sh) th <= sh)
           by (apply (scaled_within _ (bottom target - fb_height) sh th);
               lia));
    lia.
Qed.

Lemma AdjustRectanglesToFitBounds_keeps_640x480_source_within :
  exists t s,
    AdjustRectanglesToFitBounds Rectangle_GetWidth Rectangle_GetHeight
      {| left := -20; top := -10; right := 220; bottom := 110 |}
      {| left := 0; top := 0; right := 640; bottom := 480 |} 200 100 =
    Some (t, s) /\
    0 <= left s <= right s /\ right s <= 640 /\
    0 <= top s <= bottom s /\ bottom s <= 480.
Proof.
  apply (AdjustRectanglesToFitBounds_source_stays_within
           Rectangle_GetWidth Rectangle_GetHeight
           {| left := -20; top := -10; right := 220; bottom := 110 |}
           {| left := 0; top := 0; right := 640; bottom := 480 |} 200 100).
  - repeat split; vm_compute; discriminate.
  - repeat split; vm_compute; discriminate.
  - split; vm_compute; discriminate.
  - split; vm_compute; discriminate.
  - repeat split; vm_compute; (discriminate || reflexivity).
  - repeat split; vm_compute; (discriminate || reflexivity).
  - reflexivity.
  - reflexivity.
  - repeat split; vm_compute; discriminate.
Defined.

End ClampFacts.

(* ================================================================= *)
(** ** More about the stereo rectangles *)

Module StereoFacts.

Import Present CIntFacts RectangleFacts.

Lemma ConvertStereoRectangle_exact
    (c : Context) (p : Presenter) (rc : Rectangle) :
  small (left rc) -> small (top rc) -> small (right rc) -> small (bottom rc) ->
  small (m_backbuffer_width p) -> small (m_backbuffer_height p) ->
  ConvertStereoRectangle c p rc =
  if is_TAB (stereo_mode c) then
    let q := Z.quot (bottom rc - top rc) 4 in
    let Q := Z.quot (m_backbuffer_height p) 4 in
    ({| left := left rc; top := top rc + q - Q;
        right := right rc; bottom := bottom rc - q - Q |},
     {| left := left rc; top := top rc + q + Q;
        right := right rc; bottom := bottom rc - q + Q |})
  else
    let q := Z.quot (right rc - left rc) 4 in
    let Q := Z.quot (m_backbuffer_width p) 4 in
    ({| left := left rc + q - Q; top := top rc;
        right := right rc - q - Q; bottom := bottom rc |},
     {| left := left rc + q + Q; top := top rc;
        right := right rc - q + Q; bottom := bottom rc |}).
Proof.
  unfold small. intros Hl Ht Hr Hb Hw Hh.
  assert (P28 : 2 ^ 28 = 268435456) by reflexivity.
  assert (P29 : 2 ^ 29 = 536870912) by reflexivity.
  assert (P30 : 2 ^ 30 = 1073741824) by reflexivity.
  assert (P27 : 2 ^ 27 = 134217728) by reflexivity.
  pose proof (quot4_small (m_backbuffer_width p) ltac:(lia)) as Qw.
  pose proof (quot4_small (m_backbuffer_height p) ltac:(lia)) as Qh.
  pose proof (quot4_small (bottom rc - top rc) ltac:(lia)) as Qv.
  pose proof (quot4_small (right rc - left rc) ltac:(lia)) as Qu.
  unfold ConvertStereoRectangle, CInt.div4.
  destruct (is_TAB (stereo_mode c)); cbn [left top right bottom].
  - rewrite (sub_exact (bottom rc) (top rc)) by lia.
    rewrite (add_exact (top rc)), (sub_exact (bottom rc)) by lia.
    rewrite !sub_exact, !add_exact by lia.
    reflexivity.
  - rewrite (sub_exact (right rc) (left rc)) by lia.
    rewrite (add_exact (left rc)), (sub_exact (right rc)) by lia.
    rewrite !sub_exact, !add_exact by lia.
    reflexivity.
Qed.

Lemma quot4_le (a b : Z) : 0 <= a <= b -> Z.quot a 4 <= Z.quot b 4.
Proof. intro H. apply Z.quot_le_mono; lia. Qed.

Lemma quot4_exact (a : Z) : Z.rem a 4 = 0 -> a = 4 * Z.quot a 4.
Proof. intro H. pose proof (Z.quot_rem' a 4). lia. Qed.

(** X11.  The two rectangles of [ConvertStereoRectangle] have the same
    width and the same height and differ only by a shift along the split
    axis: vertical in top-and-bottom mode, horizontal in any other mode.
    When the input's extent along that axis is a multiple of four between
    0 and the backbuffer's, the first rectangle ends where the second
    begins or before it, so the two eyes never overlap. *)
Theorem ConvertStereoRectangle_eyes_congruent_and_apart
    (c : Context) (p : Presenter) (rc : Rectangle) :
  small (left rc) -> small (top rc) -> small (right rc) -> small (bottom rc) ->
  small (m_backbuffer_width p) -> small (m_backbuffer_height p) ->
  let left_rc := fst (ConvertStereoRectangle c p rc) in
  let right_rc := snd (ConvertStereoRectangle c p rc) in
  right left_rc - left left_rc = right right_rc - left right_rc /\
  bottom left_rc - top left_rc = bottom right_rc - top right_rc /\
  (if is_TAB (stereo_mode c)
   then left left_rc = left rc /\ right left_rc = right rc /\
        left right_rc = left rc /\ right right_rc = right rc /\
        top right_rc - top left_rc =
        2 * Z.quot (m_backbuffer_height p) 4 /\
        (Z.rem (bottom rc - top rc) 4 = 0 ->
         0 <= bottom rc - top rc <= m_backbuffer_height p ->
         bottom left_rc <= top right_rc)
   else top left_rc = top rc /\ bottom left_rc = bottom rc /\
        top right_rc = top rc /\ bottom right_rc = bottom rc /\
        left right_rc - left left_rc =
        2 * Z.quot (m_backbuffer_width p) 4 /\
        (Z.rem (right rc - left rc) 4 = 0 ->
         0 <= right rc - left rc <= m_backbuffer_width p ->
         right left_rc <= left right_rc)).
Proof.
  intros Hl Ht Hr Hb Hw Hh.
  rewrite (ConvertStereoRectangle_exact c p rc Hl Ht Hr Hb Hw Hh).
  destruct (is_TAB (stereo_mode c)); cbn [fst snd left top right bottom].
  - split; [reflexivity|]. split; [lia|].
    repeat (split; [reflexivity || lia|]).
    intros R B. pose proof (quot4_exact _ R).
    pose proof (quot4_le _ _ B). lia.
  - split; [lia|]. split; [reflexivity|].
    repeat (split; [reflexivity || lia|]).
    intros R B. pose proof (quot4_exact _ R).
    pose proof (quot4_le _ _ B). lia.
Qed.

Lemma ConvertStereoRectangle_eyes_of_640x400_in_1000x400 :
  let c := {| aspect_mode := Auto; bCrop := false; stereo_mode := SBS;
              bWidescreenHack := false; GetAspectRatio := lit 1;
              IsGameWidescreen := false |} in
  let p := {| m_backbuffer_width := 1000; m_backbuffer_height := 400;
              m_target_rectangle :=
                {| left := 0; top := 0; right := 0; bottom := 0 |} |} in
  let rc := {| left := 180; top := 0; right := 820; bottom := 400 |} in
  ConvertStereoRectangle c p rc =
  ({| left := 90; top := 0; right := 410; bottom := 400 |},
   {| left := 590; top := 0; right := 910; bottom := 400 |}) /\
  right (fst (ConvertStereoRectangle c p rc)) <=
  left (snd (ConvertStereoRectangle c p rc)).
Proof.
  intros c p rc. split; [vm_compute; reflexivity|].
  assert (S : forall z, - 1000 <= z <= 1000 -> small z).
  { intros z H. unfold small.
    assert (1000 < 2 ^ 28) by (vm_compute; reflexivity). lia. }
  destruct (ConvertStereoRectangle_eyes_congruent_and_apart c p rc)
    as (_ & _ & X); try (apply S; cbn; lia).
  cbn [is_TAB stereo_mode c] in X.
  destruct X as (_ & _ & _ & _ & _ & X).
  apply X.
  - vm_compute. reflexivity.
  - cbn. lia.
Defined.

(** X12.  Given the whole backbuffer, [ConvertStereoRectangle] splits it in
    two halves that meet in the middle: the upper and the lower half in
    top-and-bottom mode when the height is a multiple of four, the left
    and the right half in any other mode when the width is. *)
Theorem ConvertStereoRectangle_halves_the_backbuffer
    (c : Context) (p : Presenter) :
  small (m_backbuffer_width p) -> small (m_backbuffer_height p) ->
  let W := m_backbuffer_width p in
  let H := m_backbuffer_height p in
  let rc := {| left := 0; top := 0; right := W; bottom := H |} in
  (stereo_mode c = TAB -> Z.rem H 4 = 0 ->
   ConvertStereoRectangle c p rc =
   ({| left := 0; top := 0; right := W; bottom := Z.quot H 2 |},
    {| left := 0; top := Z.quot H 2; right := W; bottom := H |})) /\
  (is_TAB (stereo_mode c) = false -> Z.rem W 4 = 0 ->
   ConvertStereoRectangle c p rc =
   ({| left := 0; top := 0; right := Z.quot W 2; bottom := H |},
    {| left := Z.quot W 2; top := 0; right := W; bottom := H |})).
Proof.
  intros Hw Hh W H rc.
  assert (Z0 : small 0).
  { unfold small. assert (0 < 2 ^ 28) by (vm_compute; reflexivity). lia. }
  assert (E := ConvertStereoRectangle_exact c p rc Z0 Z0 Hw Hh Hw Hh).
  cbn [rc left top right bottom] in E. fold W H in E.
  split; intros M R; rewrite E.
  - rewrite M. cbn [is_TAB]. rewrite Z.sub_0_r.
    pose proof (quot4_exact _ R) as Q.
    assert (Q2 : Z.quot H 2 = 2 * Z.quot H 4).
    { rewrite Q at 1. replace (4 * Z.quot H 4) with (2 * Z.quot H 4 * 2)
        by ring.
      apply Z.quot_mul. lia. }
    rewrite Q2. cbv zeta. f_equal; f_equal; lia.
  - rewrite M. rewrite Z.sub_0_r.
    pose proof (quot4_exact _ R) as Q.
    assert (Q2 : Z.quot W 2 = 2 * Z.quot W 4).
    { rewrite Q at 1. replace (4 * Z.quot W 4) with (2 * Z.quot W 4 * 2)
        by ring.
      apply Z.quot_mul. lia. }
    rewrite Q2. cbv zeta. f_equal; f_equal; lia.
Qed.

Lemma ConvertStereoRectangle_halves_1000x400 :
  ConvertStereoRectangle
    {| aspect_mode := Auto; bCrop := false; stereo_mode := TAB;
       bWidescreenHack := false; GetAspectRatio := lit 1;
       IsGameWidescreen := false |}
    {| m_backbuffer_width := 1000; m_backbuffer_height := 400;
       m_target_rectangle :=
         {| left := 0; top := 0; right := 0; bottom := 0 |} |}
    {| left := 0; top := 0; right := 1000; bottom := 400 |} =
  ({| left := 0; top := 0; right := 1000; bottom := 200 |},
   {| left := 0; top := 200; right := 1000; bottom := 400 |}).
Proof.
  assert (S : forall z, - 1000 <= z <= 1000 -> small z).
  { intros z H. unfold small.
    assert (1000 < 2 ^ 28) by (vm_compute; reflexivity). lia. }
  destruct (ConvertStereoRectangle_halves_the_backbuffer
              {| aspect_mode := Auto; bCrop := false; stereo_mode := TAB;
                 bWidescreenHack := false; GetAspectRatio := lit 1;
                 IsGameWidescreen := false |}
              {| m_backbuffer_width := 1000; m_backbuffer_height := 400;
                 m_target_rectangle :=
                   {| left := 0; top := 0; right := 0; bottom := 0 |} |})
    as [T _]; try (apply S; cbn; lia).
  cbn [m_backbuffer_width m_backbuffer_height stereo_mode] in T.
  rewrite T; reflexivity.
Defined.

End StereoFacts.

(* ================================================================= *)
(** ** Presenting a frame *)

Module PresentFacts.

Import IEEE IEEEFacts Float32Facts Present CIntFacts RectangleFacts.
Import LayoutFacts ClampFacts.

(** *** What [UpdateDrawRectangle] leaves alone *)

Lemma UpdateDrawRectangle_backbuffer (c : Context) (p p' : Presenter) :
  UpdateDrawRectangle c p = Some p' ->
  m_backbuffer_width p' = m_backbuffer_width p /\
  m_backbuffer_height p' = m_backbuffer_height p /\
  TargetRectangle c p = Some (m_target_rectangle p').
Proof.
  unfold UpdateDrawRectangle.
  destruct (TargetRectangle c p) as [rc|]; [|discriminate].
  intro E. injection E as <-. repeat split.
Qed.

(** *** The widescreen hack *)

Lemma lit_1 : lit 1 = Fin (2 ^ 149).
Proof.
  unfold lit, float. rewrite (of_Z_exact 1) by lia.
  rewrite Z.mul_1_l. reflexivity.
Qed.

Lemma pow149_pos : 0 < 2 ^ 149.
Proof. apply Z.pow_pos_nonneg; lia. Qed.

Lemma reciprocal_le_one (x : ieee) :
  ltb (Fin (2 ^ 149)) x = true ->
  leb (div binary32 (Fin (2 ^ 149)) x) (Fin (2 ^ 149)) = true.
Proof.
  pose proof pow149_pos as U.
  destruct x as [ | s | | m]; unfold ltb, num.
  - discriminate.
  - intro S. apply negb_true_iff in S. subst s.
    unfold div, sign. replace (2 ^ 149 <? 0) with false
      by (symmetry; apply Z.ltb_ge; lia).
    cbn [xorb zero leb num]. apply Z.leb_le. lia.
  - intro S. apply Z.ltb_lt in S. lia.
  - intro S. apply Z.ltb_lt in S.
    rewrite div_Fin_pos by lia.
    destruct (round_ratio_le binary32 prec32
                (2 ^ 149 * 2 ^ scale binary32) m (2 ^ 149))
      as [n [E [_ N]]].
    + lia.
    + apply anchor_pow2. lia.
    + apply pow2_le_top. lia.
    + rewrite scale32. nia.
    + rewrite E. unfold leb, num. apply Z.leb_le. exact N.
Qed.

(** X15.  Of the two widescreen-hack factors [UpdateDrawRectangle]
    publishes, one is always exactly 1; both are 1 when the hack is off;
    and unless the ratio [adjust] is not a number, neither factor exceeds
    1. *)
Theorem AspectRatioHack_narrows_one_axis (c : Context) (p : Presenter) :
  (fst (AspectRatioHack c p) = lit 1 \/ snd (AspectRatioHack c p) = lit 1) /\
  (bWidescreenHack c = false -> AspectRatioHack c p = (lit 1, lit 1)) /\
  (hack_adjust c p = NaN \/
   (leb (fst (AspectRatioHack c p)) (lit 1) = true /\
    leb (snd (AspectRatioHack c p)) (lit 1) = true)).
Proof.
  assert (One : leb (lit 1) (lit 1) = true).
  { rewrite lit_1. unfold leb, num. apply Z.leb_refl. }
  unfold AspectRatioHack. fold (hack_adjust c p).
  destruct (bWidescreenHack c).
  - destruct (ltb (lit 1) (hack_adjust c p)) eqn:L; cbn [fst snd].
    + split; [left; reflexivity|]. split; [discriminate|].
      right. split; [exact One|].
      rewrite lit_1 in *. apply reciprocal_le_one. exact L.
    + split; [right; reflexivity|]. split; [discriminate|].
      destruct (hack_adjust c p) as [ | s | | n] eqn:A;
        [left; reflexivity| | |]; right; (split; [|exact One]).
      * rewrite lit_1 in *. cbn [ltb leb] in *.
        destruct s; [reflexivity|discriminate].
      * rewrite lit_1 in *. unfold ltb, leb, num in *.
        apply Z.ltb_ge in L. apply Z.leb_le. lia.
      * rewrite lit_1 in *. unfold ltb, leb, num in *.
        apply Z.ltb_ge in L. apply Z.leb_le. lia.
  - cbn [fst snd]. split; [left; reflexivity|].
    split; [reflexivity|]. right. split; exact One.
Qed.

(** *** Window size requests *)

Lemma to_int_is_int (f : format) (x : ieee) (k : Z) :
  to_int f x = Some k -> CInt.is_int k.
Proof.
  destruct x as [ | s | | n ]; cbn [to_int]; try discriminate.
  - intros E. injection E as <-. split; vm_compute; discriminate.
  - destruct (Z.leb_spec CInt.INT_MIN (Z.quot n (2 ^ scale f)));
      [|discriminate].
    destruct (Z.leb_spec (Z.quot n (2 ^ scale f)) CInt.INT_MAX);
      [|discriminate].
    cbn [andb]. intros E. injection E as <-. split; assumption.
Qed.

Lemma CalculateOutputDimensions_by_four (c : Context) (p : Presenter)
    (width height w h : Z) :
  CalculateOutputDimensions c p width height = Some (w, h) ->
  Z.rem w 4 = 0 /\ Z.rem h 4 = 0.
Proof.
  unfold CalculateOutputDimensions.
  destruct (ScaleToDisplayAspectRatio _ _ _ _) as [sw sh].
  destruct (ApplyStandardAspectCrop c sw sh) as [cw ch].
  destruct (to_int float (ceil float cw)) as [kw | ] eqn:Ew; [|discriminate].
  destruct (to_int float (ceil float ch)) as [kh | ] eqn:Eh; [|discriminate].
  intros E. injection E as <- <-.
  destruct (sub_rem4 kw (to_int_is_int _ _ _ Ew)) as [-> _].
  destruct (sub_rem4 kh (to_int_is_int _ _ _ Eh)) as [-> _].
  split; rewrite Z.mul_comm; apply Z.rem_mul; lia.
Qed.

(** X16.  [SetWindowSize] asks the host for a window size only when the
    size differs from the one it asked for last: after any call that has a
    result, the remembered size is the computed output size, and calling
    again with the same arguments sends nothing.  A request it does send
    carries that size, whose sides are multiples of four. *)
Theorem SetWindowSize_requests_a_size_once
    (c : Context) (p : Presenter)
    (last_width last_height width height w h : Z) (sent : list Command) :
  SetWindowSize c p last_width last_height width height = Some (w, h, sent) ->
  CalculateOutputDimensions c p width height = Some (w, h) /\
  SetWindowSize c p w h width height = Some (w, h, []) /\
  sent = (if (w =? last_width) && (h =? last_height) then []
          else [Host_RequestRenderWindowSize w h]) /\
  Z.rem w 4 = 0 /\ Z.rem h 4 = 0.
Proof.
  unfold SetWindowSize.
  destruct (CalculateOutputDimensions c p width height) as [[ow oh]|] eqn:E;
    [|discriminate].
  destruct (CalculateOutputDimensions_by_four _ _ _ _ _ _ E) as [Rw Rh].
  destruct ((ow =? last_width) && (oh =? last_height)) eqn:Same; intro R;
    injection R as <- <- <-.
  - apply andb_prop in Same. destruct Same as [Sw Sh].
    apply Z.eqb_eq in Sw, Sh. subst ow oh.
    rewrite !Z.eqb_refl. cbn [andb]. repeat split; assumption.
  - rewrite !Z.eqb_refl, Same. cbn [andb]. repeat split; assumption.
Qed.

Lemma SetWindowSize_requests_704x528_once :
  let c := {| aspect_mode := Auto; bCrop := false; stereo_mode := Off;
              bWidescreenHack := false;
              GetAspectRatio := div float (lit 4) (lit 3);
              IsGameWidescreen := false |} in
  let p := {| m_backbuffer_width := 1000; m_backbuffer_height := 400;
              m_target_rectangle :=
                {| left := 0; top := 0; right := 0; bottom := 0 |} |} in
  SetWindowSize c p 0 0 640 528 =
    Some (704, 528, [Host_RequestRenderWindowSize 704 528]) /\
  SetWindowSize c p 704 528 640 528 = Some (704, 528, []).
Proof.
  intros c p.
  assert (E : SetWindowSize c p 0 0 640 528 =
              Some (704, 528, [Host_RequestRenderWindowSize 704 528]))
    by (vm_compute; reflexivity).
  split; [exact E|].
  destruct (SetWindowSize_requests_a_size_once c p 0 0 640 528 704 528 _ E)
    as (_ & S & _).
  exact S.
Defined.

(** *** Submitting and presenting frames *)

Section Frames.

Variables GetWidth GetHeight : Rectangle -> Z.

Lemma SetWindowSize_sent (c : Context) (p : Presenter)
    (last_width last_height width height w h : Z) (sent : list Command) :
  SetWindowSize c p last_width last_height width height = Some (w, h, sent) ->
  sent = [] \/ sent = [Host_RequestRenderWindowSize w h].
Proof.
  unfold SetWindowSize.
  destruct (CalculateOutputDimensions c p width height) as [[ow oh]|];
    [|discriminate].
  destruct ((ow =? last_width) && (oh =? last_height)); intro E;
    injection E as <- <- <-; [left|right]; reflexivity.
Qed.

(** What [Present] does, step by step, when it has a result. *)
Lemma Present_steps (c : Context) (b : Backend) (fr fr' : Frames)
    (log : list Command) :
  Present GetWidth GetHeight c b fr = Some (fr', log) ->
  m_last_xfb_id fr' = m_xfb_entry fr /\
  m_xfb_entry fr' = m_xfb_entry fr /\
  m_xfb_rect fr' = m_xfb_rect fr /\
  ((IsHeadless b = true /\ presenter fr' = presenter fr /\
    log = [Flush; Finalize; BeginUtilityDrawing] ++
          [BeginImGuiFrame (m_backbuffer_width (presenter fr))
             (m_backbuffer_height (presenter fr));
           EndUtilityDrawing])
   \/
   (IsHeadless b = false /\
    UpdateDrawRectangle c (presenter fr) = Some (presenter fr') /\
    exists render_target_rc render_source_rc sent,
      AdjustRectanglesToFitBounds GetWidth GetHeight
        (m_target_rectangle (presenter fr')) (m_xfb_rect fr)
        (m_backbuffer_width (presenter fr'))
        (m_backbuffer_height (presenter fr')) =
      Some (render_target_rc, render_source_rc) /\
      (sent = [] \/
       sent = [Host_RequestRenderWindowSize
                 (m_last_window_request_width fr')
                 (m_last_window_request_height fr')]) /\
      log = [Flush; Finalize; BeginUtilityDrawing] ++ [BindBackbuffer] ++
            RenderXFBToScreen c b (presenter fr') render_target_rc
              render_source_rc ++
            [DrawImGui; PresentBackbuffer] ++ sent ++
            [BeginImGuiFrame (m_backbuffer_width (presenter fr))
               (m_backbuffer_height (presenter fr));
             EndUtilityDrawing])).
Proof.
  unfold Present. destruct (IsHeadless b); cbn [negb].
  - intro E. injection E as <- <-. cbn.
    repeat (split; [reflexivity|]). left. repeat split.
  - destruct (UpdateDrawRectangle c (presenter fr)) as [p1|] eqn:U;
      [|discriminate].
    destruct (AdjustRectanglesToFitBounds _ _ _ _ _ _) as [[t s]|] eqn:A;
      [|discriminate].
    destruct (SetWindowSize _ _ _ _ _ _) as [[[w h] sent]|] eqn:S;
      [|discriminate].
    intro E. injection E as <- <-. cbn [m_last_xfb_id m_xfb_entry m_xfb_rect].
    repeat (split; [reflexivity|]). right.
    cbn [presenter m_last_window_request_width m_last_window_request_height].
    split; [reflexivity|]. split; [reflexivity|].
    exists t, s, sent. split; [exact A|]. split; [|reflexivity].
    exact (SetWindowSize_sent _ _ _ _ _ _ _ _ _ S).
Qed.

(** X17.  With duplicate frames skipped, submitting the XFB entry that was
    submitted last presents nothing: [SubmitXFB] reports a duplicate
    exactly when the entry's id is the id presented last; after any call
    that has a result that id is the entry's; and a further call with the
    same entry returns true and makes no call on the backend, the frame
    dumper or the host, whatever the rectangle. *)
Theorem SubmitXFB_presents_an_entry_once
    (c : Context) (b : Backend) (d : Dumping) (fr fr1 : Frames)
    (xfb_entry : Z) (xfb_rect xfb_rect2 : Rectangle)
    (ticks frame_count ticks2 frame_count2 : Z)
    (log : list Command) (duplicate : bool) :
  bSkipPresentingDuplicateXFBs d = true ->
  SubmitXFB GetWidth GetHeight c b d fr xfb_entry xfb_rect ticks frame_count
  = Some (fr1, log, duplicate) ->
  duplicate = (m_last_xfb_id fr =? xfb_entry) /\
  (duplicate = true -> log = [] /\ presenter fr1 = presenter fr) /\
  m_last_xfb_id fr1 = xfb_entry /\
  SubmitXFB GetWidth GetHeight c b d fr1 xfb_entry xfb_rect2 ticks2
    frame_count2 =
  Some ({| presenter := presenter fr1;
           m_xfb_entry := xfb_entry;
           m_xfb_rect := xfb_rect2;
           m_last_xfb_id := xfb_entry;
           m_last_window_request_width := m_last_window_request_width fr1;
           m_last_window_request_height :=
             m_last_window_request_height fr1 |},
        [], true).
Proof.
  intros Skip E.
  assert (Again : m_last_xfb_id fr1 = xfb_entry ->
    SubmitXFB GetWidth GetHeight c b d fr1 xfb_entry xfb_rect2 ticks2
      frame_count2 =
    Some ({| presenter := presenter fr1;
             m_xfb_entry := xfb_entry;
             m_xfb_rect := xfb_rect2;
             m_last_xfb_id := xfb_entry;
             m_last_window_request_width := m_last_window_request_width fr1;
             m_last_window_request_height :=
               m_last_window_request_height fr1 |},
          [], true)).
  { intro L. unfold SubmitXFB. cbn [m_last_xfb_id m_xfb_entry].
    rewrite L, Z.eqb_refl, Skip. reflexivity. }
  unfold SubmitXFB in E. cbn [m_last_xfb_id m_xfb_entry] in E.
  rewrite Skip in E. cbn [negb] in E. rewrite orb_false_r in E.
  destruct (m_last_xfb_id fr =? xfb_entry) eqn:D; cbn [negb] in E.
  - injection E as <- <- <-. apply Z.eqb_eq in D.
    split; [reflexivity|]. split; [intros _; split; reflexivity|].
    split; [exact D|]. apply Again. exact D.
  - destruct (Present _ _ _ _ _) as [[fr2 presented]|] eqn:P;
      [|discriminate].
    destruct (DumpFrame _ _ _ _ _ _ _ _) as [dumped|]; [|discriminate].
    injection E as <- <- <-.
    destruct (Present_steps _ _ _ _ _ P) as (L & _).
    cbn [m_xfb_entry] in L.
    split; [reflexivity|]. split; [discriminate|].
    split; [exact L|]. apply Again. exact L.
Qed.

End Frames.

Lemma SubmitXFB_presents_entry_7_once :
  SubmitXFB Rectangle_GetWidth Rectangle_GetHeight wide_picture
    window_backend skip_duplicates nothing_presented 7 xfb_640x528 0 1 =
  Some (frame_7_presented, frame_7_commands, false) /\
  SubmitXFB Rectangle_GetWidth Rectangle_GetHeight wide_picture
    window_backend skip_duplicates frame_7_presented 7 xfb_640x528 16 2 =
  Some (frame_7_presented, [], true).
Proof.
  assert (E : SubmitXFB Rectangle_GetWidth Rectangle_GetHeight wide_picture
                window_backend skip_duplicates nothing_presented 7
                xfb_640x528 0 1 =
              Some (frame_7_presented, frame_7_commands, false))
    by (vm_compute; reflexivity).
  split; [exact E|].
  destruct (SubmitXFB_presents_an_entry_once
              Rectangle_GetWidth Rectangle_GetHeight wide_picture
              window_backend skip_duplicates nothing_presented
              frame_7_presented 7 xfb_640x528 xfb_640x528 0 1 16 2
              frame_7_commands false eq_refl E) as (_ & _ & _ & S).
  rewrite S. reflexivity.
Defined.

Lemma blit_targets_app (l1 l2 : list Command) :
  blit_targets (l1 ++ l2) = blit_targets l1 ++ blit_targets l2.
Proof.
  induction l1 as [|cmd rest IH]; [reflexivity|].
  destruct cmd; cbn [app blit_targets]; rewrite IH; reflexivity.
Qed.

Lemma RenderXFBToScreen_targets (c : Context) (b : Backend) (p : Presenter)
    (target_rc source_rc : Rectangle) :
  is_SBS (stereo_mode c) || is_TAB (stereo_mode c) = false ->
  Forall (fun rc => rc = target_rc)
    (blit_targets (RenderXFBToScreen c b p target_rc source_rc)).
Proof.
  intro M. unfold RenderXFBToScreen. rewrite M.
  destruct (negb (bSupportsPostProcessing b)); [constructor|].
  destruct (is_QuadBuffer (stereo_mode c) && bUsesExplictQuadBuffering b);
    cbn [blit_targets]; repeat constructor.
Qed.

Lemma RenderXFBToScreen_plain (c : Context) (b : Backend) (p : Presenter)
    (target_rc source_rc : Rectangle) :
  filter is_bracket (RenderXFBToScreen c b p target_rc source_rc) = [] /\
  filter is_swap (RenderXFBToScreen c b p target_rc source_rc) = [].
Proof.
  unfold RenderXFBToScreen.
  destruct (negb (bSupportsPostProcessing b)); [split; reflexivity|].
  destruct (is_QuadBuffer (stereo_mode c) && bUsesExplictQuadBuffering b);
    [split; reflexivity|].
  destruct (is_SBS (stereo_mode c) || is_TAB (stereo_mode c));
    [|split; reflexivity].
  destruct (ConvertStereoRectangle c p target_rc). split; reflexivity.
Qed.

(** X18.  [Present] never blits outside the backbuffer when stereo is off
    or quad-buffered: whenever it has a result, every rectangle it blits
    the XFB to lies within
    [[0, m_backbuffer_width] x [0, m_backbuffer_height]] on each side, the
    computed target rectangle having been cut to the backbuffer first. *)
Theorem Present_blits_within_the_backbuffer
    (GetWidth GetHeight : Rectangle -> Z)
    (c : Context) (b : Backend) (fr fr' : Frames) (log : list Command) :
  CInt.is_int (m_backbuffer_width (presenter fr)) ->
  CInt.is_int (m_backbuffer_height (presenter fr)) ->
  is_SBS (stereo_mode c) || is_TAB (stereo_mode c) = false ->
  Present GetWidth GetHeight c b fr = Some (fr', log) ->
  Forall (inside (m_backbuffer_width (presenter fr))
                 (m_backbuffer_height (presenter fr)))
         (blit_targets log).
Proof.
  intros Bw Bh M E.
  destruct (Present_steps _ _ _ _ _ _ _ E)
    as (_ & _ & _ & [(_ & _ & L) | (_ & U & t & s & sent & A & S & L)]).
  - subst log. constructor.
  - destruct (UpdateDrawRectangle_backbuffer _ _ _ U) as (W & H & _).
    rewrite W, H in A.
    pose proof (AdjustRectanglesToFitBounds_target _ _ _ _ _ _ _ _ Bw Bh A)
      as T.
    assert (I : inside (m_backbuffer_width (presenter fr))
                       (m_backbuffer_height (presenter fr)) t).
    { rewrite T. unfold inside. cbn [left top right bottom]. lia. }
    subst log. rewrite !blit_targets_app.
    assert (N : blit_targets sent = []) by (destruct S; subst; reflexivity).
    rewrite N. cbn [blit_targets app]. rewrite !app_nil_r.
    pose proof (RenderXFBToScreen_targets c b (presenter fr') t s M) as R.
    apply Forall_forall. intros rc In.
    rewrite Forall_forall in R. rewrite (R rc In). exact I.
Qed.

Lemma Present_blits_entry_7_within_1000x400 :
  Forall (inside 1000 400) (blit_targets frame_7_commands).
Proof.
  apply (Present_blits_within_the_backbuffer
           Rectangle_GetWidth Rectangle_GetHeight wide_picture
           window_backend
           {| presenter := backbuffer_1000x400;
              m_xfb_entry := 7;
              m_xfb_rect := xfb_640x528;
              m_last_xfb_id := 0;
              m_last_window_request_width := 0;
              m_last_window_request_height := 0 |}
           frame_7_presented frame_7_commands).
  - split; vm_compute; discriminate.
  - split; vm_compute; discriminate.
  - reflexivity.
  - vm_compute. reflexivity.
Defined.

(** X19.  [Present], whenever it has a result, opens utility drawing once
    and closes it once, in that order, headless or not, swaps the
    backbuffer exactly once when the backend has a window and not at all
    when it is headless, and records the entry as the one presented last.
    A UI frame ([BeginUIFrame] followed by [EndUIFrame]) is not bracketed
    in this way: with a window it opens utility drawing and neither closes
    it nor swaps; headless it swaps and closes without having opened. *)
Theorem Present_brackets_utility_drawing
    (GetWidth GetHeight : Rectangle -> Z)
    (c : Context) (b : Backend) (fr fr' : Frames) (log : list Command) :
  Present GetWidth GetHeight c b fr = Some (fr', log) ->
  filter is_bracket log = [BeginUtilityDrawing; EndUtilityDrawing] /\
  filter is_swap log = (if IsHeadless b then [] else [PresentBackbuffer]) /\
  m_last_xfb_id fr' = m_xfb_entry fr /\
  filter is_bracket (BeginUIFrame b ++ EndUIFrame b (presenter fr)) =
    (if IsHeadless b then [EndUtilityDrawing] else [BeginUtilityDrawing]) /\
  filter is_swap (BeginUIFrame b ++ EndUIFrame b (presenter fr)) =
    (if IsHeadless b then [PresentBackbuffer] else []).
Proof.
  intro E.
  destruct (Present_steps _ _ _ _ _ _ _ E)
    as (Id & _ & _ & [(Hd & _ & L) | (Hd & _ & t & s & sent & _ & S & L)]);
    unfold BeginUIFrame, EndUIFrame; rewrite Hd; subst log.
  - repeat split; try reflexivity. exact Id.
  - destruct (RenderXFBToScreen_plain c b (presenter fr') t s) as [R1 R2].
    rewrite !filter_app, R1, R2.
    assert (N : filter is_bracket sent = [] /\ filter is_swap sent = [])
      by (destruct S; subst; split; reflexivity).
    destruct N as [N1 N2]. rewrite N1, N2.
    repeat split; try reflexivity. exact Id.
Qed.

Lemma Present_brackets_entry_7 :
  filter is_bracket frame_7_commands =
    [BeginUtilityDrawing; EndUtilityDrawing] /\
  filter is_swap frame_7_commands = [PresentBackbuffer].
Proof.
  destruct (Present_brackets_utility_drawing
              Rectangle_GetWidth Rectangle_GetHeight wide_picture
              window_backend
              {| presenter := backbuffer_1000x400;
                 m_xfb_entry := 7;
                 m_xfb_rect := xfb_640x528;
                 m_last_xfb_id := 0;
                 m_last_window_request_width := 0;
                 m_last_window_request_height := 0 |}
              frame_7_presented frame_7_commands) as (B & S & _).
  - vm_compute. reflexivity.
  - split; [exact B|exact S].
Defined.

Lemma dumped_frames_app (l1 l2 : list Command) :
  dumped_frames (l1 ++ l2) = dumped_frames l1 ++ dumped_frames l2.
Proof.
  induction l1 as [|cmd rest IH]; [reflexivity|].
  destruct cmd; cbn [app dumped_frames]; rewrite IH; reflexivity.
Qed.

Lemma RenderXFBToScreen_dumps (c : Context) (b : Backend) (p : Presenter)
    (target_rc source_rc : Rectangle) :
  dumped_frames (RenderXFBToScreen c b p target_rc source_rc) = [].
Proof.
  unfold RenderXFBToScreen.
  destruct (negb (bSupportsPostProcessing b)); [reflexivity|].
  destruct (is_QuadBuffer (stereo_mode c) && bUsesExplictQuadBuffering b);
    [reflexivity|].
  destruct (is_SBS (stereo_mode c) || is_TAB (stereo_mode c));
    [|reflexivity].
  destruct (ConvertStereoRectangle c p target_rc). reflexivity.
Qed.

Lemma Present_dumps (GetWidth GetHeight : Rectangle -> Z)
    (c : Context) (b : Backend) (fr fr' : Frames) (log : list Command) :
  Present GetWidth GetHeight c b fr = Some (fr', log) ->
  dumped_frames log = [].
Proof.
  intro E.
  destruct (Present_steps _ _ _ _ _ _ _ E)
    as (_ & _ & _ & [(_ & _ & L) | (_ & _ & t & s & sent & _ & S & L)]);
    subst log.
  - reflexivity.
  - rewrite !dumped_frames_app, RenderXFBToScreen_dumps.
    destruct S; subst sent; reflexivity.
Qed.

(** X23.  [SubmitXFB] dumps a frame only together with presenting it.
    When it skips a duplicate it issues no command at all.  Otherwise its
    commands are those of [Present] for the submitted entry and rectangle,
    none of which is a dump, followed, exactly when the frame dumper is
    dumping, by one dump of the XFB rectangle submitted.  The target
    rectangle of the dump is the target rectangle just computed when the
    backend has a window and dumps are not at internal resolution;
    otherwise it starts at the origin and its width and height are
    multiples of four. *)
Theorem SubmitXFB_dumps_only_what_it_presents
    (GetWidth GetHeight : Rectangle -> Z)
    (c : Context) (b : Backend) (d : Dumping) (fr fr1 : Frames)
    (xfb_entry : Z) (xfb_rect : Rectangle) (ticks frame_count : Z)
    (log : list Command) (duplicate : bool) :
  SubmitXFB GetWidth GetHeight c b d fr xfb_entry xfb_rect ticks frame_count
  = Some (fr1, log, duplicate) ->
  (duplicate = true /\ bSkipPresentingDuplicateXFBs d = true /\ log = [])
  \/
  (exists presented,
     Present GetWidth GetHeight c b
       {| presenter := presenter fr;
          m_xfb_entry := xfb_entry;
          m_xfb_rect := xfb_rect;
          m_last_xfb_id := m_last_xfb_id fr;
          m_last_window_request_width := m_last_window_request_width fr;
          m_last_window_request_height := m_last_window_request_height fr |}
     = Some (fr1, presented) /\
     dumped_frames presented = [] /\
     ((IsFrameDumping d = false /\ log = presented) \/
      (IsFrameDumping d = true /\
       exists target_rect,
         log = presented ++
               [DumpCurrentFrame xfb_rect target_rect ticks frame_count] /\
         (if negb (bInternalResolutionFrameDumps d) && negb (IsHeadless b)
          then target_rect = m_target_rectangle (presenter fr1)
          else left target_rect = 0 /\ top target_rect = 0 /\
               Z.rem (right target_rect) 4 = 0 /\
               Z.rem (bottom target_rect) 4 = 0)))).
Proof.
  unfold SubmitXFB. cbn [m_last_xfb_id m_xfb_entry].
  destruct (negb (m_last_xfb_id fr =? xfb_entry)
            || negb (bSkipPresentingDuplicateXFBs d)) eqn:Go.
  - destruct (Present _ _ _ _ _) as [[fr2 presented]|] eqn:P;
      [|discriminate].
    pose proof (Present_dumps _ _ _ _ _ _ _ P) as N.
    destruct (Present_steps _ _ _ _ _ _ _ P) as (_ & _ & R & _).
    cbn [m_xfb_rect] in R.
    unfold DumpFrame. destruct (IsFrameDumping d).
    + destruct (negb (bInternalResolutionFrameDumps d)
                && negb (IsHeadless b)).
      * intro E. injection E as <- <- <-. right.
        exists presented. split; [reflexivity|]. split; [exact N|].
        right. split; [reflexivity|]. rewrite R.
        eexists. split; reflexivity.
      * destruct (CalculateOutputDimensions c (presenter fr2) _ _)
          as [[w h]|] eqn:O; [|discriminate].
        destruct (CalculateOutputDimensions_by_four _ _ _ _ _ _ O)
          as [Rw Rh].
        intro E. injection E as <- <- <-. right.
        exists presented. split; [reflexivity|]. split; [exact N|].
        right. split; [reflexivity|]. rewrite R.
        eexists. split; [reflexivity|]. cbn [left top right bottom].
        repeat split; assumption.
    + intro E. injection E as <- <- <-. right.
      exists presented. split; [reflexivity|]. split; [exact N|].
      left. split; [reflexivity|]. apply app_nil_r.
  - intro E. injection E as <- <- <-. left.
    apply orb_false_elim in Go. destruct Go as [G1 G2].
    apply negb_false_iff in G1, G2. repeat split; assumption.
Qed.

Lemma SubmitXFB_dumps_entry_7_after_presenting_it :
  let dumping := {| bSkipPresentingDuplicateXFBs := true;
                    bInternalResolutionFrameDumps := true;
                    IsFrameDumping := true |} in
  SubmitXFB Rectangle_GetWidth Rectangle_GetHeight wide_picture
    window_backend dumping nothing_presented 7 xfb_640x528 0 1 =
  Some (frame_7_presented,
        frame_7_commands ++
        [DumpCurrentFrame xfb_640x528
           {| left := 0; top := 0; right := 936; bottom := 528 |} 0 1],
        false) /\
  exists presented target_rect,
    Present Rectangle_GetWidth Rectangle_GetHeight wide_picture
      window_backend
      {| presenter := presenter nothing_presented;
         m_xfb_entry := 7;
         m_xfb_rect := xfb_640x528;
         m_last_xfb_id := m_last_xfb_id nothing_presented;
         m_last_window_request_width :=
           m_last_window_request_width nothing_presented;
         m_last_window_request_height :=
           m_last_window_request_height nothing_presented |}
    = Some (frame_7_presented, presented) /\
    dumped_frames presented = [] /\
    frame_7_commands ++
    [DumpCurrentFrame xfb_640x528
       {| left := 0; top := 0; right := 936; bottom := 528 |} 0 1] =
    presented ++ [DumpCurrentFrame xfb_640x528 target_rect 0 1].
Proof.
  intro dumping.
  assert (E : SubmitXFB Rectangle_GetWidth Rectangle_GetHeight wide_picture
                window_backend dumping nothing_presented 7 xfb_640x528 0 1 =
              Some (frame_7_presented,
                    frame_7_commands ++
                    [DumpCurrentFrame xfb_640x528
                       {| left := 0; top := 0; right := 936;
                          bottom := 528 |} 0 1],
                    false))
    by (vm_compute; reflexivity).
  split; [exact E|].
  destruct (SubmitXFB_dumps_only_what_it_presents
              _ _ _ _ _ _ _ _ _ _ _ _ _ E)
    as [(Dup & _) | (presented & P & N & [(Off & _) | (_ & rc & L & _)])].
  - discriminate.
  - discriminate.
  - exists presented, rc. repeat split; assumption.
Defined.

End PresentFacts.

(* ================================================================= *)
(** ** Rounding error *)

Module RoundingFacts.

Import IEEE IEEEFacts.

Lemma rne_error (a c : Z) : 0 < c -> 2 * Z.abs (rne a c * c - a) <= c.
Proof.
  intro C. unfold rne.
  pose proof (Z.div_mod a c ltac:(lia)) as E.
  pose proof (Z.mod_pos_bound a c C) as B.
  cbv zeta. set (q := a / c) in *. set (r := a mod c) in *.
  assert (Q : q * c - a = - r) by lia.
  assert (Q1 : (q + 1) * c - a = c - r) by lia.
  clearbody q r.
  destruct (Z.compare_spec (2 * r) c) as [K|K|K].
  - destruct (Z.even q); rewrite ?Q, ?Q1; lia.
  - rewrite Q. lia.
  - rewrite Q1. lia.
Qed.

Section Error.

Variable f : format.
Hypothesis prec_pos : 1 <= prec f.

(** A rounded magnitude is off by at most half a unit in the last place:
    [2^-prec] of the value it rounds, or half the least unit below the
    normal range. *)
Lemma round_mag_error (a b : Z) :
  0 <= a -> 0 < b ->
  0 <= round_mag f a b /\
  2 ^ prec f * Z.abs (round_mag f a b * b - a) <=
  Z.max a (2 ^ (prec f - 1) * b).
Proof.
  intros A B. unfold round_mag.
  set (L := Z.log2 (a / b)).
  set (j := Z.max 0 (L - (prec f - 1))).
  assert (J : 0 <= j) by (unfold j; lia).
  assert (Pj : 0 < 2 ^ j) by (apply Z.pow_pos_nonneg; lia).
  assert (C : 0 < b * 2 ^ j) by (apply Z.mul_pos_pos; assumption).
  pose proof (rne_error a (b * 2 ^ j) C) as E.
  pose proof (rne_ge a (b * 2 ^ j) 0 C ltac:(lia)) as N.
  split; [apply Z.mul_nonneg_nonneg; lia|].
  replace (rne a (b * 2 ^ j) * 2 ^ j * b - a)
    with (rne a (b * 2 ^ j) * (b * 2 ^ j) - a) by ring.
  set (d := Z.abs (rne a (b * 2 ^ j) * (b * 2 ^ j) - a)) in *.
  assert (P2 : 2 ^ prec f = 2 * 2 ^ (prec f - 1)).
  { rewrite <- Z.pow_succ_r by lia. f_equal. lia. }
  assert (Pp : 0 < 2 ^ (prec f - 1)) by (apply Z.pow_pos_nonneg; lia).
  assert (S : 2 ^ prec f * d <= 2 ^ (prec f - 1) * (b * 2 ^ j)).
  { rewrite P2. clear - E Pp. nia. }
  destruct (Z_le_gt_dec (L - (prec f - 1)) 0) as [Z | Pz].
  - assert (Hj : j = 0) by (unfold j; lia).
    rewrite Hj, Z.pow_0_r, Z.mul_1_r in S.
    lia.
  - assert (Ej : j = L - (prec f - 1)) by (unfold j; lia).
    assert (Lp : 0 < L) by lia.
    assert (Q : 0 < a / b).
    { destruct (Z_le_gt_dec (a / b) 0) as [Neg|]; [|lia].
      unfold L in Lp. rewrite Z.log2_nonpos in Lp by assumption. lia. }
    pose proof (Z.log2_spec (a / b) Q) as [Lo _]. fold L in Lo.
    pose proof (Z.mul_div_le a b B) as M.
    assert (T : 2 ^ (prec f - 1) * (b * 2 ^ j) = b * 2 ^ L).
    { assert (ET : L = prec f - 1 + j) by lia.
      clearbody j L. rewrite ET.
      rewrite Z.pow_add_r by lia. ring. }
    rewrite T in S.
    assert (b * 2 ^ L <= a) by (clear - Lo M B; nia).
    lia.
Qed.

(** What [round_mag] returns is zero or a number of the format. *)
Lemma round_mag_anchor (a b : Z) :
  0 <= a -> 0 < b ->
  round_mag f a b = 0 \/ anchor f (round_mag f a b).
Proof.
  intros A B. unfold round_mag.
  set (L := Z.log2 (a / b)).
  set (j := Z.max 0 (L - (prec f - 1))).
  assert (J : 0 <= j) by (unfold j; lia).
  assert (HL : L + 1 <= prec f + j) by (unfold j; lia).
  assert (L0 : 0 <= L) by apply Z.log2_nonneg.
  assert (Lt : a < b * 2 ^ (L + 1)).
  { assert (P1 : 0 < 2 ^ (L + 1)) by (apply Z.pow_pos_nonneg; lia).
    pose proof (Z.div_mod a b ltac:(lia)) as E.
    pose proof (Z.mod_pos_bound a b B) as M.
    assert (Q : a / b < 2 ^ (L + 1)).
    { destruct (Z_le_gt_dec (a / b) 0) as [Neg|Q]; [lia|].
      pose proof (Z.log2_spec (a / b) ltac:(lia)) as [_ Hi].
      fold L in Hi. rewrite <- Z.add_1_r in Hi. exact Hi. }
    clearbody L j. clear - E M Q B. nia. }
  clearbody j. clearbody L.
  assert (Pj : 0 < 2 ^ j) by (apply Z.pow_pos_nonneg; lia).
  assert (C : 0 < b * 2 ^ j) by (apply Z.mul_pos_pos; assumption).
  pose proof (rne_ge a (b * 2 ^ j) 0 C ltac:(lia)) as N.
  assert (Pp : 0 < 2 ^ prec f) by (apply Z.pow_pos_nonneg; lia).
  assert (U : rne a (b * 2 ^ j) <= 2 ^ prec f).
  { apply rne_le; [exact C|].
    assert (Le : 2 ^ (L + 1) <= 2 ^ (prec f + j)).
    { apply Z.pow_le_mono_r; lia. }
    rewrite (Z.pow_add_r 2 (prec f) j) in Le by lia.
    assert (M : b * 2 ^ (L + 1) <= b * (2 ^ prec f * 2 ^ j))
      by (apply Z.mul_le_mono_nonneg_l; [lia|exact Le]).
    replace (2 ^ prec f * (b * 2 ^ j)) with (b * (2 ^ prec f * 2 ^ j))
      by ring.
    lia. }
  destruct (Z.eq_dec (rne a (b * 2 ^ j)) 0) as [Z0|NZ].
  - left. rewrite Z0. reflexivity.
  - right. destruct (Z.eq_dec (rne a (b * 2 ^ j)) (2 ^ prec f)) as [Top|NT].
    + exists 1, (prec f + j). rewrite Top. repeat split; try lia.
      * rewrite Z.pow_add_r by lia. ring.
      * assert (2 ^ 1 <= 2 ^ prec f) by (apply Z.pow_le_mono_r; lia).
        change (2 ^ 1) with 2 in *. lia.
    + exists (rne a (b * 2 ^ j)), j. repeat split; lia.
Qed.

(** A finite result of rounding a non-negative ratio: its error, and that
    it is a number of the format. *)
Lemma round_ratio_error (a b n : Z) :
  0 <= a -> 0 < b -> round_ratio f a b = Fin n ->
  0 <= n /\
  2 ^ prec f * Z.abs (n * b - a) <= Z.max a (2 ^ (prec f - 1) * b) /\
  representable f n.
Proof.
  intros A B E.
  destruct (round_mag_error a b A B) as [N R].
  pose proof (round_mag_anchor a b A B) as K.
  unfold round_ratio, pack in E. rewrite Z.abs_eq in E by assumption.
  replace (a <? 0) with false in E by (symmetry; apply Z.ltb_ge; lia).
  destruct (Z.eqb_spec (round_mag f a b) 0) as [Z0|NZ].
  - cbn [zero] in E. injection E as <-. rewrite Z0 in R.
    repeat split; [lia|exact R|left; reflexivity].
  - destruct (Z.ltb_spec (top f) (round_mag f a b)) as [Over|In];
      [discriminate|].
    injection E as <-. repeat split; [exact N|exact R|].
    right. rewrite Z.abs_eq by exact N.
    destruct K as [K|K]; [contradiction|]. split; assumption.
Qed.

End Error.

(** Two roundings in a row, each off by at most [1/P] of what it rounds,
    stay within [V] of the target [T] when [T] is small against [P * V]. *)
Lemma two_roundings_upper (P T V x y : Z) :
  0 < P -> P * x <= (P + 1) * y -> P * y <= (P + 1) * T ->
  (2 * P + 1) * T <= P * P * V ->
  x <= T + V.
Proof.
  intros HP X Y S.
  assert (A : P * P * x <= (P + 1) * (P + 1) * T).
  { assert (P * (P * x) <= P * ((P + 1) * y))
      by (apply Z.mul_le_mono_nonneg_l; lia).
    assert ((P + 1) * (P * y) <= (P + 1) * ((P + 1) * T))
      by (apply Z.mul_le_mono_nonneg_l; lia).
    lia. }
  assert (B : P * P * x <= P * P * (T + V)) by lia.
  assert (0 < P * P) by (apply Z.mul_pos_pos; lia).
  apply (Z.mul_le_mono_pos_l _ _ (P * P)); assumption.
Qed.

Lemma two_roundings_lower (P T V x y : Z) :
  1 < P -> 0 <= T -> (P - 1) * y <= P * x -> (P - 1) * T <= P * y ->
  2 * P * T < P * P * V ->
  T - V < x.
Proof.
  intros HP T0 X Y S.
  assert (A : (P - 1) * (P - 1) * T <= P * P * x).
  { assert (P * ((P - 1) * y) <= P * (P * x))
      by (apply Z.mul_le_mono_nonneg_l; lia).
    assert ((P - 1) * ((P - 1) * T) <= (P - 1) * (P * y))
      by (apply Z.mul_le_mono_nonneg_l; lia).
    lia. }
  assert (B : P * P * (T - V) < P * P * x) by lia.
  assert (0 < P * P) by (apply Z.mul_pos_pos; lia).
  apply (Z.mul_lt_mono_pos_l (P * P)); assumption.
Qed.

End RoundingFacts.

(* ================================================================= *)
(** ** How the picture fits the backbuffer *)

Module FitFacts.

Import IEEE IEEEFacts Float32Facts Present CIntFacts RectangleFacts.
Import LayoutFacts RoundingFacts.

Lemma pow149 : 0 < 2 ^ 149.
Proof. apply Z.pow_pos_nonneg; lia. Qed.

Lemma lit_1_units : lit 1 = Fin (2 ^ 149).
Proof.
  unfold lit, float. rewrite (of_Z_exact 1) by lia.
  rewrite Z.mul_1_l. reflexivity.
Qed.

(** A finite rounded ratio in the normal range of [float] is off by at
    most [2^-24] of the ratio. *)
Lemma round32_normal (a b n : Z) :
  0 < b -> 2 ^ 23 * b <= a -> round_ratio binary32 a b = Fin n ->
  (2 ^ 24 - 1) * a <= 2 ^ 24 * (n * b) <= (2 ^ 24 + 1) * a /\
  representable binary32 n /\ 0 <= n.
Proof.
  intros B N E.
  assert (A : 0 <= a).
  { assert (0 < 2 ^ 23) by (apply Z.pow_pos_nonneg; lia). nia. }
  destruct (round_ratio_error binary32 prec32 a b n A B E) as (N0 & R & K).
  change (prec binary32) with 24 in R. change (24 - 1) with 23 in R.
  rewrite Z.max_l in R by lia.
  split; [|split; assumption].
  set (x := n * b) in *. clearbody x. clear - R. lia.
Qed.

Lemma of_Z_int (k : Z) :
  0 <= k <= 2 ^ 20 -> of_Z float k = Fin (k * 2 ^ 149).
Proof.
  intro H. apply of_Z_exact.
  assert (2 ^ 20 < 2 ^ 24) by (vm_compute; reflexivity). lia.
Qed.

Lemma representable_size (k : Z) :
  0 <= k <= 2 ^ 20 -> representable binary32 (k * 2 ^ 149).
Proof.
  intro H. apply representable_int32.
  assert (2 ^ 20 < 2 ^ 24) by (vm_compute; reflexivity). lia.
Qed.

(** Division and multiplication by the literal 1 are exact. *)
Lemma div_by_one (v : Z) :
  0 < v -> representable binary32 v ->
  div float (Fin v) (lit 1) = Fin v.
Proof.
  intros P R. rewrite lit_1_units. unfold float.
  rewrite div_Fin_pos by (pose proof pow149; lia).
  rewrite scale32. apply (round_ratio_denotes binary32 prec32).
  - exact pow149.
  - exact R.
Qed.

Lemma mul_by_one (v : Z) :
  0 < v -> representable binary32 v ->
  mul float (lit 1) (Fin v) = Fin v.
Proof.
  intros P R. rewrite lit_1_units. unfold float.
  rewrite mul_Fin by (pose proof pow149; lia).
  rewrite scale32, Z.mul_comm.
  apply (round_ratio_denotes binary32 prec32).
  - exact pow149.
  - exact R.
Qed.

Lemma powers :
  2 ^ 149 = 2 ^ 129 * 2 ^ 20 /\ 2 ^ 169 = 2 ^ 149 * 2 ^ 20 /\
  2 ^ 20 = 1048576 /\ 2 ^ 24 = 16777216 /\ 2 ^ 23 = 8388608 /\
  2 ^ 129 = 2 ^ 23 * 2 ^ 106 /\ 0 < 2 ^ 129 /\ 0 < 2 ^ 106 /\
  2 ^ 190 = 2 ^ 169 * 2 ^ 20 * 2 /\ 2 ^ 200 = 2 ^ 169 * 2 ^ 20 * 2 ^ 11.
Proof.
  repeat split; try reflexivity; apply Z.pow_pos_nonneg; lia.
Qed.

(** The window's aspect ratio [win_width / win_height] as a [float]. *)
Lemma window_ratio (W H : Z) :
  1 <= W <= 2 ^ 20 -> 1 <= H <= 2 ^ 20 ->
  exists r,
    div float (of_Z float W) (of_Z float H) = Fin r /\
    round_ratio binary32 (W * 2 ^ 149) H = Fin r /\
    2 ^ 129 <= r <= 2 ^ 169 /\
    (2 ^ 24 - 1) * (W * 2 ^ 149) <= 2 ^ 24 * (r * H)
      <= (2 ^ 24 + 1) * (W * 2 ^ 149) /\
    representable binary32 r.
Proof.
  intros HW HH. pose proof pow149 as U.
  destruct powers as (P149 & P169 & P20 & P24 & P23 & P129 & A & A' & _).
  assert (S : round_ratio binary32 (W * 2 ^ 149 * 2 ^ 149) (H * 2 ^ 149) =
              round_ratio binary32 (W * 2 ^ 149) H)
    by (apply round_ratio_scale; lia).
  assert (Lo : 2 ^ 129 * H <= W * 2 ^ 149).
  { rewrite P149. set (a := 2 ^ 129) in *. clearbody a.
    rewrite P20 in *. clear - HW HH A. nia. }
  assert (Hi : W * 2 ^ 149 <= 2 ^ 169 * H).
  { rewrite P169. set (u := 2 ^ 149) in *. clearbody u.
    rewrite P20 in *. clear - HW HH U. nia. }
  destruct (round_ratio_between binary32 prec32 (W * 2 ^ 149) H
              (2 ^ 129) (2 ^ 169)) as [r [E R]].
  - lia.
  - apply anchor_pow2. lia.
  - apply anchor_pow2. lia.
  - apply pow2_le_top. lia.
  - split; assumption.
  - exists r. rewrite !of_Z_int by lia. unfold float.
    rewrite div_Fin_pos by lia. rewrite scale32, S.
    split; [exact E|]. split; [exact E|]. split; [exact R|].
    destruct (round32_normal (W * 2 ^ 149) H r) as (B & K & _).
    + lia.
    + rewrite P149, P129. set (a := 2 ^ 106) in *. clearbody a.
      rewrite P20, P23 in *. clear - HW HH A'. nia.
    + exact E.
    + split; assumption.
Qed.

(** [draw_aspect * (win_height / 1)]: the draw width when the window is
    flatter than the picture. *)
Lemma flat_width (a H : Z) :
  2 ^ 129 <= a <= 2 ^ 169 * 2 -> 1 <= H <= 2 ^ 20 ->
  exists dw,
    mul float (Fin a) (div float (of_Z float H) (lit 1)) = Fin dw /\
    (2 ^ 24 - 1) * (a * H) <= 2 ^ 24 * dw <= (2 ^ 24 + 1) * (a * H) /\
    0 <= dw.
Proof.
  intros Ha HH. pose proof pow149 as U.
  destruct powers as (P149 & P169 & P20 & P24 & P23 & P129 & A & A' & P190 & _).
  rewrite (of_Z_int H) by lia.
  rewrite div_by_one by (try apply representable_size; lia).
  unfold float. rewrite mul_Fin by lia. rewrite scale32.
  assert (S : round_ratio binary32 (a * (H * 2 ^ 149)) (2 ^ 149) =
              round_ratio binary32 (a * H) 1).
  { replace (a * (H * 2 ^ 149)) with (a * H * 2 ^ 149) by ring.
    replace (2 ^ 149) with (1 * 2 ^ 149) at 2 by ring.
    apply round_ratio_scale; lia. }
  rewrite S.
  assert (Hi : a * H <= 2 ^ 190 * 1).
  { rewrite P190. set (u := 2 ^ 169) in *. clearbody u.
    rewrite P20 in *. clear - Ha HH A. nia. }
  destruct (round_ratio_le binary32 prec32 (a * H) 1 (2 ^ 190))
    as [dw [E R]].
  - lia.
  - apply anchor_pow2. lia.
  - apply pow2_le_top. lia.
  - split; [nia|exact Hi].
  - exists dw. split; [exact E|].
    destruct (round32_normal (a * H) 1 dw) as (B & _ & N).
    + lia.
    + rewrite P129 in Ha. set (u := 2 ^ 106) in *. clearbody u.
      rewrite P23 in *. clear - Ha HH A'. nia.
    + exact E.
    + rewrite Z.mul_1_r in B. split; [exact B|exact N].
Qed.

(** [1 * (win_height / 1)]: the draw height in that case, exactly the
    window height. *)
Lemma flat_height (H : Z) :
  1 <= H <= 2 ^ 20 ->
  mul float (lit 1) (div float (of_Z float H) (lit 1)) = Fin (H * 2 ^ 149).
Proof.
  intro HH. pose proof pow149 as U.
  rewrite (of_Z_int H) by lia.
  rewrite div_by_one by (try apply representable_size; lia).
  apply mul_by_one; [lia|apply representable_size; lia].
Qed.

(** The draw size when the window is skinnier than the picture:
    [draw_aspect * (win_width / draw_aspect)] is within 1 of the window
    width, and [1 * (win_width / draw_aspect)] is at most the window
    height. *)
Lemma skinny_size (a W H r : Z) :
  anchor binary32 a -> 2 ^ 129 <= a <= 2 ^ 169 ->
  1 <= W <= 2 ^ 20 -> 1 <= H <= 2 ^ 20 ->
  round_ratio binary32 (W * 2 ^ 149) H = Fin r -> r < a ->
  exists k dw,
    div float (of_Z float W) (Fin a) = Fin k /\
    mul float (Fin a) (Fin k) = Fin dw /\
    mul float (lit 1) (Fin k) = Fin k /\
    (W - 1) * 2 ^ 149 < dw <= (W + 1) * 2 ^ 149 /\
    0 < k <= H * 2 ^ 149.
Proof.
  intros An Ha HW HH Er Lt. pose proof pow149 as U.
  destruct powers as (P149 & P169 & P20 & P24 & P23 & P129 & A & A' & _ & P200).
  assert (UU : 0 < 2 ^ 149 * 2 ^ 149) by (apply Z.mul_pos_pos; assumption).
  (* the window really is skinnier *)
  assert (Sk : W * 2 ^ 149 < a * H).
  { destruct (Z_lt_le_dec (W * 2 ^ 149) (a * H)) as [|Ge]; [assumption|].
    exfalso.
    destruct (round_ratio_ge binary32 prec32 (W * 2 ^ 149) H a)
      as [I | [n [E N]]]; try assumption; try lia.
    - rewrite Er in I. discriminate.
    - rewrite Er in E. injection E as <-. lia. }
  (* k = win_width / draw_aspect *)
  assert (Lo : 2 ^ 129 * a <= W * 2 ^ 149 * 2 ^ 149).
  { assert (2 ^ 129 * a <= 2 ^ 129 * 2 ^ 169)
      by (apply Z.mul_le_mono_nonneg_l; lia).
    assert (E : 2 ^ 129 * 2 ^ 169 = 2 ^ 149 * 2 ^ 149) by reflexivity.
    assert (1 * (2 ^ 149 * 2 ^ 149) <= W * (2 ^ 149 * 2 ^ 149))
      by (apply Z.mul_le_mono_nonneg_r; lia).
    lia. }
  assert (Hi : W * 2 ^ 149 * 2 ^ 149 <= H * 2 ^ 149 * a).
  { assert (W * 2 ^ 149 * 2 ^ 149 <= a * H * 2 ^ 149)
      by (apply Z.mul_le_mono_nonneg_r; lia).
    replace (H * 2 ^ 149 * a) with (a * H * 2 ^ 149) by ring. assumption. }
  destruct (round_ratio_between binary32 prec32 (W * 2 ^ 149 * 2 ^ 149) a
              (2 ^ 129) (H * 2 ^ 149)) as [k [Ek Rk]].
  { lia. }
  { apply anchor_pow2. lia. }
  { apply anchor_int. rewrite P24. lia. }
  { apply int_le_top. rewrite P24. lia. }
  { split; assumption. }
  destruct (round32_normal (W * 2 ^ 149 * 2 ^ 149) a k) as (Bk & Kk & _).
  { lia. }
  { assert (2 ^ 23 * a <= 2 ^ 129 * a)
      by (apply Z.mul_le_mono_nonneg_r; lia).
    lia. }
  { exact Ek. }
  (* draw_width = draw_aspect * k *)
  assert (AK : 2 ^ 129 * 2 ^ 129 <= a * k)
    by (apply Z.mul_le_mono_nonneg; lia).
  assert (AKhi : a * k <= 2 ^ 200 * 2 ^ 149).
  { assert (k <= 2 ^ 169).
    { rewrite P169.
      assert (H * 2 ^ 149 <= 2 ^ 20 * 2 ^ 149)
        by (apply Z.mul_le_mono_nonneg_r; lia).
      lia. }
    assert (a * k <= 2 ^ 169 * 2 ^ 169)
      by (apply Z.mul_le_mono_nonneg; lia).
    assert (2 ^ 169 * 2 ^ 169 <= 2 ^ 200 * 2 ^ 149)
      by (vm_compute; discriminate).
    lia. }
  destruct (round_ratio_le binary32 prec32 (a * k) (2 ^ 149) (2 ^ 200))
    as [dw [Ed _]].
  { lia. }
  { apply anchor_pow2. lia. }
  { apply pow2_le_top. lia. }
  { split; [lia|exact AKhi]. }
  destruct (round32_normal (a * k) (2 ^ 149) dw) as (Bd & _ & Nd).
  { lia. }
  { assert (2 ^ 23 * 2 ^ 149 <= 2 ^ 129 * 2 ^ 129)
      by (vm_compute; discriminate).
    lia. }
  { exact Ed. }
  exists k, dw.
  split.
  { rewrite (of_Z_int W) by lia. unfold float.
    rewrite div_Fin_pos by lia. rewrite scale32. exact Ek. }
  split.
  { unfold float. rewrite mul_Fin by lia. rewrite scale32. exact Ed. }
  split.
  { apply mul_by_one; [lia|exact Kk]. }
  split; [|lia].
  rewrite (Z.mul_comm k a) in Bk.
  set (y := a * k) in *. set (S := 2 ^ 149 * 2 ^ 149) in *.
  replace (W * 2 ^ 149 * 2 ^ 149) with (W * S) in Bk by (unfold S; ring).
  rewrite P24 in Bk, Bd.
  assert (Up : dw * 2 ^ 149 <= W * S + S).
  { assert (33554433 * W * S <= 281474976710656 * S)
      by (apply Z.mul_le_mono_nonneg_r; lia).
    apply (two_roundings_upper 16777216 (W * S) S (dw * 2 ^ 149) y); lia. }
  assert (Dn : W * S - S < dw * 2 ^ 149).
  { assert (33554432 * W * S < 281474976710656 * S)
      by (apply Z.mul_lt_mono_pos_r; lia).
    assert (0 <= W * S) by (apply Z.mul_nonneg_nonneg; lia).
    apply (two_roundings_lower 16777216 (W * S) S (dw * 2 ^ 149) y); lia. }
  unfold S in Up, Dn. clearbody y. clear - Up Dn U.
  split.
  - apply (Z.mul_lt_mono_pos_r (2 ^ 149)); [exact U|].
    replace ((W - 1) * 2 ^ 149 * 2 ^ 149)
      with (W * (2 ^ 149 * 2 ^ 149) - 2 ^ 149 * 2 ^ 149) by ring.
    exact Dn.
  - apply (Z.mul_le_mono_pos_r _ _ (2 ^ 149)); [exact U|].
    replace ((W + 1) * 2 ^ 149 * 2 ^ 149)
      with (W * (2 ^ 149 * 2 ^ 149) + 2 ^ 149 * 2 ^ 149) by ring.
    exact Up.
Qed.

Lemma ceiling_bounds (x lo hi : Z) :
  lo * 2 ^ 149 < x <= hi * 2 ^ 149 -> lo < ceiling x <= hi.
Proof.
  intros [L H]. pose proof pow149 as U.
  pose proof (ceiling_spec x) as [C1 C2].
  split.
  - apply (Z.mul_lt_mono_pos_r (2 ^ 149)); [exact U|lia].
  - assert (ceiling x * 2 ^ 149 < (hi + 1) * 2 ^ 149) by lia.
    assert (ceiling x < hi + 1)
      by (apply (Z.mul_lt_mono_pos_r (2 ^ 149)); [exact U|assumption]).
    lia.
Qed.

Lemma multiple_of_four (W : Z) : Z.rem W 4 = 0 -> W = 4 * Z.quot W 4.
Proof. intro R. pose proof (Z.quot_rem' W 4). lia. Qed.

(** A draw size within 1 of a multiple of four [W] ends up as [W]. *)
Lemma final_size_fill (W x : Z) :
  0 <= W -> Z.rem W 4 = 0 ->
  (W - 1) * 2 ^ 149 < x <= (W + 1) * 2 ^ 149 ->
  final_size x = W.
Proof.
  intros W0 R B. unfold final_size.
  pose proof (ceiling_bounds x (W - 1) (W + 1) B) as C.
  destruct (by_four_spec (ceiling x)) as (_ & _ & _ & D & N).
  specialize (N ltac:(lia)).
  pose proof (multiple_of_four W R) as E.
  unfold by_four in *. rewrite Z.abs_lt in D. lia.
Qed.

(** A draw size of at most [W + 1], [W] a multiple of four, ends up as a
    multiple of four between 0 and [W]. *)
Lemma final_size_fit (W x : Z) :
  0 <= W -> Z.rem W 4 = 0 ->
  0 <= x <= (W + 1) * 2 ^ 149 ->
  0 <= final_size x <= W /\ Z.rem (final_size x) 4 = 0 /\
  0 <= ceiling x <= W + 1.
Proof.
  intros W0 R [X0 X1]. unfold final_size. pose proof pow149 as U.
  pose proof (ceiling_spec x) as [C1 C2].
  assert (C0 : 0 <= ceiling x).
  { destruct (Z_le_gt_dec 0 (ceiling x)) as [|Neg]; [assumption|exfalso].
    assert (ceiling x * 2 ^ 149 <= (-1) * 2 ^ 149)
      by (apply Z.mul_le_mono_nonneg_r; lia).
    lia. }
  assert (C3 : ceiling x <= W + 1).
  { assert (ceiling x * 2 ^ 149 < (W + 2) * 2 ^ 149) by lia.
    assert (ceiling x < W + 2)
      by (apply (Z.mul_lt_mono_pos_r (2 ^ 149)); [exact U|assumption]).
    lia. }
  destruct (by_four_spec (ceiling x)) as (_ & R4 & _ & _ & N).
  specialize (N C0).
  pose proof (multiple_of_four W R) as E.
  split; [|split; [exact R4|lia]].
  unfold by_four in *. lia.
Qed.

Lemma ceiling_int (k : Z) : ceiling (k * 2 ^ 149) = k.
Proof.
  unfold ceiling. pose proof pow149 as U.
  rewrite <- Z.mul_opp_l, Z.div_mul by lia. lia.
Qed.

(** A multiple of four inside another is centred exactly. *)
Lemma half_away_centre (W w : Z) :
  0 <= w <= W -> Z.rem W 4 = 0 -> Z.rem w 4 = 0 ->
  0 <= half_away (W - w) /\ 2 * half_away (W - w) = W - w.
Proof.
  intros B RW Rw.
  destruct (half_away_spec (W - w)) as [M A].
  pose proof (multiple_of_four W RW). pose proof (multiple_of_four w Rw).
  rewrite Z.abs_le in M. lia.
Qed.

(** The rectangle [UpdateDrawRectangle] computes from a draw size of [dw]
    by [dh] units. *)
Lemma UpdateDrawRectangle_exact (c : Context) (p : Presenter) (dw dh : Z) :
  ScaledDrawSize c p = (Fin dw, Fin dh) ->
  Z.abs (ceiling dw) < 2 ^ 24 -> Z.abs (ceiling dh) < 2 ^ 24 ->
  Z.abs (m_backbuffer_width p) < 2 ^ 24 ->
  Z.abs (m_backbuffer_height p) < 2 ^ 24 ->
  UpdateDrawRectangle c p =
    Some {| m_backbuffer_width := m_backbuffer_width p;
            m_backbuffer_height := m_backbuffer_height p;
            m_target_rectangle :=
              {| left := half_away (m_backbuffer_width p - final_size dw);
                 top := half_away (m_backbuffer_height p - final_size dh);
                 right := half_away (m_backbuffer_width p - final_size dw)
                          + final_size dw;
                 bottom := half_away (m_backbuffer_height p - final_size dh)
                           + final_size dh |} |}.
Proof.
  intros S Cw Ch HW HH.
  assert (P24 : 2 ^ 24 = 16777216) by reflexivity.
  assert (P30 : 2 ^ 30 = 1073741824) by reflexivity.
  destruct (by_four_spec (ceiling dw)) as (_ & _ & Aw & _ & _).
  destruct (by_four_spec (ceiling dh)) as (_ & _ & Ah & _ & _).
  fold (final_size dw) in *. fold (final_size dh) in *.
  destruct (half_away_spec (m_backbuffer_width p - final_size dw))
    as [_ Bw].
  destruct (half_away_spec (m_backbuffer_height p - final_size dh))
    as [_ Bh].
  assert (Fw : Z.abs (final_size dw) < 2 ^ 24) by (clear - Aw Cw; lia).
  assert (Fh : Z.abs (final_size dh) < 2 ^ 24) by (clear - Ah Ch; lia).
  assert (Lw : - 2 ^ 30 <=
               half_away (m_backbuffer_width p - final_size dw)
               + final_size dw <= 2 ^ 30)
    by (clear - Fw HW Bw P24 P30; lia).
  assert (Lh : - 2 ^ 30 <=
               half_away (m_backbuffer_height p - final_size dh)
               + final_size dh <= 2 ^ 30)
    by (clear - Fh HH Bh P24 P30; lia).
  assert (Iw : CInt.is_int (final_size dw)).
  { apply small_is_int. clear - Fw P24 P30. lia. }
  assert (Ih : CInt.is_int (final_size dh)).
  { apply small_is_int. clear - Fh P24 P30. lia. }
  assert (Win : forall W, Z.abs W < 2 ^ 24 ->
                  denotes (of_Z float W) (W * 2 ^ 149)).
  { clear. intros W H. left. apply of_Z_exact.
    assert (2 ^ 24 = 16777216) by reflexivity. lia. }
  unfold UpdateDrawRectangle, TargetRectangle. rewrite S.
  destruct (DivisibleByFour_exact (Fin dw) dw (or_introl eq_refl) Cw)
    as (x' & -> & Xw').
  destruct (DivisibleByFour_exact (Fin dh) dh (or_introl eq_refl) Ch)
    as (y' & -> & Xh').
  rewrite (Centered_exact _ x' _ (final_size dw) (Win _ HW) Xw' HW Fw).
  rewrite (Centered_exact _ y' _ (final_size dh) (Win _ HH) Xh' HH Fh).
  unfold float.
  rewrite (to_int_denotes binary32 scale32_nonneg x' (final_size dw));
    [ | rewrite scale32; exact Xw' | exact Iw ].
  rewrite (to_int_denotes binary32 scale32_nonneg y' (final_size dh));
    [ | rewrite scale32; exact Xh' | exact Ih ].
  rewrite (add_exact _ _ Lw), (add_exact _ _ Lh).
  reflexivity.
Qed.

Lemma ScaledDrawSize_uncropped (c : Context) (p : Presenter) :
  negb (bCrop c) || is_Stretch (aspect_mode c) = true ->
  ScaledDrawSize c p =
  if geb (div float (of_Z float (m_backbuffer_width p))
                    (of_Z float (m_backbuffer_height p)))
         (div float (CalculateDrawAspectRatio c p) (lit 1))
  then (mul float (CalculateDrawAspectRatio c p)
          (div float (of_Z float (m_backbuffer_height p)) (lit 1)),
        mul float (lit 1)
          (div float (of_Z float (m_backbuffer_height p)) (lit 1)))
  else (mul float (CalculateDrawAspectRatio c p)
          (div float (of_Z float (m_backbuffer_width p))
                     (CalculateDrawAspectRatio c p)),
        mul float (lit 1)
          (div float (of_Z float (m_backbuffer_width p))
                     (CalculateDrawAspectRatio c p))).
Proof.
  intro N. unfold ScaledDrawSize, ApplyStandardAspectCrop. rewrite N.
  reflexivity.
Qed.

(** The draw size of an uncropped picture in a backbuffer of [W] by [H]:
    either the height is exactly [H] and the width at most [W + 1] (the
    window is flatter than the picture), or the width is within 1 of [W]
    and the height at most [H] (the window is skinnier). *)
Lemma uncropped_draw_size (c : Context) (p : Presenter) (a : Z) :
  negb (bCrop c) || is_Stretch (aspect_mode c) = true ->
  CalculateDrawAspectRatio c p = Fin a ->
  anchor binary32 a -> 2 ^ 129 <= a <= 2 ^ 169 ->
  1 <= m_backbuffer_width p <= 2 ^ 20 ->
  1 <= m_backbuffer_height p <= 2 ^ 20 ->
  exists dw dh,
    ScaledDrawSize c p = (Fin dw, Fin dh) /\
    ((dh = m_backbuffer_height p * 2 ^ 149 /\
      0 <= dw <= (m_backbuffer_width p + 1) * 2 ^ 149 /\
      (div float (of_Z float (m_backbuffer_width p))
                 (of_Z float (m_backbuffer_height p)) = Fin a ->
       (m_backbuffer_width p - 1) * 2 ^ 149 < dw))
     \/
     ((m_backbuffer_width p - 1) * 2 ^ 149 < dw
        <= (m_backbuffer_width p + 1) * 2 ^ 149 /\
      0 <= dh <= m_backbuffer_height p * 2 ^ 149 /\
      div float (of_Z float (m_backbuffer_width p))
                (of_Z float (m_backbuffer_height p)) <> Fin a)).
Proof.
  intros N Ea An Ha HW HH. pose proof pow149 as U.
  set (W := m_backbuffer_width p) in *.
  set (H := m_backbuffer_height p) in *.
  destruct powers as (P149 & P169 & P20 & P24 & P23 & P129 & A & A' & _).
  rewrite (ScaledDrawSize_uncropped c p N). fold W H. rewrite Ea.
  assert (Ra : representable binary32 a).
  { right. rewrite Z.abs_eq by lia. split; [exact An|].
    assert (2 ^ 169 <= IEEE.top binary32) by (apply pow2_le_top; lia).
    lia. }
  rewrite (div_by_one a) by (try assumption; lia).
  destruct (window_ratio W H HW HH) as (r & Er & Er' & Rr & Br & Kr).
  rewrite Er. unfold geb, leb, num.
  destruct (Z.leb_spec a r) as [Le|Gt].
  - (* the window is flatter than the picture *)
    destruct (flat_width a H) as (dw & Ed & Bd & Nd); [lia|lia|].
    rewrite Ed, (flat_height H HH).
    exists dw, (H * 2 ^ 149). split; [reflexivity|]. left.
    split; [reflexivity|].
    assert (AH : a * H <= r * H) by (apply Z.mul_le_mono_nonneg_r; lia).
    rewrite P24 in Bd, Br.
    set (y := r * H) in *. set (z := a * H) in *. set (T := W * 2 ^ 149) in *.
    assert (T20 : T <= 1048576 * 2 ^ 149)
      by (unfold T; apply Z.mul_le_mono_nonneg_r; lia).
    assert (T0 : 0 <= T) by (unfold T; apply Z.mul_nonneg_nonneg; lia).
    split; [split; [exact Nd|]|].
    + replace ((W + 1) * 2 ^ 149) with (T + 2 ^ 149) by (unfold T; ring).
      clearbody y z T.
      apply (two_roundings_upper 16777216 T (2 ^ 149) dw y); lia.
    + intro Same. injection Same as Same.
      assert (z = y) by (unfold z, y; rewrite Same; reflexivity).
      replace ((W - 1) * 2 ^ 149) with (T - 2 ^ 149) by (unfold T; ring).
      clearbody y z T.
      apply (two_roundings_lower 16777216 T (2 ^ 149) dw y); lia.
  - (* the window is skinnier than the picture *)
    destruct (skinny_size a W H r An Ha HW HH Er' Gt)
      as (k & dw & Ek & Ed & Eh & Bd & Bk).
    rewrite Ek, Ed, Eh. exists dw, k. split; [reflexivity|]. right.
    split; [exact Bd|]. split; [lia|].
    intro Same. injection Same as Same. lia.
Qed.

(** X14.  Without the standard-aspect crop, in a backbuffer whose width
    and height are multiples of four (up to [2^20]) and for a draw aspect
    ratio between [2^-20] and [2^20], [UpdateDrawRectangle] has a result,
    and its target rectangle lies within the backbuffer, is centred exactly
    along both axes, has a width and a height that are multiples of four,
    and spans the whole backbuffer along one axis. *)
Theorem UpdateDrawRectangle_fits_and_fills
    (c : Context) (p : Presenter) (a : Z) :
  negb (bCrop c) || is_Stretch (aspect_mode c) = true ->
  CalculateDrawAspectRatio c p = Fin a ->
  anchor binary32 a -> 2 ^ 129 <= a <= 2 ^ 169 ->
  0 < m_backbuffer_width p <= 2 ^ 20 ->
  Z.rem (m_backbuffer_width p) 4 = 0 ->
  0 < m_backbuffer_height p <= 2 ^ 20 ->
  Z.rem (m_backbuffer_height p) 4 = 0 ->
  exists rc,
    UpdateDrawRectangle c p =
      Some {| m_backbuffer_width := m_backbuffer_width p;
              m_backbuffer_height := m_backbuffer_height p;
              m_target_rectangle := rc |} /\
    inside (m_backbuffer_width p) (m_backbuffer_height p) rc /\
    left rc + right rc = m_backbuffer_width p /\
    top rc + bottom rc = m_backbuffer_height p /\
    Z.rem (right rc - left rc) 4 = 0 /\
    Z.rem (bottom rc - top rc) 4 = 0 /\
    ((top rc = 0 /\ bottom rc = m_backbuffer_height p) \/
     (left rc = 0 /\ right rc = m_backbuffer_width p)).
Proof.
  intros N Ea An Ha HW RW HH RH.
  destruct (uncropped_draw_size c p a N Ea An Ha ltac:(lia) ltac:(lia))
    as (dw & dh & S & Cases).
  set (W := m_backbuffer_width p) in *.
  set (H := m_backbuffer_height p) in *.
  assert (P24 : 2 ^ 24 = 16777216) by reflexivity.
  assert (P20 : 2 ^ 20 = 1048576) by reflexivity.
  assert (Fit : exists w h,
            final_size dw = w /\ final_size dh = h /\
            0 <= w <= W /\ 0 <= h <= H /\
            Z.rem w 4 = 0 /\ Z.rem h 4 = 0 /\ (h = H \/ w = W) /\
            0 <= ceiling dw <= W + 1 /\ 0 <= ceiling dh <= H + 1).
  { destruct Cases as [(Eh & Bw & _) | (Bw & Bh & _)].
    - destruct (final_size_fit W dw ltac:(lia) RW Bw) as (Fw & R4 & Cw).
      exists (final_size dw), H. subst dh.
      assert (FH : final_size (H * 2 ^ 149) = H).
      { unfold final_size. rewrite ceiling_int. unfold by_four.
        symmetry. apply multiple_of_four. exact RH. }
      rewrite ceiling_int.
      repeat split; (assumption || lia).
    - assert (FW : final_size dw = W)
        by (apply final_size_fill; [lia|exact RW|exact Bw]).
      pose proof (ceiling_bounds dw _ _ Bw) as Cw.
      assert (Bh' : 0 <= dh <= (H + 1) * 2 ^ 149).
      { pose proof pow149.
        replace ((H + 1) * 2 ^ 149) with (H * 2 ^ 149 + 2 ^ 149) by ring.
        lia. }
      destruct (final_size_fit H dh ltac:(lia) RH Bh') as (Fh & R4 & Ch).
      assert (Ch' : ceiling dh <= H).
      { destruct (ceiling_spec dh) as [_ C2].
        assert (ceiling dh * 2 ^ 149 < (H + 1) * 2 ^ 149).
        { replace ((H + 1) * 2 ^ 149) with (H * 2 ^ 149 + 2 ^ 149) by ring.
          lia. }
        assert (ceiling dh < H + 1)
          by (apply (Z.mul_lt_mono_pos_r (2 ^ 149));
              [exact pow149|assumption]).
        lia. }
      exists W, (final_size dh).
      repeat split; (assumption || lia). }
  destruct Fit as (w & h & Ew & Eh & Bw & Bh & R4w & R4h & Full & Cw & Ch).
  rewrite (UpdateDrawRectangle_exact c p dw dh S); fold W H;
    try (rewrite Z.abs_lt; lia).
  rewrite Ew, Eh.
  destruct (half_away_centre W w Bw RW R4w) as [Lw Mw].
  destruct (half_away_centre H h Bh RH R4h) as [Lh Mh].
  eexists. split; [reflexivity|].
  unfold inside. cbn [left top right bottom].
  replace (half_away (W - w) + w - half_away (W - w)) with w by ring.
  replace (half_away (H - h) + h - half_away (H - h)) with h by ring.
  repeat split; (assumption || lia).
Qed.

Lemma UpdateDrawRectangle_fits_and_fills_at_1000x400 :
  exists rc,
    UpdateDrawRectangle wide_picture backbuffer_1000x400 =
      Some {| m_backbuffer_width := 1000; m_backbuffer_height := 400;
              m_target_rectangle := rc |} /\
    inside 1000 400 rc /\
    left rc + right rc = 1000 /\
    top rc + bottom rc = 400 /\
    Z.rem (right rc - left rc) 4 = 0 /\
    Z.rem (bottom rc - top rc) 4 = 0 /\
    ((top rc = 0 /\ bottom rc = 400) \/ (left rc = 0 /\ right rc = 1000)).
Proof.
  apply (UpdateDrawRectangle_fits_and_fills wide_picture backbuffer_1000x400
           wide_picture_aspect).
  - reflexivity.
  - vm_compute. reflexivity.
  - exists (wide_picture_aspect / 2 ^ 126), 126.
    repeat split; vm_compute; try reflexivity; discriminate.
  - split; vm_compute; discriminate.
  - split; vm_compute; try reflexivity; discriminate.
  - reflexivity.
  - split; vm_compute; try reflexivity; discriminate.
  - reflexivity.
Defined.

(** X20.  In [Stretch] mode, with a backbuffer whose width and height are
    multiples of four (up to [2^20]), the target rectangle
    [UpdateDrawRectangle] computes is the whole backbuffer, whatever the
    source aspect ratio and the crop setting. *)
Theorem UpdateDrawRectangle_stretch_fills_the_backbuffer
    (c : Context) (p : Presenter) :
  aspect_mode c = Stretch ->
  0 < m_backbuffer_width p <= 2 ^ 20 ->
  Z.rem (m_backbuffer_width p) 4 = 0 ->
  0 < m_backbuffer_height p <= 2 ^ 20 ->
  Z.rem (m_backbuffer_height p) 4 = 0 ->
  UpdateDrawRectangle c p =
    Some {| m_backbuffer_width := m_backbuffer_width p;
            m_backbuffer_height := m_backbuffer_height p;
            m_target_rectangle :=
              {| left := 0; top := 0;
                 right := m_backbuffer_width p;
                 bottom := m_backbuffer_height p |} |}.
Proof.
  intros M HW RW HH RH.
  assert (N : negb (bCrop c) || is_Stretch (aspect_mode c) = true)
    by (rewrite M; apply orb_true_r).
  destruct (window_ratio (m_backbuffer_width p) (m_backbuffer_height p))
    as (r & Er & _ & Rr & _ & Kr); try lia.
  assert (Ea : CalculateDrawAspectRatio c p = Fin r).
  { unfold CalculateDrawAspectRatio. rewrite M. exact Er. }
  assert (An : anchor binary32 r).
  { assert (0 < 2 ^ 129) by (apply Z.pow_pos_nonneg; lia).
    destruct Kr as [Z0 | [An _]]; [lia|].
    rewrite Z.abs_eq in An by lia. exact An. }
  destruct (uncropped_draw_size c p r N Ea An Rr ltac:(lia) ltac:(lia))
    as (dw & dh & S & [(Eh & Bw & Lw) | (_ & _ & Ne)]);
    [|contradiction].
  specialize (Lw Er).
  set (W := m_backbuffer_width p) in *.
  set (H := m_backbuffer_height p) in *.
  assert (P24 : 2 ^ 24 = 16777216) by reflexivity.
  assert (P20 : 2 ^ 20 = 1048576) by reflexivity.
  assert (FW : final_size dw = W)
    by (apply final_size_fill; [lia|exact RW|lia]).
  assert (FH : final_size dh = H).
  { subst dh. unfold final_size. rewrite ceiling_int. unfold by_four.
    symmetry. apply multiple_of_four. exact RH. }
  assert (Cw : W - 1 < ceiling dw <= W + 1)
    by (apply ceiling_bounds; lia).
  assert (Ch : ceiling dh = H) by (subst dh; apply ceiling_int).
  rewrite (UpdateDrawRectangle_exact c p dw dh S); fold W H;
    try (rewrite Z.abs_lt; lia).
  rewrite FW, FH, !Z.sub_diag. reflexivity.
Qed.

Lemma UpdateDrawRectangle_stretch_fills_1000x400 :
  UpdateDrawRectangle stretched_picture backbuffer_1000x400 =
    Some {| m_backbuffer_width := 1000; m_backbuffer_height := 400;
            m_target_rectangle :=
              {| left := 0; top := 0; right := 1000; bottom := 400 |} |}.
Proof.
  apply (UpdateDrawRectangle_stretch_fills_the_backbuffer
           stretched_picture backbuffer_1000x400).
  - reflexivity.
  - split; vm_compute; try reflexivity; discriminate.
  - reflexivity.
  - split; vm_compute; try reflexivity; discriminate.
  - reflexivity.
Defined.

(** *** The output size covers the request *)

Lemma to_int_ceil (n : Z) :
  0 <= n <= 2 ^ 28 * 2 ^ 149 ->
  to_int float (ceil float (Fin n)) = Some (ceiling n) /\
  0 <= ceiling n <= 2 ^ 28.
Proof.
  intros [N0 N1]. pose proof pow149 as U.
  pose proof (ceiling_spec n) as [C1 C2].
  assert (C0 : 0 <= ceiling n).
  { destruct (Z_le_gt_dec 0 (ceiling n)) as [|Neg]; [assumption|exfalso].
    assert (ceiling n * 2 ^ 149 <= (-1) * 2 ^ 149)
      by (apply Z.mul_le_mono_nonneg_r; lia).
    lia. }
  assert (C3 : ceiling n <= 2 ^ 28).
  { assert (ceiling n * 2 ^ 149 < (2 ^ 28 + 1) * 2 ^ 149) by lia.
    assert (ceiling n < 2 ^ 28 + 1)
      by (apply (Z.mul_lt_mono_pos_r (2 ^ 149)); [exact U|assumption]).
    lia. }
  split; [|split; assumption].
  unfold float. apply (to_int_denotes binary32 scale32_nonneg).
  - rewrite scale32.
    apply (ceil_denotes binary32 scale32_nonneg (Fin n) n).
    left. reflexivity.
  - apply small_is_int.
    assert (2 ^ 28 < 2 ^ 30) by (vm_compute; reflexivity). lia.
Qed.

Lemma by_four_le (k1 k2 : Z) : 0 <= k1 <= k2 -> by_four k1 <= by_four k2.
Proof.
  intro H. unfold by_four.
  assert (Z.quot k1 4 <= Z.quot k2 4) by (apply Z.quot_le_mono; lia). lia.
Qed.

Lemma output_side (k : Z) :
  0 <= k <= 2 ^ 28 -> CInt.sub k (CInt.rem4 k) = by_four k.
Proof.
  intro H.
  destruct (sub_rem4 k) as [E _]; [|exact E].
  apply small_is_int.
  assert (2 ^ 28 < 2 ^ 30) by (vm_compute; reflexivity). lia.
Qed.

(** The side derived when the width is kept: [width / draw_aspect],
    raised to an integer, is at least the requested height. *)
Lemma derived_height (a W H r : Z) :
  2 ^ 141 <= a <= 2 ^ 157 ->
  1 <= W <= 2 ^ 20 -> 1 <= H <= 2 ^ 20 ->
  (2 ^ 24 - 1) * (W * 2 ^ 149) <= 2 ^ 24 * (r * H)
    <= (2 ^ 24 + 1) * (W * 2 ^ 149) ->
  a <= r ->
  exists k,
    div float (of_Z float W) (Fin a) = Fin k /\
    (H - 1) * 2 ^ 149 < k <= 2 ^ 28 * 2 ^ 149.
Proof.
  intros Ha HW HH Br Le. pose proof pow149 as U.
  assert (P24 : 2 ^ 24 = 16777216) by reflexivity.
  assert (P20 : 2 ^ 20 = 1048576) by reflexivity.
  assert (UU : 0 < 2 ^ 149 * 2 ^ 149) by (apply Z.mul_pos_pos; assumption).
  assert (A0 : 0 < 2 ^ 141) by (apply Z.pow_pos_nonneg; lia).
  assert (Lo : 2 ^ 141 * a <= W * 2 ^ 149 * 2 ^ 149).
  { assert (2 ^ 141 * a <= 2 ^ 141 * 2 ^ 157)
      by (apply Z.mul_le_mono_nonneg_l; lia).
    assert (E : 2 ^ 141 * 2 ^ 157 = 2 ^ 149 * 2 ^ 149) by reflexivity.
    assert (1 * (2 ^ 149 * 2 ^ 149) <= W * (2 ^ 149 * 2 ^ 149))
      by (apply Z.mul_le_mono_nonneg_r; lia).
    lia. }
  assert (Hi : W * 2 ^ 149 * 2 ^ 149 <= 2 ^ 28 * 2 ^ 149 * a).
  { assert (W * (2 ^ 149 * 2 ^ 149) <= 2 ^ 20 * (2 ^ 149 * 2 ^ 149))
      by (apply Z.mul_le_mono_nonneg_r; lia).
    assert (E : 2 ^ 20 * (2 ^ 149 * 2 ^ 149) = 2 ^ 28 * 2 ^ 149 * 2 ^ 141)
      by reflexivity.
    assert (2 ^ 28 * 2 ^ 149 * 2 ^ 141 <= 2 ^ 28 * 2 ^ 149 * a)
      by (apply Z.mul_le_mono_nonneg_l; lia).
    lia. }
  assert (P177 : 2 ^ 177 = 2 ^ 28 * 2 ^ 149) by reflexivity.
  destruct (round_ratio_between binary32 prec32 (W * 2 ^ 149 * 2 ^ 149) a
              (2 ^ 141) (2 ^ 177)) as [k [Ek Rk]].
  { lia. }
  { apply anchor_pow2. lia. }
  { apply anchor_pow2. lia. }
  { apply pow2_le_top. lia. }
  { rewrite P177. split; assumption. }
  rewrite P177 in Rk.
  destruct (round32_normal (W * 2 ^ 149 * 2 ^ 149) a k) as (Bk & _ & _).
  { lia. }
  { assert (2 ^ 23 * a <= 2 ^ 141 * a)
      by (apply Z.mul_le_mono_nonneg_r; lia).
    lia. }
  { exact Ek. }
  exists k. split.
  { rewrite (of_Z_int W) by lia. unfold float.
    rewrite div_Fin_pos by lia. rewrite scale32. exact Ek. }
  split; [|lia].
  (* (P - 1) H U <= (P + 1) k *)
  rewrite P24 in Bk, Br. destruct Bk as [Bk _]. destruct Br as [_ Br].
  set (X := W * 2 ^ 149) in *.
  assert (AH : a * H <= r * H) by (apply Z.mul_le_mono_nonneg_r; lia).
  assert (S1 : 16777216 * (a * H * 2 ^ 149) <= 16777217 * (X * 2 ^ 149)).
  { assert (16777216 * (a * H) * 2 ^ 149 <= 16777217 * X * 2 ^ 149)
      by (apply Z.mul_le_mono_nonneg_r; lia).
    lia. }
  assert (S2 : 16777215 * (a * H * 2 ^ 149) <= 16777217 * (k * a)).
  { assert (16777215 * (16777216 * (a * H * 2 ^ 149)) <=
            16777215 * (16777217 * (X * 2 ^ 149)))
      by (apply Z.mul_le_mono_nonneg_l; lia).
    assert (16777217 * (16777215 * (X * 2 ^ 149)) <=
            16777217 * (16777216 * (k * a)))
      by (apply Z.mul_le_mono_nonneg_l; lia).
    lia. }
  assert (S3 : 16777215 * (H * 2 ^ 149) <= 16777217 * k).
  { apply (Z.mul_le_mono_pos_r _ _ a); [lia|].
    replace (16777215 * (H * 2 ^ 149) * a)
      with (16777215 * (a * H * 2 ^ 149)) by ring.
    replace (16777217 * k * a) with (16777217 * (k * a)) by ring.
    exact S2. }
  assert (S4 : 16777217 * ((H - 1) * 2 ^ 149) < 16777215 * (H * 2 ^ 149)).
  { replace (16777217 * ((H - 1) * 2 ^ 149))
      with ((16777217 * (H - 1)) * 2 ^ 149) by ring.
    replace (16777215 * (H * 2 ^ 149))
      with ((16777215 * H) * 2 ^ 149) by ring.
    apply Z.mul_lt_mono_pos_r; lia. }
  clearbody X. clear - S3 S4. lia.
Qed.

(** The side derived when the height is kept: [height * draw_aspect],
    raised to an integer, is at least the requested width. *)
Lemma derived_width (a W H r : Z) :
  anchor binary32 a -> 2 ^ 141 <= a <= 2 ^ 157 ->
  1 <= W <= 2 ^ 20 -> 1 <= H <= 2 ^ 20 ->
  round_ratio binary32 (W * 2 ^ 149) H = Fin r -> r < a ->
  exists m,
    mul float (of_Z float H) (Fin a) = Fin m /\
    W * 2 ^ 149 <= m <= 2 ^ 28 * 2 ^ 149.
Proof.
  intros An Ha HW HH Er Lt. pose proof pow149 as U.
  assert (P24 : 2 ^ 24 = 16777216) by reflexivity.
  assert (P20 : 2 ^ 20 = 1048576) by reflexivity.
  assert (A0 : 0 < 2 ^ 141) by (apply Z.pow_pos_nonneg; lia).
  assert (Sk : W * 2 ^ 149 < a * H).
  { destruct (Z_lt_le_dec (W * 2 ^ 149) (a * H)) as [|Ge]; [assumption|].
    exfalso.
    destruct (round_ratio_ge binary32 prec32 (W * 2 ^ 149) H a)
      as [I | [n [E N]]]; try assumption; try lia.
    - rewrite Er in I. discriminate.
    - rewrite Er in E. injection E as <-. lia. }
  assert (S : round_ratio binary32 (H * 2 ^ 149 * a) (2 ^ 149) =
              round_ratio binary32 (H * a) 1).
  { replace (H * 2 ^ 149 * a) with (H * a * 2 ^ 149) by ring.
    replace (2 ^ 149) with (1 * 2 ^ 149) at 2 by ring.
    apply round_ratio_scale; lia. }
  assert (Hi : H * a <= 2 ^ 28 * 2 ^ 149 * 1).
  { assert (H * a <= 2 ^ 20 * 2 ^ 157)
      by (apply Z.mul_le_mono_nonneg; lia).
    assert (E : 2 ^ 20 * 2 ^ 157 = 2 ^ 28 * 2 ^ 149 * 1) by reflexivity.
    lia. }
  assert (P177 : 2 ^ 177 = 2 ^ 28 * 2 ^ 149) by reflexivity.
  destruct (round_ratio_between binary32 prec32 (H * a) 1
              (W * 2 ^ 149) (2 ^ 177)) as [m [Em Rm]].
  { lia. }
  { apply anchor_int. rewrite P24. lia. }
  { apply anchor_pow2. lia. }
  { apply pow2_le_top. lia. }
  { rewrite P177. split; [lia|exact Hi]. }
  rewrite P177 in Rm.
  exists m. split; [|exact Rm].
  rewrite (of_Z_int H) by lia. unfold float.
  rewrite mul_Fin by lia. rewrite scale32, S. exact Em.
Qed.

(** X21.  Without the standard-aspect crop, for a draw aspect ratio
    between 1/256 and 256 and requests of at most [2^20],
    [CalculateOutputDimensions] loses no resolution: each side it returns
    is at least the requested side (a request below 1 counting as 1)
    rounded down to a multiple of four, and one of the two is exactly
    that. *)
Theorem CalculateOutputDimensions_covers_the_request
    (c : Context) (p : Presenter) (a width height : Z) :
  negb (bCrop c) || is_Stretch (aspect_mode c) = true ->
  CalculateDrawAspectRatio c p = Fin a ->
  anchor binary32 a -> 2 ^ 141 <= a <= 2 ^ 157 ->
  width <= 2 ^ 20 -> height <= 2 ^ 20 ->
  exists w h,
    CalculateOutputDimensions c p width height = Some (w, h) /\
    by_four (Z.max width 1) <= w /\
    by_four (Z.max height 1) <= h /\
    (w = by_four (Z.max width 1) \/ h = by_four (Z.max height 1)).
Proof.
  intros N Ea An Ha Hw Hh. pose proof pow149 as U.
  assert (P20 : 2 ^ 20 = 1048576) by reflexivity.
  assert (P28 : 2 ^ 28 = 268435456) by reflexivity.
  unfold CalculateOutputDimensions, ScaleToDisplayAspectRatio.
  set (W := Z.max width 1). set (H := Z.max height 1).
  assert (HW : 1 <= W <= 2 ^ 20) by (unfold W; lia).
  assert (HH : 1 <= H <= 2 ^ 20) by (unfold H; lia).
  clearbody W H. rewrite Ea.
  destruct (window_ratio W H HW HH) as (r & Er & Er' & _ & Br & _).
  rewrite Er. unfold geb, leb, num.
  assert (Side : forall k, 0 <= k <= 2 ^ 20 ->
            to_int float (ceil float (of_Z float k)) = Some k).
  { intros k Hk. rewrite (of_Z_int k Hk).
    destruct (to_int_ceil (k * 2 ^ 149)) as [E _].
    - split; [apply Z.mul_nonneg_nonneg; lia|].
      apply Z.mul_le_mono_nonneg_r; lia.
    - rewrite E, ceiling_int. reflexivity. }
  destruct (Z.leb_spec a r) as [Le|Gt].
  - (* the width is kept *)
    destruct (derived_height a W H r Ha HW HH Br Le) as (k & Ek & Bk).
    rewrite Ek. unfold ApplyStandardAspectCrop. rewrite N.
    rewrite (Side W) by lia.
    destruct (to_int_ceil k) as [Ec Rc]; [lia|]. rewrite Ec.
    assert (Ck : H - 1 < ceiling k).
    { destruct (ceiling_spec k) as [C1 _].
      apply (Z.mul_lt_mono_pos_r (2 ^ 149)); [exact U|lia]. }
    rewrite (output_side W), (output_side (ceiling k)) by lia.
    exists (by_four W), (by_four (ceiling k)).
    split; [reflexivity|]. split; [lia|].
    split; [apply by_four_le; lia|left; reflexivity].
  - (* the height is kept *)
    destruct (derived_width a W H r An Ha HW HH Er' Gt) as (m & Em & Bm).
    rewrite Em. unfold ApplyStandardAspectCrop. rewrite N.
    rewrite (Side H) by lia.
    destruct (to_int_ceil m) as [Ec Rc].
    { split; [|lia].
      assert (0 <= W * 2 ^ 149) by (apply Z.mul_nonneg_nonneg; lia). lia. }
    rewrite Ec.
    assert (Cm : W <= ceiling m).
    { destruct (ceiling_spec m) as [C1 _].
      apply (Z.mul_le_mono_pos_r _ _ (2 ^ 149)); [exact U|lia]. }
    rewrite (output_side H), (output_side (ceiling m)) by lia.
    exists (by_four (ceiling m)), (by_four H).
    split; [reflexivity|]. split; [apply by_four_le; lia|].
    split; [lia|right; reflexivity].
Qed.

Lemma CalculateOutputDimensions_covers_640x528 :
  exists w h,
    CalculateOutputDimensions wide_picture backbuffer_1000x400 640 528 =
      Some (w, h) /\
    by_four (Z.max 640 1) <= w /\
    by_four (Z.max 528 1) <= h /\
    (w = by_four (Z.max 640 1) \/ h = by_four (Z.max 528 1)).
Proof.
  apply (CalculateOutputDimensions_covers_the_request
           wide_picture backbuffer_1000x400 wide_picture_aspect 640 528).
  - reflexivity.
  - vm_compute. reflexivity.
  - exists (wide_picture_aspect / 2 ^ 126), 126.
    repeat split; vm_compute; try reflexivity; discriminate.
  - split; vm_compute; discriminate.
  - vm_compute. discriminate.
  - vm_compute. discriminate.
Defined.

(** *** The standard-aspect crop *)

Lemma expected_aspect_units (c : Context) :
  exists e, expected_aspect c = Fin e /\ 2 ^ 149 <= e <= 2 ^ 150 /\
            representable binary32 e.
Proof.
  unfold expected_aspect.
  assert (A : forall n d e,
            div float (lit n) (lit d) = Fin e -> 2 ^ 149 <= e <= 2 ^ 150 ->
            anchor binary32 e ->
            exists e', div float (lit n) (lit d) = Fin e' /\
                       2 ^ 149 <= e' <= 2 ^ 150 /\
                       representable binary32 e').
  { intros n d e E R An. exists e. split; [exact E|]. split; [exact R|].
    right. pose proof pow149.
    rewrite Z.abs_eq by lia. split; [exact An|].
    assert (2 ^ 150 <= IEEE.top binary32) by (apply pow2_le_top; lia).
    lia. }
  destruct (wide c).
  - apply (A 16 9 (num (div float (lit 16) (lit 9)))).
    + vm_compute. reflexivity.
    + split; vm_compute; discriminate.
    + exists (num (div float (lit 16) (lit 9)) / 2 ^ 126), 126.
      repeat split; vm_compute; try reflexivity; discriminate.
  - apply (A 4 3 (num (div float (lit 4) (lit 3)))).
    + vm_compute. reflexivity.
    + split; vm_compute; discriminate.
    + exists (num (div float (lit 4) (lit 3)) / 2 ^ 126), 126.
      repeat split; vm_compute; try reflexivity; discriminate.
Qed.

(** X24.  The standard-aspect crop as [UpdateDrawRectangle] applies it, to
    a picture of [draw_aspect] by 1: with the crop off or in [Stretch]
    mode the picture is returned as it is; otherwise a picture wider than
    the expected aspect ratio (16:9 or 4:3) is cut to exactly that ratio by
    1, and any other picture keeps its width and gets a height of at most
    1.  The crop never enlarges a side. *)
Theorem ApplyStandardAspectCrop_never_enlarges (c : Context) (a : Z) :
  anchor binary32 a -> 2 ^ 129 <= a <= 2 ^ 169 ->
  (negb (bCrop c) || is_Stretch (aspect_mode c) = true ->
   ApplyStandardAspectCrop c (Fin a) (lit 1) = (Fin a, lit 1)) /\
  (negb (bCrop c) || is_Stretch (aspect_mode c) = false ->
   exists e,
     expected_aspect c = Fin e /\
     ((e < a /\
       ApplyStandardAspectCrop c (Fin a) (lit 1) = (Fin e, lit 1))
      \/
      (a <= e /\
       exists q,
         ApplyStandardAspectCrop c (Fin a) (lit 1) = (Fin a, Fin q) /\
         0 < q <= 2 ^ 149))).
Proof.
  intros An Ha. pose proof pow149 as U.
  assert (Ra : representable binary32 a).
  { right. rewrite Z.abs_eq by lia. split; [exact An|].
    assert (2 ^ 169 <= IEEE.top binary32) by (apply pow2_le_top; lia).
    lia. }
  split; intro N; unfold ApplyStandardAspectCrop; rewrite N;
    [reflexivity|].
  fold (expected_aspect c).
  destruct (expected_aspect_units c) as (e & Ee & Re & Ke).
  exists e. split; [exact Ee|].
  rewrite Ee, (div_by_one a) by (try assumption; lia).
  unfold ltb, num.
  destruct (Z.ltb_spec e a) as [Lt|Ge].
  - left. split; [exact Lt|].
    rewrite (mul_by_one e) by (try assumption; lia). reflexivity.
  - right. split; [exact Ge|].
    unfold float. rewrite div_Fin_pos by lia. rewrite scale32.
    destruct (round_ratio_between binary32 prec32 (a * 2 ^ 149) e
                (2 ^ 128) (2 ^ 149)) as [q [Eq Rq]].
    + lia.
    + apply anchor_pow2. lia.
    + apply anchor_pow2. lia.
    + apply pow2_le_top. lia.
    + split.
      * assert (2 ^ 128 * e <= 2 ^ 128 * 2 ^ 150)
          by (apply Z.mul_le_mono_nonneg_l;
              [apply Z.pow_nonneg; lia|lia]).
        assert (E : 2 ^ 128 * 2 ^ 150 = 2 ^ 129 * 2 ^ 149) by reflexivity.
        assert (2 ^ 129 * 2 ^ 149 <= a * 2 ^ 149)
          by (apply Z.mul_le_mono_nonneg_r; lia).
        lia.
      * rewrite (Z.mul_comm (2 ^ 149) e).
        apply Z.mul_le_mono_nonneg_r; lia.
    + exists q. split; [rewrite Eq; reflexivity|].
      assert (0 < 2 ^ 128) by (apply Z.pow_pos_nonneg; lia). lia.
Qed.

Lemma ApplyStandardAspectCrop_of_wide_picture :
  ApplyStandardAspectCrop wide_picture (Fin wide_picture_aspect) (lit 1) =
  (Fin wide_picture_aspect, lit 1).
Proof.
  destruct (ApplyStandardAspectCrop_never_enlarges wide_picture
              wide_picture_aspect) as [Off _].
  - exists (wide_picture_aspect / 2 ^ 126), 126.
    repeat split; vm_compute; try reflexivity; discriminate.
  - split; vm_compute; discriminate.
  - apply Off. reflexivity.
Defined.

End FitFacts.

(* ================================================================= *)
(** ** The output dimensions: scaling and cropping *)

Module OutputFacts.

Import IEEE IEEEFacts Float32Facts Present CIntFacts RectangleFacts.
Import LayoutFacts RoundingFacts FitFacts.

Lemma nearly_of_bounds (x num den : Z) :
  (2 ^ 24 - 1) * num <= 2 ^ 24 * (x * den) <= (2 ^ 24 + 1) * num ->
  nearly x num den.
Proof.
  unfold nearly. assert (P24 : 2 ^ 24 = 16777216) by reflexivity.
  rewrite P24. lia.
Qed.

Lemma positive_anchor (v : Z) :
  0 < v -> representable binary32 v -> anchor binary32 v.
Proof.
  intros P [Z | [A _]]; [lia|]. rewrite Z.abs_eq in A by lia. exact A.
Qed.

Lemma scaled_pair (c : Context) (p : Presenter) (a W H : Z) :
  CalculateDrawAspectRatio c p = Fin a ->
  anchor binary32 a -> 2 ^ 141 <= a <= 2 ^ 157 ->
  1 <= W <= 2 ^ 20 -> 1 <= H <= 2 ^ 20 ->
  exists sw sh,
    ScaleToDisplayAspectRatio c p W H = (Fin sw, Fin sh) /\
    grows_short_axis a W H sw sh /\
    (2 ^ 141 <= sw <= 2 ^ 177 /\ anchor binary32 sw) /\
    (2 ^ 141 <= sh <= 2 ^ 177 /\ anchor binary32 sh).
Proof.
  intros Ea An Ha HW HH. pose proof pow149 as U.
  assert (P20 : 2 ^ 20 = 1048576) by reflexivity.
  assert (P24 : 2 ^ 24 = 16777216) by reflexivity.
  assert (P141 : 0 < 2 ^ 141) by (apply Z.pow_pos_nonneg; lia).
  assert (P177 : 2 ^ 177 = 2 ^ 28 * 2 ^ 149) by reflexivity.
  assert (P149 : 2 ^ 149 = 2 ^ 8 * 2 ^ 141) by reflexivity.
  assert (P8 : 2 ^ 8 = 256) by reflexivity.
  assert (P28 : 2 ^ 28 = 268435456) by reflexivity.
  assert (Side : forall k, 1 <= k <= 2 ^ 20 ->
            2 ^ 141 <= k * 2 ^ 149 <= 2 ^ 177 /\
            anchor binary32 (k * 2 ^ 149)).
  { intros k Hk. split; [|apply anchor_int; lia].
    rewrite P177. split.
    - assert (1 * 2 ^ 149 <= k * 2 ^ 149)
        by (apply Z.mul_le_mono_nonneg_r; lia).
      lia.
    - apply Z.mul_le_mono_nonneg_r; lia. }
  unfold ScaleToDisplayAspectRatio. rewrite Ea.
  destruct (window_ratio W H HW HH) as (r & Er & Er' & _ & Br & _).
  rewrite Er. unfold geb, leb, num.
  destruct (Z.leb_spec a r) as [Le|Gt].
  - (* the width is kept, the height derived *)
    destruct (derived_height a W H r Ha HW HH Br Le) as (k & Ek & Bk).
    rewrite Ek. rewrite (of_Z_int W) by lia.
    rewrite (of_Z_int W) in Ek by lia. unfold float in Ek.
    rewrite div_Fin_pos in Ek by lia. rewrite scale32 in Ek.
    destruct (round32_normal (W * 2 ^ 149 * 2 ^ 149) a k)
      as (Bn & Rk & _); [lia| |exact Ek|].
    { assert (2 ^ 23 * a <= 2 ^ 23 * 2 ^ 157)
        by (apply Z.mul_le_mono_nonneg_l; lia).
      assert (2 ^ 23 * 2 ^ 157 <= 1 * (2 ^ 149 * 2 ^ 149))
        by (vm_compute; discriminate).
      assert (1 * (2 ^ 149 * 2 ^ 149) <= W * (2 ^ 149 * 2 ^ 149))
        by (apply Z.mul_le_mono_nonneg_r; lia).
      lia. }
    assert (Lo : 2 ^ 141 <= k).
    { destruct (round_ratio_ge binary32 prec32
                  (W * 2 ^ 149 * 2 ^ 149) a (2 ^ 141))
        as [I | (n & E & N)]; [lia|apply anchor_pow2; lia| | |].
      - assert (2 ^ 141 * a <= 2 ^ 141 * 2 ^ 157)
          by (apply Z.mul_le_mono_nonneg_l; lia).
        assert (2 ^ 141 * 2 ^ 157 = 1 * (2 ^ 149 * 2 ^ 149))
          by reflexivity.
        assert (1 * (2 ^ 149 * 2 ^ 149) <= W * (2 ^ 149 * 2 ^ 149))
          by (apply Z.mul_le_mono_nonneg_r; lia).
        lia.
      - rewrite Ek in I. discriminate.
      - rewrite Ek in E. injection E as <-. exact N. }
    exists (W * 2 ^ 149), k. split; [reflexivity|].
    unfold grows_short_axis. split; [left|split].
    + split; [reflexivity|]. split; [|split].
      * assert (a * H <= r * H) by (apply Z.mul_le_mono_nonneg_r; lia).
        lia.
      * apply nearly_of_bounds. exact Bn.
      * destruct (ceiling_spec k) as [C1 _].
        assert (H - 1 < ceiling k);
          [apply (Z.mul_lt_mono_pos_r (2 ^ 149)); [exact U|lia]|lia].
    + apply Side. exact HW.
    + split; [lia|]. apply positive_anchor; [lia|exact Rk].
  - (* the height is kept, the width derived *)
    destruct (derived_width a W H r An Ha HW HH Er' Gt) as (m & Em & Bm).
    rewrite Em. rewrite (of_Z_int H) by lia.
    rewrite (of_Z_int H) in Em by lia. unfold float in Em.
    rewrite mul_Fin in Em by lia. rewrite scale32 in Em.
    replace (H * 2 ^ 149 * a) with (H * a * 2 ^ 149) in Em by ring.
    replace (2 ^ 149) with (1 * 2 ^ 149) in Em at 2 by ring.
    rewrite round_ratio_scale in Em by lia.
    assert (Big : 2 ^ 23 * 1 <= H * a).
    { assert (2 ^ 23 <= 2 ^ 141) by (apply Z.pow_le_mono_r; lia).
      assert (1 * a <= H * a) by (apply Z.mul_le_mono_nonneg_r; lia).
      lia. }
    destruct (round32_normal (H * a) 1 m) as (Bn & Rm & _);
      [lia|exact Big|exact Em|].
    assert (Sk : W * 2 ^ 149 < a * H).
    { destruct (Z_lt_le_dec (W * 2 ^ 149) (a * H)) as [|Ge]; [assumption|].
      exfalso.
      destruct (round_ratio_ge binary32 prec32 (W * 2 ^ 149) H a)
        as [I | [n [E N]]]; try assumption; try lia.
      - rewrite Er' in I. discriminate.
      - rewrite Er' in E. injection E as <-. lia. }
    assert (Wm : 2 ^ 141 <= W * 2 ^ 149) by (apply Side; exact HW).
    exists m, (H * 2 ^ 149). split; [reflexivity|].
    unfold grows_short_axis. split; [right|split].
    + split; [reflexivity|]. split; [exact Sk|]. split.
      * apply nearly_of_bounds. exact Bn.
      * destruct (ceiling_spec m) as [C1 _].
        apply (Z.mul_le_mono_pos_r _ _ (2 ^ 149)); [exact U|lia].
    + split; [lia|]. apply positive_anchor; [lia|exact Rm].
    + apply Side. exact HH.
Qed.


Lemma cropped_pair (c : Context) (sw sh : Z) :
  2 ^ 141 <= sw <= 2 ^ 177 -> anchor binary32 sw ->
  2 ^ 141 <= sh <= 2 ^ 177 -> anchor binary32 sh ->
  exists cw ch e,
    expected_aspect c = Fin e /\
    ApplyStandardAspectCrop c (Fin sw) (Fin sh) = (Fin cw, Fin ch) /\
    standard_crop (bCrop c && negb (is_Stretch (aspect_mode c)))
      e sw sh cw ch /\
    0 <= cw <= 2 ^ 177 /\ 0 <= ch <= 2 ^ 177.
Proof.
  intros Hw Aw Hh Ah. pose proof pow149 as U.
  assert (P24 : 2 ^ 24 = 16777216) by reflexivity.
  assert (P141 : 0 < 2 ^ 141) by (apply Z.pow_pos_nonneg; lia).
  assert (P150 : 2 ^ 150 = 2 * 2 ^ 149) by reflexivity.
  assert (T177 : 2 ^ 177 <= IEEE.top binary32) by (apply pow2_le_top; lia).
  destruct (expected_aspect_units c) as (e & Ee & Re & Ke).
  assert (Ae : anchor binary32 e) by (apply positive_anchor; [lia|exact Ke]).
  assert (Te : e <= IEEE.top binary32).
  { assert (2 ^ 150 <= IEEE.top binary32) by (apply pow2_le_top; lia).
    lia. }
  assert (SU : 2 ^ 141 * 2 ^ 149 <= sw * 2 ^ 149)
    by (apply Z.mul_le_mono_nonneg_r; lia).
  assert (SU' : sw * 2 ^ 149 <= 2 ^ 177 * 2 ^ 149)
    by (apply Z.mul_le_mono_nonneg_r; lia).
  assert (HE : 2 ^ 141 * 2 ^ 149 <= sh * e)
    by (apply Z.mul_le_mono_nonneg; lia).
  unfold ApplyStandardAspectCrop. fold (expected_aspect c). rewrite Ee.
  replace (bCrop c && negb (is_Stretch (aspect_mode c)))
    with (negb (negb (bCrop c) || is_Stretch (aspect_mode c)))
    by (destruct (bCrop c), (is_Stretch (aspect_mode c)); reflexivity).
  unfold standard_crop.
  destruct (negb (bCrop c) || is_Stretch (aspect_mode c)); cbn [negb].
  { exists sw, sh, e. split; [reflexivity|]. split; [reflexivity|].
    split; [split; reflexivity|]. split; lia. }
  unfold float. rewrite (div_Fin_pos binary32 sw sh) by lia.
  rewrite scale32.
  destruct (round_ratio_between binary32 prec32 (sw * 2 ^ 149) sh
              (2 ^ 113) (2 ^ 185)) as (cur & Ecur & Rcur).
  { lia. }
  { apply anchor_pow2. lia. }
  { apply anchor_pow2. lia. }
  { apply pow2_le_top. lia. }
  { split.
    - assert (2 ^ 113 * sh <= 2 ^ 113 * 2 ^ 177)
        by (apply Z.mul_le_mono_nonneg_l; [apply Z.pow_nonneg|]; lia).
      assert (2 ^ 113 * 2 ^ 177 = 2 ^ 141 * 2 ^ 149) by reflexivity.
      lia.
    - assert (2 ^ 185 * 2 ^ 141 <= 2 ^ 185 * sh)
        by (apply Z.mul_le_mono_nonneg_l; [apply Z.pow_nonneg|]; lia).
      assert (2 ^ 177 * 2 ^ 149 = 2 ^ 185 * 2 ^ 141) by reflexivity.
      lia. }
  rewrite Ecur. unfold ltb, num.
  destruct (round32_normal (sw * 2 ^ 149) sh cur) as (Bcur & _ & _);
    [lia| |exact Ecur|].
  { assert (2 ^ 23 * sh <= 2 ^ 23 * 2 ^ 177)
      by (apply Z.mul_le_mono_nonneg_l; [apply Z.pow_nonneg|]; lia).
    assert (2 ^ 23 * 2 ^ 177 <= 2 ^ 141 * 2 ^ 149)
      by (vm_compute; discriminate).
    lia. }
  destruct (Z.ltb_spec e cur) as [Lt|Ge].
  - (* the width overshoots and is cut *)
    assert (Over : e * sh < sw * 2 ^ 149).
    { destruct (Z_lt_le_dec (e * sh) (sw * 2 ^ 149)) as [|Not];
        [assumption|exfalso].
      destruct (round_ratio_le binary32 prec32 (sw * 2 ^ 149) sh e)
        as (n & E & N); try assumption; try lia.
      rewrite Ecur in E. injection E as <-. lia. }
    rewrite (mul_Fin binary32 sh e) by lia. rewrite scale32.
    destruct (round_ratio_le binary32 prec32 (sh * e) (2 ^ 149) sw)
      as (cw & Ecw & Rcw); try assumption; try lia.
    destruct (round32_normal (sh * e) (2 ^ 149) cw) as (Bcw & _ & _);
      [lia| |exact Ecw|].
    { assert (2 ^ 23 * 2 ^ 149 <= 2 ^ 141 * 2 ^ 149)
        by (vm_compute; discriminate).
      lia. }
    exists cw, sh, e. split; [reflexivity|].
    split; [rewrite Ecw; reflexivity|].
    split; [left|lia].
    split; [exact Over|]. split; [reflexivity|]. split; [lia|].
    apply nearly_of_bounds. exact Bcw.
  - (* the height is derived from the width *)
    rewrite (div_Fin_pos binary32 sw e) by lia. rewrite scale32.
    destruct (round_ratio_le binary32 prec32 (sw * 2 ^ 149) e (2 ^ 177))
      as (ch & Ech & Rch); try assumption; try lia.
    { apply anchor_pow2. lia. }
    destruct (round32_normal (sw * 2 ^ 149) e ch) as (Bch & _ & _);
      [lia| |exact Ech|].
    { assert (2 ^ 23 * e <= 2 ^ 23 * 2 ^ 150)
        by (apply Z.mul_le_mono_nonneg_l; [apply Z.pow_nonneg|]; lia).
      assert (2 ^ 23 * 2 ^ 150 <= 2 ^ 141 * 2 ^ 149)
        by (vm_compute; discriminate).
      lia. }
    assert (Cond : (2 ^ 24 - 1) * (sw * 2 ^ 149) <= 2 ^ 24 * (e * sh)).
    { assert (cur * sh <= e * sh)
        by (apply Z.mul_le_mono_nonneg_r; lia).
      lia. }
    exists sw, ch, e. split; [reflexivity|].
    split; [rewrite Ech; reflexivity|].
    split; [right|lia].
    split; [exact Cond|]. split; [reflexivity|].
    split; [apply nearly_of_bounds; exact Bch|].
    (* P (P-1) ch e <= (P+1) (P-1) sw U <= (P+1) P e sh *)
    rewrite P24 in *.
    apply (Z.mul_le_mono_pos_r _ _ (16777216 * e)); [lia|].
    destruct Bch as [_ Bch].
    set (X := sw * 2 ^ 149) in *. set (Y := e * sh) in *.
    set (V := ch * e) in *.
    replace ((16777216 - 1) * ch * (16777216 * e))
      with ((16777216 - 1) * (16777216 * V)) by (unfold V; ring).
    replace ((16777216 + 1) * sh * (16777216 * e))
      with ((16777216 + 1) * (16777216 * Y)) by (unfold Y; ring).
    clearbody X Y V. lia.
Qed.


(** C3, as the code has it.  For a draw aspect ratio that is a finite
    [float] between 1/256 and 256 and requests of at most [2^20], zero and
    negative ones included, [CalculateOutputDimensions]
    - treats a request below 1 as 1;
    - scales to the draw aspect ratio by growing whichever axis is short:
      the other axis keeps the request, and the short one becomes the
      request of the other axis times (or divided by) the ratio, rounded
      to a [float], which raised to an integer is at least its own
      request;
    - applies the standard-aspect crop: nothing when the crop is off or the
      mode is [Stretch]; otherwise a width that overshoots 16:9 or 4:3 is
      cut to the height times that ratio, and else the height becomes the
      width divided by it;
    - returns the two sides raised to an integer and rounded down to a
      multiple of four, both [>= 0].
    The presenter is an argument that is only read: the function returns
    the two dimensions and nothing else.  Sizes are in units of
    [2^-149]. *)
Theorem CalculateOutputDimensions_grows_short_axis_then_crops
    (c : Context) (p : Presenter) (a width height : Z) :
  CalculateDrawAspectRatio c p = Fin a ->
  anchor binary32 a -> 2 ^ 141 <= a <= 2 ^ 157 ->
  width <= 2 ^ 20 -> height <= 2 ^ 20 ->
  exists sw sh cw ch e,
    CalculateOutputDimensions c p width height =
      CalculateOutputDimensions c p (Z.max width 1) (Z.max height 1) /\
    ScaleToDisplayAspectRatio c p (Z.max width 1) (Z.max height 1) =
      (Fin sw, Fin sh) /\
    grows_short_axis a (Z.max width 1) (Z.max height 1) sw sh /\
    expected_aspect c = Fin e /\
    ApplyStandardAspectCrop c (Fin sw) (Fin sh) = (Fin cw, Fin ch) /\
    standard_crop (bCrop c && negb (is_Stretch (aspect_mode c)))
      e sw sh cw ch /\
    CalculateOutputDimensions c p width height =
      Some (by_four (ceiling cw), by_four (ceiling ch)) /\
    Z.rem (by_four (ceiling cw)) 4 = 0 /\
    Z.rem (by_four (ceiling ch)) 4 = 0 /\
    0 <= by_four (ceiling cw) /\ 0 <= by_four (ceiling ch).
Proof.
  intros Ea An Ha Hw Hh.
  assert (P20 : 2 ^ 20 = 1048576) by reflexivity.
  assert (P177 : 2 ^ 177 = 2 ^ 28 * 2 ^ 149) by reflexivity.
  assert (HW : 1 <= Z.max width 1 <= 2 ^ 20) by lia.
  assert (HH : 1 <= Z.max height 1 <= 2 ^ 20) by lia.
  destruct (scaled_pair c p a _ _ Ea An Ha HW HH)
    as (sw & sh & Es & G & [Bw Aw] & [Bh Ah]).
  destruct (cropped_pair c sw sh Bw Aw Bh Ah)
    as (cw & ch & e & Ee & Ec & C & Rw & Rh).
  rewrite P177 in Rw, Rh.
  destruct (to_int_ceil cw Rw) as [Iw Kw].
  destruct (to_int_ceil ch Rh) as [Ih Kh].
  exists sw, sh, cw, ch, e.
  assert (R : CalculateOutputDimensions c p width height =
              Some (by_four (ceiling cw), by_four (ceiling ch))).
  { unfold CalculateOutputDimensions. rewrite Es, Ec, Iw, Ih.
    rewrite (output_side _ Kw), (output_side _ Kh). reflexivity. }
  destruct (by_four_spec (ceiling cw)) as (_ & R1 & _ & _ & N1).
  destruct (by_four_spec (ceiling ch)) as (_ & R2 & _ & _ & N2).
  split.
  { unfold CalculateOutputDimensions.
    rewrite <- !Z.max_assoc, !Z.max_id. reflexivity. }
  repeat split; try assumption; [apply N1|apply N2]; lia.
Qed.

(** A 640 x 528 request under the 16:9 picture: the width is the short
    axis. *)
Lemma CalculateOutputDimensions_grows_the_width_of_640x528 :
  exists sw sh cw ch e,
    CalculateOutputDimensions wide_picture backbuffer_1000x400 640 528 =
      CalculateOutputDimensions wide_picture backbuffer_1000x400
        (Z.max 640 1) (Z.max 528 1) /\
    ScaleToDisplayAspectRatio wide_picture backbuffer_1000x400
      (Z.max 640 1) (Z.max 528 1) = (Fin sw, Fin sh) /\
    grows_short_axis wide_picture_aspect (Z.max 640 1) (Z.max 528 1)
      sw sh /\
    expected_aspect wide_picture = Fin e /\
    ApplyStandardAspectCrop wide_picture (Fin sw) (Fin sh) =
      (Fin cw, Fin ch) /\
    standard_crop
      (bCrop wide_picture && negb (is_Stretch (aspect_mode wide_picture)))
      e sw sh cw ch /\
    CalculateOutputDimensions wide_picture backbuffer_1000x400 640 528 =
      Some (by_four (ceiling cw), by_four (ceiling ch)) /\
    Z.rem (by_four (ceiling cw)) 4 = 0 /\
    Z.rem (by_four (ceiling ch)) 4 = 0 /\
    0 <= by_four (ceiling cw) /\ 0 <= by_four (ceiling ch).
Proof.
  apply (CalculateOutputDimensions_grows_short_axis_then_crops
           wide_picture backbuffer_1000x400 wide_picture_aspect 640 528).
  - vm_compute. reflexivity.
  - exists (wide_picture_aspect / 2 ^ 126), 126.
    repeat split; vm_compute; try reflexivity; discriminate.
  - split; vm_compute; discriminate.
  - vm_compute. discriminate.
  - vm_compute. discriminate.
Defined.

End OutputFacts.
